(** * Fighting Arena: the simulation core of [src/App.js]

    A shallow embedding of the per-frame game loop (fighter step, AI
    controller, combat resolver, round controller) and the properties the
    specification states about it, followed by further properties of the
    code: the geometry helpers, the hit resolution, the step, invariants
    of the reachable states, the AI's key map, the round transitions, the
    animation loop and the HUD.

    Numbers.  Every JavaScript number of the source is an exact rational
    ([Q]); numeric equality is [==] ([Qeq]).  The rounding of IEEE doubles
    is not modelled.  Wall-clock readings ([performance.now()]), the frame
    [delta] and the draws of [Math.random()] are inputs of the model.

    React.  The component state is one record; a callback runs on the
    render whose values it closed over and its state writes are applied
    in program order.  An updater function is called by React either at
    once or in the next render, after the writes queued behind it; the
    one updater with writes of its own, that of [setTimer] in the frame,
    is modelled both ways.  [keysRef.current]
    and the random source live outside that record and are threaded
    through a frame by a small state monad. *)

From Stdlib Require Import QArith Qabs Qminmax Qround Lqa ZArith Lia Bool String.
From stdpp Require Import gmap strings.

Local Open Scope Q_scope.

(** ** Numbers *)

(** [a < b], [a <= b], [a === b] on numbers, as booleans. *)
Definition Qltb (a b : Q) : bool := negb (Qle_bool b a).
Definition Qleb (a b : Q) : bool := Qle_bool a b.
Definition Qeqb (a b : Q) : bool := Qeq_bool a b.

(** ** Game constants *)

Definition ARENA_WIDTH : Q := 960.
Definition ARENA_HEIGHT : Q := 420.
Definition FLOOR_Y : Q := 320.
Definition GRAVITY : Q := 0.7.
Definition FRICTION : Q := 0.85.
Definition MAX_SPEED : Q := 5.
Definition JUMP_VELOCITY : Q := -12.
Definition ATTACK_COOLDOWN : Q := 350.
Definition HEAVY_COOLDOWN : Q := 700.
Definition SPECIAL_COOLDOWN : Q := 2200.
Definition BLOCK_REDUCTION : Q := 0.65.
Definition ROUND_TIME : Q := 60.
Definition WIN_ROUNDS : Z := 2.

(** ** Controls and pressed keys *)

Module Controls.
Record t : Type := mk
    { left : string; right : string; up : string; down : string;
      light : string; heavy : string; special : string }.
End Controls.

Module CONTROLS.
Definition p1 : Controls.t :=
    Controls.mk "a" "d" "w" "s" "j" "k" "u".
Definition p2 : Controls.t :=
    Controls.mk "ArrowLeft" "ArrowRight" "ArrowUp" "ArrowDown"
                "Numpad1" "Numpad2" "Numpad3".
End CONTROLS.

(** The object behind [keysRef.current]: key name to pressed flag. *)
Abbreviation Keys := (gmap string bool).

(** [!!k[key]]: an absent key reads as not pressed. *)
Definition pressed (k : Keys) (key : string) : bool := default false (k !! key).

(** The [keydown] and [keyup] listeners write into the current object. *)
Definition onKeyDown (key : string) (k : Keys) : Keys := <[key := true]> k.
Definition onKeyUp (key : string) (k : Keys) : Keys := <[key := false]> k.

(** ** Difficulty presets *)

Inductive Difficulty : Type := Easy | Normal | Hard.

Module Cfg.
Record t : Type := mk
    { reactionMs : Q * Q; blockChance : Q; specialChance : Q; aggression : Q }.
End Cfg.

Definition DIFFICULTY (d : Difficulty) : Cfg.t :=
  match d with
  | Easy => Cfg.mk (500, 900) 0.25 0.1 0.3
  | Normal => Cfg.mk (350, 650) 0.45 0.2 0.55
  | Hard => Cfg.mk (220, 420) 0.65 0.35 0.75
  end.

(** ** Fighters *)

Inductive AttackType : Type := Light | Heavy | Special.

Module Cooldowns.
Record t : Type := mk { light : Q; heavy : Q; special : Q }.
Definition set_light (v : Q) (c : t) : t := mk v (heavy c) (special c).
Definition set_heavy (v : Q) (c : t) : t := mk (light c) v (special c).
Definition set_special (v : Q) (c : t) : t := mk (light c) (heavy c) v.
End Cooldowns.

Module Fighter.
Record t : Type := mk
    { x : Q; y : Q; vx : Q; vy : Q; width : Q; height : Q;
      facing : Z; palette : string;
      onGround : bool; attacking : bool; attackType : option AttackType;
      attackTimer : Q; block : bool; canAct : bool;
      hp : Q; rounds : Z; cooldowns : Cooldowns.t;
      hitflash : Q; blockflash : Q }.

  (** Field updates of an object copy ([{ ...f, field: v }], [nx.field = v]). *)
Definition set_x (v : Q) (f : t) : t :=
    mk v (y f) (vx f) (vy f) (width f) (height f) (facing f) (palette f) (onGround f) (attacking f) (attackType f) (attackTimer f) (block f) (canAct f) (hp f) (rounds f) (cooldowns f) (hitflash f) (blockflash f).
Definition set_y (v : Q) (f : t) : t :=
    mk (x f) v (vx f) (vy f) (width f) (height f) (facing f) (palette f) (onGround f) (attacking f) (attackType f) (attackTimer f) (block f) (canAct f) (hp f) (rounds f) (cooldowns f) (hitflash f) (blockflash f).
Definition set_vx (v : Q) (f : t) : t :=
    mk (x f) (y f) v (vy f) (width f) (height f) (facing f) (palette f) (onGround f) (attacking f) (attackType f) (attackTimer f) (block f) (canAct f) (hp f) (rounds f) (cooldowns f) (hitflash f) (blockflash f).
Definition set_vy (v : Q) (f : t) : t :=
    mk (x f) (y f) (vx f) v (width f) (height f) (facing f) (palette f) (onGround f) (attacking f) (attackType f) (attackTimer f) (block f) (canAct f) (hp f) (rounds f) (cooldowns f) (hitflash f) (blockflash f).
Definition set_facing (v : Z) (f : t) : t :=
    mk (x f) (y f) (vx f) (vy f) (width f) (height f) v (palette f) (onGround f) (attacking f) (attackType f) (attackTimer f) (block f) (canAct f) (hp f) (rounds f) (cooldowns f) (hitflash f) (blockflash f).
Definition set_onGround (v : bool) (f : t) : t :=
    mk (x f) (y f) (vx f) (vy f) (width f) (height f) (facing f) (palette f) v (attacking f) (attackType f) (attackTimer f) (block f) (canAct f) (hp f) (rounds f) (cooldowns f) (hitflash f) (blockflash f).
Definition set_attacking (v : bool) (f : t) : t :=
    mk (x f) (y f) (vx f) (vy f) (width f) (height f) (facing f) (palette f) (onGround f) v (attackType f) (attackTimer f) (block f) (canAct f) (hp f) (rounds f) (cooldowns f) (hitflash f) (blockflash f).
Definition set_attackType (v : option AttackType) (f : t) : t :=
    mk (x f) (y f) (vx f) (vy f) (width f) (height f) (facing f) (palette f) (onGround f) (attacking f) v (attackTimer f) (block f) (canAct f) (hp f) (rounds f) (cooldowns f) (hitflash f) (blockflash f).
Definition set_attackTimer (v : Q) (f : t) : t :=
    mk (x f) (y f) (vx f) (vy f) (width f) (height f) (facing f) (palette f) (onGround f) (attacking f) (attackType f) v (block f) (canAct f) (hp f) (rounds f) (cooldowns f) (hitflash f) (blockflash f).
Definition set_block (v : bool) (f : t) : t :=
    mk (x f) (y f) (vx f) (vy f) (width f) (height f) (facing f) (palette f) (onGround f) (attacking f) (attackType f) (attackTimer f) v (canAct f) (hp f) (rounds f) (cooldowns f) (hitflash f) (blockflash f).
Definition set_hp (v : Q) (f : t) : t :=
    mk (x f) (y f) (vx f) (vy f) (width f) (height f) (facing f) (palette f) (onGround f) (attacking f) (attackType f) (attackTimer f) (block f) (canAct f) v (rounds f) (cooldowns f) (hitflash f) (blockflash f).
Definition set_rounds (v : Z) (f : t) : t :=
    mk (x f) (y f) (vx f) (vy f) (width f) (height f) (facing f) (palette f) (onGround f) (attacking f) (attackType f) (attackTimer f) (block f) (canAct f) (hp f) v (cooldowns f) (hitflash f) (blockflash f).
Definition set_cooldowns (v : Cooldowns.t) (f : t) : t :=
    mk (x f) (y f) (vx f) (vy f) (width f) (height f) (facing f) (palette f) (onGround f) (attacking f) (attackType f) (attackTimer f) (block f) (canAct f) (hp f) (rounds f) v (hitflash f) (blockflash f).
Definition set_hitflash (v : Q) (f : t) : t :=
    mk (x f) (y f) (vx f) (vy f) (width f) (height f) (facing f) (palette f) (onGround f) (attacking f) (attackType f) (attackTimer f) (block f) (canAct f) (hp f) (rounds f) (cooldowns f) v (blockflash f).
Definition set_blockflash (v : Q) (f : t) : t :=
    mk (x f) (y f) (vx f) (vy f) (width f) (height f) (facing f) (palette f) (onGround f) (attacking f) (attackType f) (attackTimer f) (block f) (canAct f) (hp f) (rounds f) (cooldowns f) (hitflash f) v.
End Fighter.

Definition createFighter (x : Q) (facing : Z) (palette : string) : Fighter.t :=
  {| Fighter.x := x;
     Fighter.y := FLOOR_Y;
     Fighter.vx := 0;
     Fighter.vy := 0;
     Fighter.width := 48;
     Fighter.height := 78;
     Fighter.facing := facing;
     Fighter.palette := palette;
     Fighter.onGround := true;
     Fighter.attacking := false;
     Fighter.attackType := None;
     Fighter.attackTimer := 0;
     Fighter.block := false;
     Fighter.canAct := true;
     Fighter.hp := 100;
     Fighter.rounds := 0%Z;
     Fighter.cooldowns := Cooldowns.mk 0 0 0;
     Fighter.hitflash := 0;
     Fighter.blockflash := 0 |}.

(** ** Geometry helpers *)

Module Rect.
Record t : Type := mk { x : Q; y : Q; width : Q; height : Q }.
End Rect.

Definition rectsOverlap (a b : Rect.t) : bool :=
  negb (Qltb (Rect.x a + Rect.width a) (Rect.x b)
        || Qltb (Rect.x b + Rect.width b) (Rect.x a)
        || Qltb (Rect.y a) (Rect.y b - Rect.height b)
        || Qltb (Rect.y b) (Rect.y a - Rect.height a)).

Definition clamp (v min max : Q) : Q := Qmax min (Qmin max v).

Definition getAttackHitbox (f : Fighter.t) (type : AttackType) : Rect.t :=
  let reach := match type with Heavy => 56 | Light => 42 | Special => 68 end in
  let height := 24 in
  {| Rect.x := if (Fighter.facing f =? 1)%Z
               then Fighter.x f + Fighter.width f
               else Fighter.x f - reach;
     Rect.y := Fighter.y f - Fighter.height f / 2;
     Rect.width := reach;
     Rect.height := height |}.

Definition resolveFacing (p1 p2 : Fighter.t) : Fighter.t * Fighter.t :=
  let leftIsP1 := Qltb (Fighter.x p1) (Fighter.x p2) in
  (Fighter.set_facing (if leftIsP1 then 1 else -1)%Z p1,
   Fighter.set_facing (if leftIsP1 then -1 else 1)%Z p2).

(** ** The fighter step: [controlPlayer]

    [k] is the key snapshot read at the start of the frame and [delta] the
    frame time; both are captured by the closure in the source.  The body
    is split at the source's own section comments. *)

(** [// Blocking] *)
Definition blocking (k : Keys) (control : Controls.t) (nx : Fighter.t) : Fighter.t :=
  let down := pressed k (Controls.down control) in
  Fighter.set_block down nx.

(** [// Horizontal] *)
Definition horizontal (k : Keys) (control : Controls.t) (nx : Fighter.t) : Fighter.t :=
  let left := pressed k (Controls.left control) in
  let right := pressed k (Controls.right control) in
  let accel := 0.8 in
  if left && negb right then
    Fighter.set_vx (clamp (Fighter.vx nx - accel) (- MAX_SPEED) MAX_SPEED) nx
  else if right && negb left then
    Fighter.set_vx (clamp (Fighter.vx nx + accel) (- MAX_SPEED) MAX_SPEED) nx
  else
    let nx := Fighter.set_vx (Fighter.vx nx * FRICTION) nx in
    if Qltb (Qabs (Fighter.vx nx)) 0.08 then Fighter.set_vx 0 nx else nx.

(** [// Jump] *)
Definition jump (k : Keys) (control : Controls.t) (nx : Fighter.t) : Fighter.t :=
  let up := pressed k (Controls.up control) in
  if up && Fighter.onGround nx then
    Fighter.set_onGround false (Fighter.set_vy JUMP_VELOCITY nx)
  else nx.

(** The four assignments of one branch of the attack block.  In the source
    [nx] is a shallow copy and [nx.cooldowns] is still the object of the
    previous snapshot [f]; the model gives the step's result its updated
    cooldowns and keeps no reference to the snapshot it replaces. *)
Definition startAttack (type : AttackType) (timer : Q) (cd : Cooldowns.t)
    (nx : Fighter.t) : Fighter.t :=
  Fighter.set_cooldowns cd
    (Fighter.set_attackTimer timer
       (Fighter.set_attackType (Some type)
          (Fighter.set_attacking true nx))).

(** [// Attacks] *)
Definition attacks (k : Keys) (control : Controls.t) (now : Q) (nx : Fighter.t) : Fighter.t :=
  let wantLight := pressed k (Controls.light control) in
  let wantHeavy := pressed k (Controls.heavy control) in
  let wantSpecial := pressed k (Controls.special control) in
  let canLight := Qleb (Cooldowns.light (Fighter.cooldowns nx)) now in
  let canHeavy := Qleb (Cooldowns.heavy (Fighter.cooldowns nx)) now in
  let canSpecial := Qleb (Cooldowns.special (Fighter.cooldowns nx)) now in
  if negb (Fighter.attacking nx) && negb (Fighter.block nx) && Fighter.canAct nx then
    if wantSpecial && canSpecial then
      startAttack Special 240
        (Cooldowns.set_special (now + SPECIAL_COOLDOWN) (Fighter.cooldowns nx)) nx
    else if wantHeavy && canHeavy then
      startAttack Heavy 180
        (Cooldowns.set_heavy (now + HEAVY_COOLDOWN) (Fighter.cooldowns nx)) nx
    else if wantLight && canLight then
      startAttack Light 120
        (Cooldowns.set_light (now + ATTACK_COOLDOWN) (Fighter.cooldowns nx)) nx
    else nx
  else nx.

(** [// Integrate physics] *)
Definition integrate (nx : Fighter.t) : Fighter.t :=
  let nx := Fighter.set_vy (Fighter.vy nx + GRAVITY) nx in
  let nx := Fighter.set_x (clamp (Fighter.x nx + Fighter.vx nx) 24 (ARENA_WIDTH - 24)) nx in
  let nx := Fighter.set_y (Fighter.y nx + Fighter.vy nx) nx in
  if Qleb FLOOR_Y (Fighter.y nx) then
    Fighter.set_onGround true (Fighter.set_vy 0 (Fighter.set_y FLOOR_Y nx))
  else nx.

(** [// Update animation timers] *)
Definition updateTimers (delta : Q) (nx : Fighter.t) : Fighter.t :=
  let nx := if Qltb 0 (Fighter.hitflash nx)
            then Fighter.set_hitflash (Fighter.hitflash nx - delta) nx else nx in
  let nx := if Qltb 0 (Fighter.blockflash nx)
            then Fighter.set_blockflash (Fighter.blockflash nx - delta) nx else nx in
  if Fighter.attacking nx then
    let nx := Fighter.set_attackTimer (Fighter.attackTimer nx - delta) nx in
    if Qleb (Fighter.attackTimer nx) 0 then
      Fighter.set_attackType None (Fighter.set_attacking false nx)
    else nx
  else nx.

Definition controlPlayer (k : Keys) (delta : Q)
    (f : Fighter.t) (control : Controls.t) (now : Q) : Fighter.t :=
  let nx := f in
  let nx := blocking k control nx in
  let nx := horizontal k control nx in
  let nx := jump k control nx in
  let nx := attacks k control now nx in
  let nx := integrate nx in
  updateTimers delta nx.

(** ** Combat: [handleHit] and body separation *)

Definition handleHit (attacker defender : Fighter.t) : Fighter.t :=
  match Fighter.attackType attacker with
  | None => defender
  | Some type =>
    if negb (Fighter.attacking attacker) then defender else
    let attackActive := Qltb 40 (Fighter.attackTimer attacker) in
    if negb attackActive then defender else
    let hitbox := getAttackHitbox attacker type in
    let hurtbox :=
      {| Rect.x := Fighter.x defender - Fighter.width defender / 2;
         Rect.y := Fighter.y defender;
         Rect.width := Fighter.width defender;
         Rect.height := Fighter.height defender |} in
    if rectsOverlap
         (Rect.mk (Rect.x hitbox) (Rect.y hitbox) (Rect.width hitbox) (Rect.height hitbox))
         (Rect.mk (Rect.x hurtbox) (Rect.y hurtbox - Rect.height hurtbox)
                  (Rect.width hurtbox) (Rect.height hurtbox))
    then
      let baseDmg := match type with Light => 6 | Heavy => 12 | Special => 18 end in
      let dmg := if Fighter.block defender
                 then inject_Z (Qceiling (baseDmg * (1 - BLOCK_REDUCTION)))
                 else baseDmg in
      let nd := Fighter.set_hp (clamp (Fighter.hp defender - dmg) 0 100) defender in
      let nd := if Fighter.block defender
                then Fighter.set_blockflash 160 nd
                else Fighter.set_hitflash 160 nd in
      let kb := match type with Heavy => 3.2 | Special => 4 | Light => 2.2 end in
      Fighter.set_vx
        (Fighter.vx nd + kb * (if (Fighter.facing attacker =? 1)%Z then 1 else -1)) nd
    else defender
  end.

(** [// Prevent overlap by pushing apart] *)
Definition separate (np1 np2 : Fighter.t) : Fighter.t * Fighter.t :=
  let half := (Fighter.width np1 + Fighter.width np2) / 2 in
  let dist := Qabs (Fighter.x np1 - Fighter.x np2) in
  let overlapX := if Qltb dist half then half - dist else 0 in
  if Qltb 0 overlapX then
    let push := overlapX / 2 + 0.1 in
    if Qltb (Fighter.x np1) (Fighter.x np2) then
      (Fighter.set_x (clamp (Fighter.x np1 - push) 24 (ARENA_WIDTH - 24)) np1,
       Fighter.set_x (clamp (Fighter.x np2 + push) 24 (ARENA_WIDTH - 24)) np2)
    else
      (Fighter.set_x (clamp (Fighter.x np1 + push) 24 (ARENA_WIDTH - 24)) np1,
       Fighter.set_x (clamp (Fighter.x np2 - push) 24 (ARENA_WIDTH - 24)) np2)
  else (np1, np2).

(** ** React state of [App] *)

Inductive Mode : Type := PvP | PvAI.

(** ["Player 1"] and ["Player 2"]; [null] is [None]. *)
Inductive Side : Type := Player1 | Player2.

Module App.
Record t : Type := mk
  { mode : Mode; difficulty : Difficulty;
    p1 : Fighter.t; p2 : Fighter.t;
    timer : Q; paused : bool; roundOver : bool;
    winnerRound : option Side; matchWinner : option Side }.
End App.

(** The state setters.  [setP1], [setP2], [setTimer] and [setMatchWinner]
    are also called with updater functions in the source, so all setters
    of those cells take one; [setX(v)] is [setX (fun _ => v)]. *)
Definition setP1 (u : Fighter.t -> Fighter.t) (s : App.t) : App.t :=
  App.mk (App.mode s) (App.difficulty s) (u (App.p1 s)) (App.p2 s) (App.timer s)
         (App.paused s) (App.roundOver s) (App.winnerRound s) (App.matchWinner s).
Definition setP2 (u : Fighter.t -> Fighter.t) (s : App.t) : App.t :=
  App.mk (App.mode s) (App.difficulty s) (App.p1 s) (u (App.p2 s)) (App.timer s)
         (App.paused s) (App.roundOver s) (App.winnerRound s) (App.matchWinner s).
Definition setTimer (u : Q -> Q) (s : App.t) : App.t :=
  App.mk (App.mode s) (App.difficulty s) (App.p1 s) (App.p2 s) (u (App.timer s))
         (App.paused s) (App.roundOver s) (App.winnerRound s) (App.matchWinner s).
Definition setRoundOver (v : bool) (s : App.t) : App.t :=
  App.mk (App.mode s) (App.difficulty s) (App.p1 s) (App.p2 s) (App.timer s)
         (App.paused s) v (App.winnerRound s) (App.matchWinner s).
Definition setWinnerRound (v : option Side) (s : App.t) : App.t :=
  App.mk (App.mode s) (App.difficulty s) (App.p1 s) (App.p2 s) (App.timer s)
         (App.paused s) (App.roundOver s) v (App.matchWinner s).
Definition setMatchWinner (u : option Side -> option Side) (s : App.t) : App.t :=
  App.mk (App.mode s) (App.difficulty s) (App.p1 s) (App.p2 s) (App.timer s)
         (App.paused s) (App.roundOver s) (App.winnerRound s) (u (App.matchWinner s)).
Definition setMode (v : Mode) (s : App.t) : App.t :=
  App.mk v (App.difficulty s) (App.p1 s) (App.p2 s) (App.timer s)
         (App.paused s) (App.roundOver s) (App.winnerRound s) (App.matchWinner s).

Definition setPaused (u : bool -> bool) (s : App.t) : App.t :=
  App.mk (App.mode s) (App.difficulty s) (App.p1 s) (App.p2 s) (App.timer s)
         (u (App.paused s)) (App.roundOver s) (App.winnerRound s) (App.matchWinner s).
Definition setDifficulty (v : Difficulty) (s : App.t) : App.t :=
  App.mk (App.mode s) v (App.p1 s) (App.p2 s) (App.timer s)
         (App.paused s) (App.roundOver s) (App.winnerRound s) (App.matchWinner s).

(** The state of the first render. *)
Definition initialApp : App.t :=
  {| App.mode := PvAI; App.difficulty := Normal;
     App.p1 := createFighter (ARENA_WIDTH * 0.25) 1 "blue";
     App.p2 := createFighter (ARENA_WIDTH * 0.75) (-1) "amber";
     App.timer := ROUND_TIME; App.paused := false; App.roundOver := false;
     App.winnerRound := None; App.matchWinner := None |}.

(** ** Mutable cells outside React state

    [keysRef.current] is reassigned by the AI controller and written by the
    key listeners; [Math.random()] is a process-wide source.  Both are
    threaded through the frame by a state monad.  [draws] counts the calls
    of [Math.random()] made so far. *)

Record Refs : Type := mkRefs { keysRef : Keys; draws : nat }.

Definition M (A : Type) : Type := Refs -> A * Refs.
Definition ret {A : Type} (a : A) : M A := fun r => (a, r).
Definition bind {A B : Type} (m : M A) (f : A -> M B) : M B :=
  fun r => let (a, r') := m r in f a r'.

Notation "x <- m ;; k" := (bind m (fun x => k))
  (at level 100, m at next level, right associativity).

Definition getKeys : M Keys := fun r => (keysRef r, r).
Definition setKeys (k : Keys) : M unit := fun r => (tt, mkRefs k (draws r)).

Section Frame.

(** [rnd n] is the value of the [n]-th call of [Math.random()]. *)
Variable rnd : nat -> Q.

Definition random : M Q :=
  fun r => (rnd (draws r), mkRefs (keysRef r) (S (draws r))).

(** [c && Math.random() < p]: the draw happens only when [c] holds. *)
Definition andRandomBelow (c : bool) (p : Q) : M bool :=
  if c then r <- random ;; ret (Qltb r p) else ret false.

(** ** The AI controller

    [k] and [delta] are the frame's closure variables: the fighter step at
    the end reads the snapshot [k] taken before the AI ran, not the object
    the AI has just stored in [keysRef.current]. *)
Definition controlAI (k : Keys) (delta : Q) (difficulty : Difficulty)
    (f enemy : Fighter.t) (now : Q) : M Fighter.t :=
  let cfg := DIFFICULTY difficulty in
  let dist := Qabs (Fighter.x enemy - Fighter.x f) in
  let towardEnemy := Qltb (Fighter.x f) (Fighter.x enemy) in
  r <- random ;;
  let shouldAdvance := Qltb r (Cfg.aggression cfg) in
  r <- random ;;
  let shouldBlock := Qltb r (Cfg.blockChance cfg) && Fighter.attacking enemy in
  let canAct :=
    Qleb (Cooldowns.light (Fighter.cooldowns f)) now
    && Qleb (Cooldowns.heavy (Fighter.cooldowns f)) now
    && Qleb (Cooldowns.special (Fighter.cooldowns f)) now
    && negb (Fighter.attacking f) in
  cur <- getKeys ;;
  let synth := cur in
  let synth := <[Controls.left CONTROLS.p2 := false]> synth in
  let synth := <[Controls.right CONTROLS.p2 := false]> synth in
  let synth := <[Controls.up CONTROLS.p2 := false]> synth in
  let synth := <[Controls.down CONTROLS.p2 := false]> synth in
  let synth := <[Controls.light CONTROLS.p2 := false]> synth in
  let synth := <[Controls.heavy CONTROLS.p2 := false]> synth in
  let synth := <[Controls.special CONTROLS.p2 := false]> synth in
  let targetMin := 72 in
  let targetMax := 120 in
  let synth :=
    if Qltb targetMax dist && shouldAdvance then
      if towardEnemy then <[Controls.right CONTROLS.p2 := true]> synth
      else <[Controls.left CONTROLS.p2 := true]> synth
    else if Qltb dist targetMin then
      if towardEnemy then <[Controls.left CONTROLS.p2 := true]> synth
      else <[Controls.right CONTROLS.p2 := true]> synth
    else synth in
  dodge <- andRandomBelow (negb (Fighter.onGround f)) 0.02 ;;
  let synth := if dodge then <[Controls.up CONTROLS.p2 := true]> synth else synth in
  let synth :=
    if shouldBlock && Qltb dist 100
    then <[Controls.down CONTROLS.p2 := true]> synth else synth in
  synth <-
    (if canAct then
       let (minR, maxR) := Cfg.reactionMs cfg in
       r <- random ;;
       let reactIn := Qfloor (minR + r * (maxR - minR)) in
       tryLight <- andRandomBelow (Qltb dist 60) 0.6 ;;
       if tryLight then ret (<[Controls.light CONTROLS.p2 := true]> synth) else
       tryHeavy <- andRandomBelow (Qltb dist 80) 0.4 ;;
       if tryHeavy then ret (<[Controls.heavy CONTROLS.p2 := true]> synth) else
       trySpecial <- andRandomBelow (Qltb dist 110) (Cfg.specialChance cfg) ;;
       if trySpecial then ret (<[Controls.special CONTROLS.p2 := true]> synth)
       else ret synth
     else ret synth) ;;
  cur <- getKeys ;;
  _ <- setKeys (synth ∪ cur) ;;
  ret (controlPlayer k delta f CONTROLS.p2 now).

(** ** The frame callback *)

(** Truthiness of a nullable side name. *)
Definition truthy (w : option Side) : bool :=
  match w with Some _ => true | None => false end.

(** [// countdown]: the updater passed to [setTimer], with the round-end
    writes it performs.  [p1] and [p2] are the fighters of the render the
    callback was created in. *)
Definition countdown (delta : Q) (p1 p2 : Fighter.t) (s : App.t) : App.t :=
  if Qltb 0 delta then
    let t := App.timer s in
    let next := t - delta / 1000 in
    if Qleb next 0 then
      let w := if Qeqb (Fighter.hp p1) (Fighter.hp p2) then None
               else if Qltb (Fighter.hp p2) (Fighter.hp p1) then Some Player1
               else Some Player2 in
      let s := setWinnerRound w s in
      let s := setRoundOver true s in
      setTimer (fun _ => 0) s
    else setTimer (fun _ => next) s
  else s.

(** [// Check KO] *)
Definition checkKO (np1 np2 : Fighter.t) (s : App.t) : App.t :=
  if Qleb (Fighter.hp np1) 0 || Qleb (Fighter.hp np2) 0 then
    let s := setWinnerRound
               (Some (if Qleb (Fighter.hp np1) 0 then Player2 else Player1)) s in
    setRoundOver true s
  else s.

(** The two fighters of a frame, from the step to the separation. *)
Definition resolve (np1 np2 : Fighter.t) : Fighter.t * Fighter.t :=
  let '(np1, np2) := resolveFacing np1 np2 in
  let np2 := handleHit np1 np2 in
  let np1 := handleHit np2 np1 in
  separate np1 np2.

(** When React calls the updater passed to [setTimer].  With no update of
    the component pending, as for the first state update after mount, it
    is called at once, inside [setTimer].  Otherwise it is called in the
    next render, when the other writes of the frame are already queued:
    the writes the updater makes itself then land after them. *)
Inductive UpdaterRun : Type := AtCall | InRender.

(** One animation frame on the render [s].  State writes are applied in
    program order; the [setTimer] updater runs when [u] says. *)
Definition frame (u : UpdaterRun) (delta now : Q) (s : App.t) : M App.t :=
  if App.paused s || App.roundOver s || truthy (App.matchWinner s)
  then ret s else
  let p1 := App.p1 s in
  let p2 := App.p2 s in
  let st := match u with
            | AtCall => countdown delta p1 p2 s
            | InRender => s
            end in
  k <- getKeys ;;
  let np1 := controlPlayer k delta p1 CONTROLS.p1 now in
  np2 <- match App.mode s with
         | PvP => ret (controlPlayer k delta p2 CONTROLS.p2 now)
         | PvAI => controlAI k delta (App.difficulty s) p2 p1 now
         end ;;
  let '(np1, np2) := resolve np1 np2 in
  let st := setP1 (fun _ => np1) st in
  let st := setP2 (fun _ => np2) st in
  let st := checkKO np1 np2 st in
  ret (match u with
       | AtCall => st
       | InRender => countdown delta p1 p2 st
       end).

End Frame.

(** ** Round transitions *)

Definition checkChampion (r1 r2 : Z) : option Side :=
  if (WIN_ROUNDS <=? r1)%Z then Some Player1
  else if (WIN_ROUNDS <=? r2)%Z then Some Player2
  else None.

(** The synchronous part of [nextRound], run by the click on render [c]. *)
Definition nextRound_click (c : App.t) (s : App.t) : App.t :=
  let wr := App.winnerRound c in
  match wr with
  | Some Player1 => setP1 (fun s => Fighter.set_rounds (Fighter.rounds s + 1)%Z s) s
  | Some Player2 => setP2 (fun s => Fighter.set_rounds (Fighter.rounds s + 1)%Z s) s
  | None => s
  end.

(** The callback [nextRound] hands to [setTimeout]; [wr], [p1] and [p2]
    are still those of the render [c]. *)
Definition nextRound_timeout (c : App.t) (s : App.t) : App.t :=
  let wr := App.winnerRound c in
  let s := setP1 (fun _ => createFighter (ARENA_WIDTH * 0.25) 1 "blue") s in
  let s := setP2 (fun prev =>
      let rounds := match wr with
                    | Some Player2 => (Fighter.rounds prev + 1)%Z
                    | _ => Fighter.rounds prev
                    end in
      let f := createFighter (ARENA_WIDTH * 0.75) (-1) "amber" in
      Fighter.set_rounds rounds f) s in
  let s := setP1 (fun prev =>
      let rounds := match wr with
                    | Some Player1 => Fighter.rounds prev
                    | _ => Fighter.rounds prev
                    end in
      Fighter.set_rounds rounds prev) s in
  let s := setTimer (fun _ => ROUND_TIME) s in
  let s := setRoundOver false s in
  let s := setWinnerRound None s in
  setMatchWinner (fun _ =>
      let r1 := match wr with
                | Some Player1 => (Fighter.rounds (App.p1 c) + 1)%Z
                | _ => Fighter.rounds (App.p1 c)
                end in
      let r2 := match wr with
                | Some Player2 => (Fighter.rounds (App.p2 c) + 1)%Z
                | _ => Fighter.rounds (App.p2 c)
                end in
      checkChampion r1 r2) s.

(** The "Next Round" action on the render [s]: the click, then the timeout
    200 ms later.  No frame runs in between, since [roundOver] holds. *)
Definition nextRound (s : App.t) : App.t :=
  nextRound_timeout s (nextRound_click s s).

Definition resetMatch (s : App.t) : App.t :=
  let s := setP1 (fun _ => createFighter (ARENA_WIDTH * 0.25) 1 "blue") s in
  let s := setP2 (fun _ => createFighter (ARENA_WIDTH * 0.75) (-1) "amber") s in
  let s := setTimer (fun _ => ROUND_TIME) s in
  let s := setRoundOver false s in
  let s := setWinnerRound None s in
  setMatchWinner (fun _ => None) s.

(** * Notions used by the properties *)

(** ** Bounds *)

(** A fighter inside the physical bounds of the arena. *)
Definition hpInRange (f : Fighter.t) : Prop := 0 <= Fighter.hp f /\ Fighter.hp f <= 100.
Definition xInArena (f : Fighter.t) : Prop :=
  24 <= Fighter.x f /\ Fighter.x f <= ARENA_WIDTH - 24.
Definition inBounds (f : Fighter.t) : Prop := hpInRange f /\ xInArena f.

Ltac split_ifs := repeat case_match; simpl in *; try reflexivity.

(** Discharge the first premise of [H] by [tac]. *)
Ltac feed H tac :=
  match type of H with
  | ?A -> _ => let K := fresh "K" in assert (K : A) by tac; specialize (H K); clear K
  end.

(** ** The AI controller and the frame *)

(** A render on which the frame callback does run. *)
Definition active (s : App.t) : Prop :=
  App.paused s = false /\ App.roundOver s = false /\ App.matchWinner s = None.

(** The fighters a frame stores, from the key snapshot [k]. *)
Definition frameFighters (k : Keys) (delta now : Q) (s : App.t) : Fighter.t * Fighter.t :=
  resolve (controlPlayer k delta (App.p1 s) CONTROLS.p1 now)
          (controlPlayer k delta (App.p2 s) CONTROLS.p2 now).

(** The state a running frame leaves on the render [s], from the two
    fighters it stores: the countdown before the fighters and the KO
    check, or after them. *)
Definition frameWrites (u : UpdaterRun) (delta : Q) (np1 np2 : Fighter.t) (s : App.t)
  : App.t :=
  match u with
  | AtCall =>
    checkKO np1 np2
      (setP2 (fun _ => np2)
         (setP1 (fun _ => np1) (countdown delta (App.p1 s) (App.p2 s) s)))
  | InRender =>
    countdown delta (App.p1 s) (App.p2 s)
      (checkKO np1 np2 (setP2 (fun _ => np2) (setP1 (fun _ => np1) s)))
  end.

(** ** Hit resolution *)

(** The overlap test of [handleHit]: the attack hitbox against the
    defender's hurtbox as [handleHit] passes it to [rectsOverlap]. *)
Definition hurtRect (defender : Fighter.t) : Rect.t :=
  {| Rect.x := Fighter.x defender - Fighter.width defender / 2;
     Rect.y := Fighter.y defender - Fighter.height defender;
     Rect.width := Fighter.width defender;
     Rect.height := Fighter.height defender |}.

Definition hitConnects (attacker defender : Fighter.t) (type : AttackType) : bool :=
  rectsOverlap (getAttackHitbox attacker type) (hurtRect defender).

(** The tables of the specification: base damage, blocked damage
    [ceil (base * 0.35)] and knockback magnitude per attack type. *)
Definition baseDamage (type : AttackType) : Q :=
  match type with Light => 6 | Heavy => 12 | Special => 18 end.
Definition blockedDamage (type : AttackType) : Q :=
  inject_Z (Qceiling (baseDamage type * 0.35)).
Definition knockback (type : AttackType) : Q :=
  match type with Light => 2.2 | Heavy => 3.2 | Special => 4 end.

(** An airborne attacker next to a grounded, fresh defender. *)
Definition airborneAttacker (type : AttackType) (timer : Q) : Fighter.t :=
  Fighter.set_y 280
    (Fighter.set_attackTimer timer
       (Fighter.set_attackType (Some type)
          (Fighter.set_attacking true (createFighter 240 1 "blue")))).
Definition freshDefender : Fighter.t := createFighter 300 (-1) "amber".

(** ** Round end: knockout and time-up *)

(** Player 1, airborne and mid-attack, next to a grounded Player 2. *)
Definition koScene (hp1 hp2 : Q) : App.t :=
  setP2 (fun _ => Fighter.set_hp hp2 freshDefender)
    (setP1 (fun _ => Fighter.set_hp hp1 (airborneAttacker Light 120)) initialApp).

(** The round winner a time-up declares: decided by hp, none on a tie. *)
Definition winnerByHp (p1 p2 : Fighter.t) (w : option Side) : Prop :=
  (Fighter.hp p1 == Fighter.hp p2 -> w = None)
  /\ (Fighter.hp p2 < Fighter.hp p1 -> w = Some Player1)
  /\ (Fighter.hp p1 < Fighter.hp p2 -> w = Some Player2).


(** A knockout on the last frame of a round: 10 ms left on the clock,
    Player 1, in the air at 5 hp, lands a light attack on Player 2, who
    has 6 hp. *)
Definition lastKOScene : App.t :=
  setTimer (fun _ => 0.01)
    (setP1 (fun f => Fighter.set_onGround false (Fighter.set_vy (-3) f))
       (koScene 5 6)).

(** The frame that takes the round timer to 0 or below. *)
Definition timeUp (delta : Q) (s : App.t) : Prop :=
  0 < delta /\ App.timer s - delta / 1000 <= 0.

(** The winner the KO check names. *)
Definition winnerByKO (np1 np2 : Fighter.t) (w : option Side) : Prop :=
  (w = Some Player2 <-> Fighter.hp np1 <= 0)
  /\ (w = Some Player1 <-> 0 < Fighter.hp np1 /\ Fighter.hp np2 <= 0).

(** ** Attack initiation *)

(** The fighter entering the attack block of a step: block, horizontal
    velocity and jump have been applied. *)
Definition beforeAttacks (k : Keys) (control : Controls.t) (f : Fighter.t) : Fighter.t :=
  jump k control (horizontal k control (blocking k control f)).

(** The rule of the specification, in its words: the intent, cooldown
    stamp, attack duration and cooldown duration of each type, the first
    desired type off cooldown in the order special, heavy, light, and the
    four assignments made for it. *)
Definition wants (k : Keys) (control : Controls.t) (type : AttackType) : bool :=
  pressed k (match type with
             | Light => Controls.light control
             | Heavy => Controls.heavy control
             | Special => Controls.special control
             end).
Definition cooldownOf (type : AttackType) (c : Cooldowns.t) : Q :=
  match type with
  | Light => Cooldowns.light c
  | Heavy => Cooldowns.heavy c
  | Special => Cooldowns.special c
  end.
Definition setCooldown (type : AttackType) (v : Q) (c : Cooldowns.t) : Cooldowns.t :=
  match type with
  | Light => Cooldowns.set_light v c
  | Heavy => Cooldowns.set_heavy v c
  | Special => Cooldowns.set_special v c
  end.
Definition attackDuration (type : AttackType) : Q :=
  match type with Light => 120 | Heavy => 180 | Special => 240 end.
Definition cooldownDuration (type : AttackType) : Q :=
  match type with Light => 350 | Heavy => 700 | Special => 2200 end.

Definition firstReady (k : Keys) (control : Controls.t) (now : Q) (nx : Fighter.t)
  : option AttackType :=
  List.find (fun type => wants k control type
                         && Qleb (cooldownOf type (Fighter.cooldowns nx)) now)
            (Special :: Heavy :: Light :: nil).

Definition attacks_spec (k : Keys) (control : Controls.t) (now : Q) (nx : Fighter.t)
  : Fighter.t :=
  if negb (Fighter.attacking nx) && negb (Fighter.block nx) && Fighter.canAct nx then
    match firstReady k control now nx with
    | Some type =>
      Fighter.set_cooldowns
        (setCooldown type (now + cooldownDuration type) (Fighter.cooldowns nx))
        (Fighter.set_attackTimer (attackDuration type)
           (Fighter.set_attackType (Some type) (Fighter.set_attacking true nx)))
    | None => nx
    end
  else nx.

(** Light pressed at 100 ms while its cooldown runs until 500 ms. *)
Definition coolingFighter : Fighter.t :=
  Fighter.set_cooldowns (Cooldowns.mk 500 0 0) (createFighter 240 1 "blue").

(** ** Attacking and blocking *)

(** The human presses light on the first frame, then releases it and holds
    down on the second. *)
Definition attackThenBlock : App.t :=
  let '(s1, r1) := frame (fun _ => 0) AtCall 16 1000 initialApp
                     (mkRefs {[ "j" := true ]} 0) in
  let r1 := mkRefs (onKeyDown "s" (onKeyUp "j" (keysRef r1))) (draws r1) in
  fst (frame (fun _ => 0) InRender 16 1016 s1 r1).

(** ** Attack timer and attacking flag *)

(** The states of the application: the first render, then frames with any
    keys, clock and random draws, the timer updater run at the call or in
    the render, the two halves of "Next Round" on any render, "Reset
    Match", and the header controls. *)
Inductive Reachable : App.t -> Prop :=
| Reach_init : Reachable initialApp
| Reach_frame rnd u delta now s r :
    Reachable s -> Reachable (fst (frame rnd u delta now s r))
| Reach_click c s : Reachable s -> Reachable (nextRound_click c s)
| Reach_timeout c s : Reachable s -> Reachable (nextRound_timeout c s)
| Reach_reset s : Reachable s -> Reachable (resetMatch s)
| Reach_mode m s : Reachable s -> Reachable (setMode m s)
| Reach_difficulty d s : Reachable s -> Reachable (setDifficulty d s)
| Reach_pause s : Reachable s -> Reachable (setPaused negb s).

Definition attackInv (f : Fighter.t) : Prop :=
  0 < Fighter.attackTimer f <-> Fighter.attacking f = true.

(** ** Next round *)

(** Player 1 knocks Player 2 out in the first round, then "Next Round". *)
Definition afterFirstKO : App.t :=
  fst (frame (fun _ => 0) InRender 16 1000 (koScene 100 6) (mkRefs ∅ 0)).

(** ** The AI's synthetic keys *)

(** One frame against the computer with no key ever pressed, then the mode
    is switched to PvP and a second frame runs, still with no key event. *)
Definition untouchedKeys : Refs := mkRefs ∅ 0.
Definition afterAIFrame : App.t * Refs :=
  frame (fun _ => 0) AtCall 16 1000 initialApp untouchedKeys.
Definition afterPvPFrame : App.t * Refs :=
  frame (fun _ => 0) InRender 16 1016 (setMode PvP (fst afterAIFrame)) (snd afterAIFrame).

(** ** Further notions *)

(** The horizontal reach of an attack, as [getAttackHitbox] tabulates it. *)
Definition reach (type : AttackType) : Q :=
  match type with Light => 42 | Heavy => 56 | Special => 68 end.

(** A fighter of the size [createFighter] gives every fighter. *)
Definition standardSize (f : Fighter.t) : Prop :=
  Fighter.width f = 48 /\ Fighter.height f = 78.

(** Both fighters on their feet, hp above 0, at that size: what every
    reachable state has while its round runs. *)
Definition standing (s : App.t) : Prop :=
  (standardSize (App.p1 s) /\ 0 < Fighter.hp (App.p1 s))
  /\ (standardSize (App.p2 s) /\ 0 < Fighter.hp (App.p2 s)).

(** The attack type a step starts, if any: the attack block found the
    fighter not attacking and left it attacking, with that type. *)
Definition startedType (k : Keys) (control : Controls.t) (now : Q) (f : Fighter.t)
  : option AttackType :=
  let nx := beforeAttacks k control f in
  let started := attacks k control now nx in
  if negb (Fighter.attacking nx) && Fighter.attacking started
  then Fighter.attackType started else None.

(** A fighter on or above the floor whose ground flag tells which. *)
Definition groundInv (f : Fighter.t) : Prop :=
  Fighter.y f <= FLOOR_Y
  /\ (Fighter.onGround f = true <-> Fighter.y f == FLOOR_Y)
  /\ (Fighter.onGround f = true -> Fighter.vy f == 0).

(** The jump key of a control scheme is none of its other keys. *)
Definition upKeyApart (control : Controls.t) : Prop :=
  Controls.up control <> Controls.left control
  /\ Controls.up control <> Controls.right control
  /\ Controls.up control <> Controls.down control
  /\ Controls.up control <> Controls.light control
  /\ Controls.up control <> Controls.heavy control
  /\ Controls.up control <> Controls.special control.

(** Horizontal speed within the bound every reachable fighter keeps. *)
Definition speedBound (f : Fighter.t) : Prop :=
  - (80 # 3) <= Fighter.vx f /\ Fighter.vx f <= 80 # 3.

(** The attack fields agree: a type is set exactly while attacking, and
    the reserved [canAct] gate is open. *)
Definition attackCoherent (f : Fighter.t) : Prop :=
  (Fighter.attacking f = true <-> Fighter.attackType f <> None)
  /\ Fighter.canAct f = true.

(** [matchPoint], as [App] derives it on each render. *)
Definition matchPoint (s : App.t) : bool :=
  ((Fighter.rounds (App.p1 s) =? WIN_ROUNDS - 1)%Z
   || (Fighter.rounds (App.p2 s) =? WIN_ROUNDS - 1)%Z)
  && negb (truthy (App.matchWinner s)).

(** Play by whole actions: frames, "Next Round" with its timeout run to
    the end, "Reset Match" and the header controls. *)
Inductive Played : App.t -> Prop :=
| Play_init : Played initialApp
| Play_frame rnd u delta now s r : Played s -> Played (fst (frame rnd u delta now s r))
| Play_nextRound s : Played s -> Played (nextRound s)
| Play_reset s : Played s -> Played (resetMatch s)
| Play_mode m s : Played s -> Played (setMode m s)
| Play_difficulty d s : Played s -> Played (setDifficulty d s)
| Play_pause s : Played s -> Played (setPaused negb s).

(** The keys of Player 2's control scheme, which the AI writes. *)
Definition isP2Key (key : string) : Prop :=
  key = Controls.left CONTROLS.p2 \/ key = Controls.right CONTROLS.p2
  \/ key = Controls.up CONTROLS.p2 \/ key = Controls.down CONTROLS.p2
  \/ key = Controls.light CONTROLS.p2 \/ key = Controls.heavy CONTROLS.p2
  \/ key = Controls.special CONTROLS.p2.

(** [Q] holds of the result and the cells a computation leaves. *)
Definition wp {A : Type} (m : M A) (Q : A -> Refs -> Prop) (r : Refs) : Prop :=
  Q (fst (m r)) (snd (m r)).

(** The entry of [key] in a key map, named so that a known entry can be
    told from one still to be evaluated. *)
Definition entry (m : Keys) (key : string) : option bool := m !! key.

(** ** The animation loop

    [useAnimationFrame] keeps the time of the last call of [loop] in
    [lastRef] and requests a frame only while its [active] argument
    holds. *)

(** [!paused && !roundOver && !matchWinner], the [active] argument. *)
Definition activeb (s : App.t) : bool :=
  negb (App.paused s) && negb (App.roundOver s) && negb (truthy (App.matchWinner s)).

Module Loop.
Record t : Type := mk { lastRef : Q; app : App.t; refs : Refs }.
End Loop.

(** [loop(time)], with the frame callback of the current render; [now] is
    what [performance.now()] returns inside the callback. *)
Definition loop (rnd : nat -> Q) (u : UpdaterRun) (time now : Q) (l : Loop.t)
  : Loop.t :=
  let delta := time - Loop.lastRef l in
  let '(s, r) := frame rnd u delta now (Loop.app l) (Loop.refs l) in
  Loop.mk time s r.

Inductive Event : Type :=
| AnimationFrame (u : UpdaterRun) (time now : Q)
| PauseClick.

(** An animation frame comes only while the loop is requested; the pause
    button flips [paused] and leaves [lastRef] alone. *)
Definition handle (rnd : nat -> Q) (e : Event) (l : Loop.t) : Loop.t :=
  match e with
  | AnimationFrame u time now =>
    if activeb (Loop.app l) then loop rnd u time now l else l
  | PauseClick =>
    Loop.mk (Loop.lastRef l) (setPaused negb (Loop.app l)) (Loop.refs l)
  end.

Definition run (rnd : nat -> Q) (es : list Event) (l : Loop.t) : Loop.t :=
  fold_left (fun l e => handle rnd e l) es l.

(** The frame times of [es] do not go back, starting from [last]. *)
Fixpoint inOrder (last : Q) (es : list Event) : Prop :=
  match es with
  | [] => True
  | AnimationFrame _ time _ :: es => last <= time /\ inOrder time es
  | PauseClick :: es => inOrder last es
  end.

(** A frame at 16 ms, a pause during which a frame time passes unused,
    and after the pause a frame at 5032 ms. *)
Definition pausedFiveSeconds : list Event :=
  [AnimationFrame AtCall 16 1000; PauseClick; AnimationFrame InRender 2016 3000;
   PauseClick; AnimationFrame InRender 5032 6016].

(** ** The HUD *)

(** [pct] of [HealthBar], the width of the bar in percent. *)
Definition healthPct (hp : Q) : Q := clamp hp 0 100.

(** [isKO], as [App] passes it to [FighterSprite]. *)
Definition isKO (f : Fighter.t) : bool := Qleb (Fighter.hp f) 0.

(** * Properties *)

(** ** Numbers *)

Lemma Qltb_lt a b : Qltb a b = true <-> a < b.
Proof.
  unfold Qltb. rewrite negb_true_iff, <- not_true_iff_false, Qle_bool_iff.
  split; intros H; [apply Qnot_le_lt, H | apply Qlt_not_le, H].
Qed.

Lemma Qltb_ge a b : Qltb a b = false <-> b <= a.
Proof. unfold Qltb. rewrite negb_false_iff. apply Qle_bool_iff. Qed.

Lemma Qleb_le a b : Qleb a b = true <-> a <= b.
Proof. apply Qle_bool_iff. Qed.

Lemma Qleb_gt a b : Qleb a b = false <-> b < a.
Proof.
  unfold Qleb. rewrite <- not_true_iff_false, Qle_bool_iff.
  split; intros H; [apply Qnot_le_lt, H | apply Qlt_not_le, H].
Qed.

Lemma Qeqb_eq a b : Qeqb a b = true <-> a == b.
Proof. apply Qeq_bool_iff. Qed.

(** ** Clamping and field frames *)

Lemma clamp_bounds v lo hi : lo <= hi -> lo <= clamp v lo hi /\ clamp v lo hi <= hi.
Proof.
  intros Hle. unfold clamp. split.
  - apply Q.le_max_l.
  - apply Q.max_lub; [exact Hle | apply Q.le_min_l].
Qed.

Lemma arena_bounds_ordered : 24 <= ARENA_WIDTH - 24.
Proof. unfold ARENA_WIDTH. lra. Qed.

Lemma updateTimers_x delta nx : Fighter.x (updateTimers delta nx) = Fighter.x nx.
Proof. unfold updateTimers. split_ifs. Qed.

Lemma updateTimers_hp delta nx : Fighter.hp (updateTimers delta nx) = Fighter.hp nx.
Proof. unfold updateTimers. split_ifs. Qed.

Lemma updateTimers_block delta nx : Fighter.block (updateTimers delta nx) = Fighter.block nx.
Proof. unfold updateTimers. split_ifs. Qed.

Lemma integrate_x nx :
  Fighter.x (integrate nx) = clamp (Fighter.x nx + Fighter.vx nx) 24 (ARENA_WIDTH - 24).
Proof. unfold integrate. split_ifs. Qed.

Lemma integrate_hp nx : Fighter.hp (integrate nx) = Fighter.hp nx.
Proof. unfold integrate. split_ifs. Qed.

Lemma controlPlayer_hp k delta f control now :
  Fighter.hp (controlPlayer k delta f control now) = Fighter.hp f.
Proof.
  unfold controlPlayer. rewrite updateTimers_hp, integrate_hp.
  unfold attacks, startAttack, jump, horizontal, blocking. split_ifs.
Qed.

Lemma controlPlayer_xInArena k delta f control now :
  xInArena (controlPlayer k delta f control now).
Proof.
  unfold controlPlayer, xInArena. rewrite updateTimers_x, integrate_x.
  apply clamp_bounds, arena_bounds_ordered.
Qed.

Lemma controlPlayer_inBounds k delta f control now :
  hpInRange f -> inBounds (controlPlayer k delta f control now).
Proof.
  intros Hhp. split; [| apply controlPlayer_xInArena].
  unfold hpInRange. rewrite controlPlayer_hp. exact Hhp.
Qed.

Lemma handleHit_x a d : Fighter.x (handleHit a d) = Fighter.x d.
Proof. unfold handleHit. split_ifs. Qed.

Lemma handleHit_hpInRange a d : hpInRange d -> hpInRange (handleHit a d).
Proof.
  intros Hhp. unfold handleHit, hpInRange.
  split_ifs; try exact Hhp; apply clamp_bounds; lra.
Qed.

Lemma handleHit_inBounds a d : inBounds d -> inBounds (handleHit a d).
Proof.
  intros [Hhp Hx]. split; [apply handleHit_hpInRange, Hhp |].
  unfold xInArena. rewrite handleHit_x. exact Hx.
Qed.

Lemma resolveFacing_inBounds p1 p2 :
  inBounds p1 -> inBounds p2 ->
  inBounds (fst (resolveFacing p1 p2)) /\ inBounds (snd (resolveFacing p1 p2)).
Proof. intros H1 H2. split; assumption. Qed.

Lemma separate_inBounds np1 np2 :
  inBounds np1 -> inBounds np2 ->
  inBounds (fst (separate np1 np2)) /\ inBounds (snd (separate np1 np2)).
Proof.
  intros [Hhp1 Hx1] [Hhp2 Hx2]. unfold separate.
  pose proof arena_bounds_ordered as Hord.
  split_ifs; (split; split; simpl; try assumption;
              unfold xInArena; simpl; apply clamp_bounds, Hord).
Qed.

Lemma resolve_inBounds np1 np2 :
  inBounds np1 -> inBounds np2 ->
  inBounds (fst (resolve np1 np2)) /\ inBounds (snd (resolve np1 np2)).
Proof.
  intros H1 H2. unfold resolve.
  destruct (resolveFacing_inBounds np1 np2 H1 H2) as [F1 F2].
  destruct (resolveFacing np1 np2) as [q1 q2]; simpl in F1, F2.
  apply separate_inBounds; repeat apply handleHit_inBounds; assumption.
Qed.

(** ** The AI controller and the frame *)

(** The AI's fighter step reads the frame's key snapshot [k]: the fighter
    it returns is the one the PvP path computes. *)
Lemma fst_bind {A B : Type} (m : M A) (f : A -> M B) (v : B) (r : Refs) :
  (forall a r', fst (f a r') = v) -> fst (bind m f r) = v.
Proof. intros H. unfold bind. destruct (m r) as [a r']. apply H. Qed.

Lemma controlAI_fighter rnd k delta difficulty f enemy now r :
  fst (controlAI rnd k delta difficulty f enemy now r)
  = controlPlayer k delta f CONTROLS.p2 now.
Proof.
  unfold controlAI.
  destruct (Cfg.reactionMs (DIFFICULTY difficulty)) as [minR maxR].
  repeat (lazy zeta; apply fst_bind; intros ? ?).
  reflexivity.
Qed.

Lemma frame_inactive rnd u delta now s r :
  ~ active s -> frame rnd u delta now s r = (s, r).
Proof.
  intros Hn. unfold frame.
  destruct (App.paused s) eqn:Hp; [reflexivity |].
  destruct (App.roundOver s) eqn:Hr; [reflexivity |].
  destruct (App.matchWinner s) as [w |] eqn:Hm; [reflexivity |].
  exfalso. apply Hn. repeat split; assumption.
Qed.

Lemma frame_active rnd u delta now s r :
  active s ->
  fst (frame rnd u delta now s r)
  = let '(np1, np2) := frameFighters (keysRef r) delta now s in
    frameWrites u delta np1 np2 s.
Proof.
  intros (Hp & Hr & Hm). unfold frame, frameFighters, frameWrites.
  rewrite Hp, Hr, Hm. cbv beta iota delta [orb truthy].
  unfold bind at 1. unfold getKeys at 1. cbv beta iota.
  destruct (App.mode s).
  - unfold bind, ret.
    destruct (resolve _ _) as [np1 np2]. destruct u; reflexivity.
  - unfold bind.
    pose proof (controlAI_fighter rnd (keysRef r) delta (App.difficulty s)
                  (App.p2 s) (App.p1 s) now r) as Hai.
    destruct (controlAI _ _ _ _ _ _ _ r) as [np2 r']. cbn [fst] in Hai. subst np2.
    destruct (resolve _ _) as [np1 np2]. destruct u; reflexivity.
Qed.

Lemma checkKO_p1 np1 np2 s : App.p1 (checkKO np1 np2 s) = App.p1 s.
Proof. unfold checkKO. destruct (_ || _); reflexivity. Qed.

Lemma checkKO_p2 np1 np2 s : App.p2 (checkKO np1 np2 s) = App.p2 s.
Proof. unfold checkKO. destruct (_ || _); reflexivity. Qed.

Lemma countdown_p1 delta p1 p2 s : App.p1 (countdown delta p1 p2 s) = App.p1 s.
Proof. unfold countdown. destruct (Qltb 0 delta); [| reflexivity]. cbv zeta.
  destruct (Qleb _ 0); reflexivity. Qed.

Lemma countdown_p2 delta p1 p2 s : App.p2 (countdown delta p1 p2 s) = App.p2 s.
Proof. unfold countdown. destruct (Qltb 0 delta); [| reflexivity]. cbv zeta.
  destruct (Qleb _ 0); reflexivity. Qed.

Lemma frameWrites_p1 u delta np1 np2 s : App.p1 (frameWrites u delta np1 np2 s) = np1.
Proof.
  destruct u; cbn [frameWrites]; rewrite ?countdown_p1, checkKO_p1; reflexivity.
Qed.

Lemma frameWrites_p2 u delta np1 np2 s : App.p2 (frameWrites u delta np1 np2 s) = np2.
Proof.
  destruct u; cbn [frameWrites]; rewrite ?countdown_p2, checkKO_p2; reflexivity.
Qed.

Lemma frame_active_p1 rnd u delta now s r :
  active s ->
  App.p1 (fst (frame rnd u delta now s r)) = fst (frameFighters (keysRef r) delta now s).
Proof.
  intros Ha. rewrite (frame_active _ _ _ _ _ _ Ha).
  destruct (frameFighters _ _ _ _) as [np1 np2]. apply frameWrites_p1.
Qed.

Lemma frame_active_p2 rnd u delta now s r :
  active s ->
  App.p2 (fst (frame rnd u delta now s r)) = snd (frameFighters (keysRef r) delta now s).
Proof.
  intros Ha. rewrite (frame_active _ _ _ _ _ _ Ha).
  destruct (frameFighters _ _ _ _) as [np1 np2]. apply frameWrites_p2.
Qed.

Lemma active_dec s : active s \/ ~ active s.
Proof.
  unfold active.
  destruct (App.paused s), (App.roundOver s), (App.matchWinner s);
    (left; repeat split; reflexivity) || (right; intros (? & ? & ?); discriminate).
Qed.

(** ** Bounds of hp and x *)

(** C3. Starting from fighters with hp in [0,100] and x in
    [24, ARENA_WIDTH - 24], the two fighters a frame leaves in the state
    (after the step, the hits both ways and the separation) have hp in
    [0,100] and x in [24, ARENA_WIDTH - 24], in both modes and for every
    key state, frame time, clock reading and random draw; and so has the
    fighter after each stage on the way: the step, a hit resolution, the
    separation. *)
Theorem frame_keeps_hp_and_x_in_bounds rnd u delta now s r :
  inBounds (App.p1 s) -> inBounds (App.p2 s) ->
  (inBounds (App.p1 (fst (frame rnd u delta now s r)))
   /\ inBounds (App.p2 (fst (frame rnd u delta now s r))))
  /\ (forall k control,
        inBounds (controlPlayer k delta (App.p1 s) control now)
        /\ inBounds (controlPlayer k delta (App.p2 s) control now))
  /\ (forall a d, inBounds d -> inBounds (handleHit a d))
  /\ (forall a b, inBounds a -> inBounds b ->
        inBounds (fst (separate a b)) /\ inBounds (snd (separate a b))).
Proof.
  intros H1 H2. split; [| split; [| split]].
  - destruct (active_dec s) as [Ha | Hn].
    + rewrite (frame_active_p1 _ _ _ _ _ _ Ha), (frame_active_p2 _ _ _ _ _ _ Ha).
      unfold frameFighters.
      apply resolve_inBounds; apply controlPlayer_inBounds; [apply H1 | apply H2].
    + rewrite (frame_inactive _ _ _ _ _ _ Hn). cbn [fst]. split; assumption.
  - intros k control. split; apply controlPlayer_inBounds; [apply H1 | apply H2].
  - apply handleHit_inBounds.
  - apply separate_inBounds.
Qed.

Lemma createFighter_inBounds x facing palette :
  24 <= x -> x <= ARENA_WIDTH - 24 -> inBounds (createFighter x facing palette).
Proof.
  intros Hlo Hhi. unfold inBounds, hpInRange, xInArena. cbn [createFighter Fighter.hp Fighter.x].
  repeat split; try assumption; lra.
Qed.

Lemma initialApp_inBounds : inBounds (App.p1 initialApp) /\ inBounds (App.p2 initialApp).
Proof.
  split; apply createFighter_inBounds; unfold ARENA_WIDTH; lra.
Qed.

Lemma frame_keeps_hp_and_x_in_bounds_witness :
  inBounds (App.p1 (fst (frame (fun _ => 0) AtCall 16 1000 initialApp (mkRefs ∅ 0))))
  /\ inBounds (App.p2 (fst (frame (fun _ => 0) AtCall 16 1000 initialApp (mkRefs ∅ 0)))).
Proof.
  destruct (frame_keeps_hp_and_x_in_bounds (fun _ => 0) AtCall 16 1000 initialApp (mkRefs ∅ 0))
    as [Hframe _].
  - apply initialApp_inBounds.
  - apply initialApp_inBounds.
  - exact Hframe.
Defined.

(** ** Hit resolution *)

Lemma handleHit_inactive_timer a d :
  Fighter.attackTimer a <= 40 -> handleHit a d = d.
Proof.
  intros Ht. unfold handleHit.
  destruct (Fighter.attackType a) as [ty |]; [| reflexivity].
  destruct (Fighter.attacking a); [| reflexivity]. cbn [negb].
  rewrite (proj2 (Qltb_ge 40 (Fighter.attackTimer a)) Ht). reflexivity.
Qed.

(** Two fighters at the same height never hit each other: the hurtbox
    is handed to [rectsOverlap] one body height up, so the hitbox at the
    attacker's waist lies wholly below it. *)
Lemma handleHit_same_level_misses a d :
  Fighter.y a == Fighter.y d ->
  Fighter.height a == 78 -> Fighter.height d == 78 ->
  handleHit a d = d.
Proof.
  intros Hy Ha Hd. unfold handleHit.
  destruct (Fighter.attackType a) as [ty |]; [| reflexivity].
  destruct (negb (Fighter.attacking a)); [reflexivity |].
  destruct (negb (Qltb 40 (Fighter.attackTimer a))); [reflexivity |].
  cbv zeta. unfold rectsOverlap, getAttackHitbox.
  cbn [Rect.x Rect.y Rect.width Rect.height].
  assert (Hbelow : Qltb (Fighter.y d - Fighter.height d)
                     (Fighter.y a - Fighter.height a / 2 - 24) = true).
  { apply Qltb_lt. rewrite Hy, Ha, Hd.
    assert (Hhalf : 78 / 2 == 39) by reflexivity. rewrite Hhalf. lra. }
  rewrite Hbelow, !orb_true_r. reflexivity.
Qed.

(** C9. A hit resolution whose attacker is not attacking, has no attack
    type, or has 40 ms or less left on its attack timer returns the
    defender unchanged: no damage, no flash, no knockback. *)
Theorem handleHit_outside_active_window a d :
  Fighter.attacking a = false \/ Fighter.attackType a = None
  \/ Fighter.attackTimer a <= 40 ->
  handleHit a d = d.
Proof.
  intros [Hna | [Hnt | Ht]].
  - unfold handleHit. rewrite Hna. destruct (Fighter.attackType a); reflexivity.
  - unfold handleHit. rewrite Hnt. reflexivity.
  - apply handleHit_inactive_timer, Ht.
Qed.

Lemma handleHit_outside_active_window_witness :
  hitConnects (airborneAttacker Light 40) freshDefender Light = true
  /\ handleHit (airborneAttacker Light 40) freshDefender = freshDefender.
Proof.
  split; [vm_compute; reflexivity |].
  apply (handleHit_outside_active_window (airborneAttacker Light 40) freshDefender).
  right; right. vm_compute. discriminate.
Defined.

Lemma handleHit_active a d ty :
  Fighter.attacking a = true -> Fighter.attackType a = Some ty ->
  40 < Fighter.attackTimer a -> hitConnects a d ty = true ->
  handleHit a d =
  let dmg := if Fighter.block d
             then inject_Z (Qceiling (baseDamage ty * (1 - BLOCK_REDUCTION)))
             else baseDamage ty in
  let nd := Fighter.set_hp (clamp (Fighter.hp d - dmg) 0 100) d in
  let nd := if Fighter.block d then Fighter.set_blockflash 160 nd
            else Fighter.set_hitflash 160 nd in
  Fighter.set_vx
    (Fighter.vx nd + knockback ty * (if (Fighter.facing a =? 1)%Z then 1 else -1)) nd.
Proof.
  intros Hatt Hty Ht Hov. unfold handleHit. rewrite Hty, Hatt. cbn [negb].
  rewrite (proj2 (Qltb_lt 40 (Fighter.attackTimer a)) Ht). cbn [negb].
  unfold hitConnects, hurtRect, getAttackHitbox in Hov.
  unfold getAttackHitbox. cbn [Rect.x Rect.y Rect.width Rect.height].
  rewrite Hov. destruct ty; reflexivity.
Qed.

Lemma blockedDamage_values :
  blockedDamage Light = 3 /\ blockedDamage Heavy = 5 /\ blockedDamage Special = 7.
Proof. repeat split; vm_compute; reflexivity. Qed.

Lemma blockedDamage_code ty :
  inject_Z (Qceiling (baseDamage ty * (1 - BLOCK_REDUCTION))) = blockedDamage ty.
Proof. destruct ty; vm_compute; reflexivity. Qed.

(** C5. A connecting hit (attacker attacking with type [ty], more than
    40 ms left, hitbox overlapping the hurtbox) takes [baseDamage ty]
    (6, 12, 18) from an unblocking defender and [ceil (baseDamage ty * 0.35)]
    from a blocking one, which is never more; the new hp is that difference
    clamped into [0,100]; blockflash (blocking) or hitflash (not blocking)
    becomes 160 and the other flash is untouched; vx moves by the knockback
    (2.2, 3.2, 4) in the direction the attacker faces. *)
Theorem handleHit_connecting_hit a d ty :
  Fighter.attacking a = true -> Fighter.attackType a = Some ty ->
  40 < Fighter.attackTimer a -> hitConnects a d ty = true ->
  let nd := handleHit a d in
  let dmg := if Fighter.block d then blockedDamage ty else baseDamage ty in
  Fighter.hp nd == clamp (Fighter.hp d - dmg) 0 100
  /\ blockedDamage ty <= baseDamage ty
  /\ (0 <= Fighter.hp nd /\ Fighter.hp nd <= 100)
  /\ (Fighter.block d = true ->
      Fighter.blockflash nd == 160 /\ Fighter.hitflash nd = Fighter.hitflash d)
  /\ (Fighter.block d = false ->
      Fighter.hitflash nd == 160 /\ Fighter.blockflash nd = Fighter.blockflash d)
  /\ Fighter.vx nd
     == Fighter.vx d + knockback ty * (if (Fighter.facing a =? 1)%Z then 1 else -1)
  /\ (Fighter.facing a = 1%Z \/ Fighter.facing a = (-1)%Z ->
      Fighter.vx nd == Fighter.vx d + knockback ty * inject_Z (Fighter.facing a)).
Proof.
  intros Hatt Hty Ht Hov nd dmg. subst nd dmg.
  rewrite (handleHit_active a d ty Hatt Hty Ht Hov), blockedDamage_code.
  cbv zeta.
  assert (Hle : blockedDamage ty <= baseDamage ty).
  { destruct ty; vm_compute; discriminate. }
  split; [destruct (Fighter.block d); reflexivity |].
  split; [exact Hle |].
  split.
  { destruct (Fighter.block d);
      cbn [Fighter.hp Fighter.set_vx Fighter.set_blockflash Fighter.set_hitflash
           Fighter.set_hp];
      apply clamp_bounds; lra. }
  split; [intros Hb; rewrite Hb; split; reflexivity |].
  split; [intros Hb; rewrite Hb; split; reflexivity |].
  split; [destruct (Fighter.block d); reflexivity |].
  intros [Hf | Hf]; rewrite Hf; destruct (Fighter.block d); reflexivity.
Qed.

Lemma handleHit_connecting_hit_witness :
  (let nd := handleHit (airborneAttacker Light 104) freshDefender in
   Fighter.hp nd == 94 /\ Fighter.hitflash nd == 160 /\ Fighter.vx nd == 2.2)
  /\ (let nd := handleHit (airborneAttacker Light 104)
                  (Fighter.set_block true freshDefender) in
      Fighter.hp nd == 97 /\ Fighter.blockflash nd == 160
      /\ Fighter.hitflash nd = 0).
Proof.
  split.
  - destruct (handleHit_connecting_hit (airborneAttacker Light 104) freshDefender Light)
      as (Hhp & _ & _ & _ & Hflash & Hvx & _).
    + reflexivity.
    + reflexivity.
    + vm_compute. reflexivity.
    + vm_compute. reflexivity.
    + cbv zeta. split; [| split].
      * eapply Qeq_trans; [exact Hhp | vm_compute; reflexivity].
      * apply Hflash. reflexivity.
      * eapply Qeq_trans; [exact Hvx | vm_compute; reflexivity].
  - destruct (handleHit_connecting_hit (airborneAttacker Light 104)
                (Fighter.set_block true freshDefender) Light)
      as (Hhp & _ & _ & Hflash & _).
    + reflexivity.
    + reflexivity.
    + vm_compute. reflexivity.
    + vm_compute. reflexivity.
    + cbv zeta. split; [| split].
      * eapply Qeq_trans; [exact Hhp | vm_compute; reflexivity].
      * apply Hflash. reflexivity.
      * apply Hflash. reflexivity.
Defined.

(** ** Round end: knockout and time-up *)

Lemma checkKO_winner np1 np2 s :
  (Fighter.hp np1 <= 0 ->
   App.winnerRound (checkKO np1 np2 s) = Some Player2
   /\ App.roundOver (checkKO np1 np2 s) = true)
  /\ (0 < Fighter.hp np1 -> Fighter.hp np2 <= 0 ->
      App.winnerRound (checkKO np1 np2 s) = Some Player1
      /\ App.roundOver (checkKO np1 np2 s) = true)
  /\ (0 < Fighter.hp np1 -> 0 < Fighter.hp np2 -> checkKO np1 np2 s = s).
Proof.
  unfold checkKO. split; [| split].
  - intros H1. apply Qleb_le in H1. rewrite H1. split; reflexivity.
  - intros H1 H2. apply Qleb_gt in H1. apply Qleb_le in H2. rewrite H1, H2.
    split; reflexivity.
  - intros H1 H2. apply Qleb_gt in H1, H2. rewrite H1, H2. reflexivity.
Qed.

Lemma checkKO_winnerByKO np1 np2 s :
  Fighter.hp np1 <= 0 \/ Fighter.hp np2 <= 0 ->
  App.roundOver (checkKO np1 np2 s) = true
  /\ winnerByKO np1 np2 (App.winnerRound (checkKO np1 np2 s)).
Proof.
  intros HKO. destruct (checkKO_winner np1 np2 s) as (K2 & K1 & _).
  unfold winnerByKO.
  destruct (Qlt_le_dec 0 (Fighter.hp np1)) as [Hpos | Hle].
  - assert (H2 : Fighter.hp np2 <= 0).
    { destruct HKO as [H | H]; [exfalso; lra | exact H]. }
    destruct (K1 Hpos H2) as [Hw Hr].
    split; [exact Hr |]. split.
    + split; [intros Hw2; congruence | intros Hle; exfalso; lra].
    + split; [intros _; split; assumption | intros _; exact Hw].
  - destruct (K2 Hle) as [Hw Hr].
    split; [exact Hr |]. split.
    + split; [intros _; exact Hle | intros _; exact Hw].
    + split; [intros Hw1; congruence | intros [Hpos _]; exfalso; lra].
Qed.

Lemma checkKO_timer np1 np2 s : App.timer (checkKO np1 np2 s) = App.timer s.
Proof. unfold checkKO. destruct (_ || _); reflexivity. Qed.


Lemma countdown_time_up delta p1 p2 s :
  0 < delta -> App.timer s - delta / 1000 <= 0 ->
  App.roundOver (countdown delta p1 p2 s) = true
  /\ App.timer (countdown delta p1 p2 s) = 0
  /\ winnerByHp p1 p2 (App.winnerRound (countdown delta p1 p2 s)).
Proof.
  intros Hd Hz. unfold countdown.
  rewrite (proj2 (Qltb_lt 0 delta) Hd). cbv zeta.
  rewrite (proj2 (Qleb_le (App.timer s - delta / 1000) 0) Hz).
  split; [reflexivity |]. split; [reflexivity |].
  cbn [App.winnerRound setTimer setRoundOver setWinnerRound]. unfold winnerByHp.
  destruct (Qeqb (Fighter.hp p1) (Fighter.hp p2)) eqn:Heq.
  - apply Qeqb_eq in Heq. split; [reflexivity |].
    split; intros Hlt; exfalso; lra.
  - assert (Hne : ~ Fighter.hp p1 == Fighter.hp p2).
    { intros He. apply Qeqb_eq in He. congruence. }
    destruct (Qltb (Fighter.hp p2) (Fighter.hp p1)) eqn:Hlt.
    + apply Qltb_lt in Hlt. split; [intros He; contradiction |].
      split; [reflexivity | intros Hlt'; exfalso; lra].
    + apply Qltb_ge in Hlt. split; [intros He; contradiction |].
      split; [intros Hlt'; exfalso; lra | reflexivity].
Qed.

(** Short of a time-up the countdown writes the timer only. *)
Lemma countdown_running delta p1 p2 s :
  ~ timeUp delta s ->
  App.roundOver (countdown delta p1 p2 s) = App.roundOver s
  /\ App.winnerRound (countdown delta p1 p2 s) = App.winnerRound s.
Proof.
  intros Hn. unfold countdown.
  destruct (Qltb 0 delta) eqn:Hd; [| split; reflexivity].
  cbv zeta.
  destruct (Qleb (App.timer s - delta / 1000) 0) eqn:Hz; [| split; reflexivity].
  exfalso. apply Hn. split; [apply Qltb_lt, Hd | apply Qleb_le, Hz].
Qed.

Lemma countdown_keeps_roundOver delta p1 p2 s :
  App.roundOver s = true -> App.roundOver (countdown delta p1 p2 s) = true.
Proof.
  intros H. unfold countdown. destruct (Qltb 0 delta); [| exact H]. cbv zeta.
  destruct (Qleb _ 0); [reflexivity | exact H].
Qed.

(** The countdown reads the timer only. *)
Lemma countdown_timer_ext delta p1 p2 s t :
  App.timer s = App.timer t ->
  App.timer (countdown delta p1 p2 s) = App.timer (countdown delta p1 p2 t).
Proof.
  intros E. unfold countdown. rewrite E.
  destruct (Qltb 0 delta); [| exact E]. cbv zeta.
  destruct (Qleb _ 0); reflexivity.
Qed.

(** The state a running frame leaves, in terms of its two fighters. *)
Lemma frame_active_state rnd u delta now s r :
  active s ->
  fst (frame rnd u delta now s r)
  = frameWrites u delta (App.p1 (fst (frame rnd u delta now s r)))
      (App.p2 (fst (frame rnd u delta now s r))) s.
Proof.
  intros Ha.
  rewrite (frame_active_p1 _ _ _ _ _ _ Ha), (frame_active_p2 _ _ _ _ _ _ Ha).
  rewrite (frame_active _ _ _ _ _ _ Ha).
  destruct (frameFighters _ _ _ _) as [np1 np2]. reflexivity.
Qed.

Lemma frameWrites_timer u delta np1 np2 s :
  App.timer (frameWrites u delta np1 np2 s)
  = App.timer (countdown delta (App.p1 s) (App.p2 s) s).
Proof.
  destruct u; cbn [frameWrites].
  - rewrite checkKO_timer. reflexivity.
  - apply countdown_timer_ext. rewrite checkKO_timer. reflexivity.
Qed.

Lemma frameWrites_KO u delta np1 np2 s :
  Fighter.hp np1 <= 0 \/ Fighter.hp np2 <= 0 ->
  App.roundOver (frameWrites u delta np1 np2 s) = true.
Proof.
  intros HKO. destruct u; cbn [frameWrites].
  - apply checkKO_winnerByKO, HKO.
  - apply countdown_keeps_roundOver, checkKO_winnerByKO, HKO.
Qed.

(** Without a knockout the frame leaves the round as the countdown
    does, whenever React runs it. *)
Lemma frameWrites_no_KO u delta np1 np2 s :
  0 < Fighter.hp np1 -> 0 < Fighter.hp np2 ->
  App.roundOver (frameWrites u delta np1 np2 s)
  = App.roundOver (countdown delta (App.p1 s) (App.p2 s) s)
  /\ App.winnerRound (frameWrites u delta np1 np2 s)
     = App.winnerRound (countdown delta (App.p1 s) (App.p2 s) s).
Proof.
  intros H1 H2.
  destruct (checkKO_winner np1 np2
              (setP2 (fun _ => np2)
                 (setP1 (fun _ => np1) (countdown delta (App.p1 s) (App.p2 s) s))))
    as (_ & _ & Ka).
  destruct (checkKO_winner np1 np2 (setP2 (fun _ => np2) (setP1 (fun _ => np1) s)))
    as (_ & _ & Kr).
  destruct u; cbn [frameWrites].
  - rewrite (Ka H1 H2). split; reflexivity.
  - rewrite (Kr H1 H2). unfold countdown.
    cbn [App.timer setP1 setP2].
    destruct (Qltb 0 delta); [| split; reflexivity]. cbv zeta.
    destruct (Qleb _ 0); split; reflexivity.
Qed.

(** *** No double knockout *)









(** *** The winner of a knockout frame *)

(** C10, as the code runs. On a running frame that leaves a fighter with
    hp <= 0 the round ends.  The KO check looks at Player 1's hp first:
    it names Player 2 exactly when Player 1's hp is <= 0 and Player 1
    exactly when Player 1's hp is positive (so that it is Player 2's that is
    <= 0).  That is the round winner when the frame is not also a time-up,
    and on a time-up when React runs the timer updater at the call.  When
    React runs the updater in the render, its writes land after the KO
    check's: on a time-up the winner is the one the updater names, by the
    hp the two fighters had before the frame, and the fighter knocked out
    wins the round when it had more hp before. *)
Theorem frame_KO_winner_by_updater_run rnd u delta now s r :
  active s ->
  let s' := fst (frame rnd u delta now s r) in
  Fighter.hp (App.p1 s') <= 0 \/ Fighter.hp (App.p2 s') <= 0 ->
  App.roundOver s' = true
  /\ (u = AtCall \/ ~ timeUp delta s ->
      winnerByKO (App.p1 s') (App.p2 s') (App.winnerRound s'))
  /\ (u = InRender -> timeUp delta s ->
      winnerByHp (App.p1 s) (App.p2 s) (App.winnerRound s')).
Proof.
  intros Ha s' HKO.
  pose proof (frame_active_state rnd u delta now s r Ha) as Hs. fold s' in Hs.
  remember (App.p1 s') as np1 eqn:E1. remember (App.p2 s') as np2 eqn:E2.
  split; [rewrite Hs; apply frameWrites_KO, HKO |].
  split.
  - intros Hcase. rewrite Hs. destruct u; cbn [frameWrites].
    + apply checkKO_winnerByKO, HKO.
    + destruct Hcase as [Hu | Hn]; [discriminate Hu |].
      destruct (countdown_running delta (App.p1 s) (App.p2 s)
                  (checkKO np1 np2 (setP2 (fun _ => np2) (setP1 (fun _ => np1) s))))
        as [_ Hw].
      { unfold timeUp in *. rewrite checkKO_timer. exact Hn. }
      rewrite Hw. apply checkKO_winnerByKO, HKO.
  - intros Hu [Hd Hz]. subst u. rewrite Hs. cbn [frameWrites].
    apply countdown_time_up; [exact Hd |].
    rewrite checkKO_timer. exact Hz.
Qed.

Lemma frame_KO_winner_by_updater_run_witness :
  let s' := fst (frame (fun _ => 0) InRender 16 1000 lastKOScene (mkRefs ∅ 0)) in
  (Fighter.hp (App.p1 s') == 5 /\ Fighter.hp (App.p2 s') == 0)
  /\ App.roundOver s' = true
  /\ App.winnerRound s' = Some Player2
  /\ App.winnerRound (fst (frame (fun _ => 0) AtCall 16 1000 lastKOScene (mkRefs ∅ 0)))
     = Some Player1
  /\ App.winnerRound (fst (frame (fun _ => 0) InRender 16 1000 (koScene 5 6) (mkRefs ∅ 0)))
     = Some Player1.
Proof.
  assert (Ha : active lastKOScene) by (repeat split; reflexivity).
  assert (Hb : active (koScene 5 6)) by (repeat split; reflexivity).
  assert (Ht : timeUp 16 lastKOScene) by (split; vm_compute; [reflexivity | discriminate]).
  pose proof (frame_KO_winner_by_updater_run (fun _ => 0) InRender 16 1000 lastKOScene
                (mkRefs ∅ 0) Ha) as Hlate.
  pose proof (frame_KO_winner_by_updater_run (fun _ => 0) AtCall 16 1000 lastKOScene
                (mkRefs ∅ 0) Ha) as Hcall.
  pose proof (frame_KO_winner_by_updater_run (fun _ => 0) InRender 16 1000 (koScene 5 6)
                (mkRefs ∅ 0) Hb) as Hrun.
  cbv zeta in Hlate, Hcall, Hrun.
  feed Hlate ltac:(right; vm_compute; discriminate).
  feed Hcall ltac:(right; vm_compute; discriminate).
  feed Hrun ltac:(right; vm_compute; discriminate).
  destruct Hlate as (Hr & _ & Hlate). destruct (Hlate eq_refl Ht) as (_ & _ & Hlate2).
  destruct Hcall as (_ & Hcall & _). destruct (Hcall (or_introl eq_refl)) as [_ Hcall1].
  destruct Hrun as (_ & Hrun & _).
  feed Hrun ltac:(right; intros [_ Hz]; vm_compute in Hz; apply Hz; reflexivity).
  destruct Hrun as [_ Hrun1].
  split; [split; vm_compute; reflexivity |].
  split; [exact Hr |].
  split; [apply Hlate2; vm_compute; reflexivity |].
  split.
  - apply Hcall1. split; vm_compute; [reflexivity | discriminate].
  - apply Hrun1. split; vm_compute; [reflexivity | discriminate].
Defined.

(** *** The winner of a time-up frame *)



(** ** Attack initiation *)

Lemma controlPlayer_phases k delta f control now :
  controlPlayer k delta f control now
  = updateTimers delta (integrate (attacks k control now (beforeAttacks k control f))).
Proof. reflexivity. Qed.

Lemma beforeAttacks_fields k control f :
  Fighter.attacking (beforeAttacks k control f) = Fighter.attacking f
  /\ Fighter.block (beforeAttacks k control f) = pressed k (Controls.down control)
  /\ Fighter.canAct (beforeAttacks k control f) = Fighter.canAct f
  /\ Fighter.cooldowns (beforeAttacks k control f) = Fighter.cooldowns f
  /\ Fighter.attackTimer (beforeAttacks k control f) = Fighter.attackTimer f
  /\ Fighter.attackType (beforeAttacks k control f) = Fighter.attackType f.
Proof.
  unfold beforeAttacks, jump, horizontal, blocking.
  repeat split; split_ifs.
Qed.

Lemma attacks_refines_spec k control now nx :
  attacks k control now nx = attacks_spec k control now nx.
Proof.
  unfold attacks, attacks_spec, firstReady, wants, cooldownOf, startAttack.
  destruct (negb (Fighter.attacking nx) && negb (Fighter.block nx) && Fighter.canAct nx);
    [| reflexivity].
  cbn [List.find].
  destruct (pressed k (Controls.special control)
            && Qleb (Cooldowns.special (Fighter.cooldowns nx)) now); [reflexivity |].
  destruct (pressed k (Controls.heavy control)
            && Qleb (Cooldowns.heavy (Fighter.cooldowns nx)) now); [reflexivity |].
  destruct (pressed k (Controls.light control)
            && Qleb (Cooldowns.light (Fighter.cooldowns nx)) now); reflexivity.
Qed.

Lemma firstReady_ready k control now nx ty :
  firstReady k control now nx = Some ty ->
  wants k control ty = true /\ cooldownOf ty (Fighter.cooldowns nx) <= now.
Proof.
  intros H. unfold firstReady in H. apply List.find_some in H as [_ H].
  apply andb_true_iff in H as [Hw Hc]. split; [exact Hw | apply Qleb_le, Hc].
Qed.

Lemma firstReady_on_cooldown k control now nx ty :
  now < cooldownOf ty (Fighter.cooldowns nx) -> firstReady k control now nx <> Some ty.
Proof.
  intros Hlt Hf. apply firstReady_ready in Hf as [_ Hle]. lra.
Qed.

(** What the attack block leaves of the attack state. *)
Lemma attacks_spec_cases k control now nx :
  (attacks_spec k control now nx = nx)
  \/ (Fighter.attacking nx = false /\ Fighter.block nx = false
      /\ Fighter.canAct nx = true
      /\ exists ty, firstReady k control now nx = Some ty
         /\ attacks_spec k control now nx
            = Fighter.set_cooldowns
                (setCooldown ty (now + cooldownDuration ty) (Fighter.cooldowns nx))
                (Fighter.set_attackTimer (attackDuration ty)
                   (Fighter.set_attackType (Some ty)
                      (Fighter.set_attacking true nx)))).
Proof.
  unfold attacks_spec.
  destruct (Fighter.attacking nx); [left; reflexivity |].
  destruct (Fighter.block nx); [left; reflexivity |].
  destruct (Fighter.canAct nx); [| left; reflexivity].
  cbn [negb andb].
  destruct (firstReady k control now nx) as [ty |]; [| left; reflexivity].
  right. repeat split. exists ty. split; reflexivity.
Qed.

Lemma setCooldown_other ty ty' v c :
  ty <> ty' -> cooldownOf ty (setCooldown ty' v c) = cooldownOf ty c.
Proof. intros Hne. destruct ty, ty'; try reflexivity; contradiction. Qed.

Lemma setCooldown_same ty v c : cooldownOf ty (setCooldown ty v c) = v.
Proof. destruct ty; reflexivity. Qed.

Lemma updateTimers_cooldowns delta nx :
  Fighter.cooldowns (updateTimers delta nx) = Fighter.cooldowns nx.
Proof. unfold updateTimers. split_ifs. Qed.

Lemma integrate_attack_fields nx :
  Fighter.cooldowns (integrate nx) = Fighter.cooldowns nx
  /\ Fighter.attacking (integrate nx) = Fighter.attacking nx
  /\ Fighter.attackType (integrate nx) = Fighter.attackType nx
  /\ Fighter.attackTimer (integrate nx) = Fighter.attackTimer nx
  /\ Fighter.block (integrate nx) = Fighter.block nx.
Proof. unfold integrate. repeat split; split_ifs. Qed.

Lemma updateTimers_attack delta nx :
  (Fighter.attacking (updateTimers delta nx) = true ->
   Fighter.attacking nx = true
   /\ Fighter.attackType (updateTimers delta nx) = Fighter.attackType nx
   /\ Fighter.attackTimer (updateTimers delta nx) = Fighter.attackTimer nx - delta
   /\ 0 < Fighter.attackTimer nx - delta)
  /\ (Fighter.attacking nx = false ->
      Fighter.attacking (updateTimers delta nx) = false
      /\ Fighter.attackTimer (updateTimers delta nx) = Fighter.attackTimer nx)
  /\ (Fighter.attacking nx = true -> Fighter.attacking (updateTimers delta nx) = false ->
      Fighter.attackTimer (updateTimers delta nx) <= 0).
Proof.
  unfold updateTimers.
  set (n1 := if Qltb 0 (Fighter.hitflash nx)
             then Fighter.set_hitflash (Fighter.hitflash nx - delta) nx else nx).
  set (n2 := if Qltb 0 (Fighter.blockflash n1)
             then Fighter.set_blockflash (Fighter.blockflash n1 - delta) n1 else n1).
  assert (Ha : Fighter.attacking n2 = Fighter.attacking nx).
  { subst n2 n1. split_ifs. }
  assert (Ht : Fighter.attackTimer n2 = Fighter.attackTimer nx).
  { subst n2 n1. split_ifs. }
  assert (Hy : Fighter.attackType n2 = Fighter.attackType nx).
  { subst n2 n1. split_ifs. }
  clearbody n2. clear n1. rewrite <- Ha, <- Ht, <- Hy.
  destruct (Fighter.attacking n2) eqn:Hatt.
  - cbn [Fighter.attackTimer Fighter.set_attackTimer].
    destruct (Qleb (Fighter.attackTimer n2 - delta) 0) eqn:Hz.
    + cbn. split; [intros Hd; discriminate |]. split; [intros Hd; discriminate |].
      intros _ _. apply Qleb_le, Hz.
    + cbn. rewrite Hatt. split; [| split]; [| intros Hd; discriminate
                                             | intros _ Hd; discriminate].
      intros _. repeat split. apply Qleb_gt, Hz.
  - rewrite Hatt. split; [intros Hd; discriminate |].
    split; [intros _; split; reflexivity | intros Hd; discriminate].
Qed.

(** C4. The attack block of a step is the rule of the specification: it
    acts only when the fighter is not attacking, not blocking (the down
    intent of this frame) and [canAct]; it takes the first of special,
    heavy, light that is desired and whose cooldown stamp is [<= now], sets
    [attacking], the type, the duration 240 / 180 / 120 and that type's
    cooldown to [now] + 2200 / 700 / 350.  A type whose cooldown stamp
    exceeds [now] is never the one started: its stamp is unchanged by the
    step, and a fighter that was idle does not come out attacking with it. *)
Theorem attack_initiation_rule k delta f control now :
  let nx := beforeAttacks k control f in
  let f' := controlPlayer k delta f control now in
  f' = updateTimers delta (integrate (attacks k control now nx))
  /\ attacks k control now nx = attacks_spec k control now nx
  /\ (Fighter.attacking nx = Fighter.attacking f
      /\ Fighter.block nx = pressed k (Controls.down control)
      /\ Fighter.canAct nx = Fighter.canAct f
      /\ Fighter.cooldowns nx = Fighter.cooldowns f)
  /\ forall ty,
       now < cooldownOf ty (Fighter.cooldowns f) ->
       firstReady k control now nx <> Some ty
       /\ cooldownOf ty (Fighter.cooldowns f') = cooldownOf ty (Fighter.cooldowns f)
       /\ (Fighter.attacking f = false ->
           ~ (Fighter.attacking f' = true /\ Fighter.attackType f' = Some ty)).
Proof.
  intros nx f'.
  destruct (beforeAttacks_fields k control f) as (Hatt & Hblk & Hcan & Hcd & _ & _).
  fold nx in Hatt, Hblk, Hcan, Hcd.
  split; [reflexivity |]. split; [apply attacks_refines_spec |].
  split; [repeat split; assumption |].
  intros ty Hlt.
  assert (Hnot : firstReady k control now nx <> Some ty).
  { apply firstReady_on_cooldown. rewrite Hcd. exact Hlt. }
  split; [exact Hnot |].
  assert (Ef' : f' = updateTimers delta (integrate (attacks_spec k control now nx))).
  { unfold f'. rewrite controlPlayer_phases. fold nx.
    rewrite attacks_refines_spec. reflexivity. }
  destruct (integrate_attack_fields (attacks_spec k control now nx))
    as (Icd & Iatt & Ity & _ & _).
  split.
  - rewrite Ef', updateTimers_cooldowns, Icd.
    destruct (attacks_spec_cases k control now nx)
      as [Hsame | (_ & _ & _ & ty' & Hfirst & Hstart)].
    + rewrite Hsame, Hcd. reflexivity.
    + rewrite Hstart. cbn [Fighter.cooldowns Fighter.set_cooldowns].
      rewrite setCooldown_other, Hcd; [reflexivity | congruence].
  - intros Hidle [Ha Hty]. rewrite Ef' in Ha, Hty.
    destruct (updateTimers_attack delta (integrate (attacks_spec k control now nx)))
      as (Hon & _ & _).
    destruct (Hon Ha) as (Ha' & Hty' & _ & _).
    rewrite Hty', Ity in Hty. rewrite Iatt in Ha'.
    destruct (attacks_spec_cases k control now nx)
      as [Hsame | (_ & _ & _ & ty' & Hfirst & Hstart)].
    + rewrite Hsame, Hatt, Hidle in Ha'. discriminate.
    + rewrite Hstart in Hty. cbn in Hty. congruence.
Qed.

Lemma attack_initiation_rule_witness :
  let f' := controlPlayer {[ "j" := true ]} 16 coolingFighter CONTROLS.p1 100 in
  100 < cooldownOf Light (Fighter.cooldowns coolingFighter)
  /\ wants {[ "j" := true ]} CONTROLS.p1 Light = true
  /\ cooldownOf Light (Fighter.cooldowns f') = 500
  /\ ~ (Fighter.attacking f' = true /\ Fighter.attackType f' = Some Light).
Proof.
  assert (Hlt : 100 < cooldownOf Light (Fighter.cooldowns coolingFighter)).
  { vm_compute. reflexivity. }
  destruct (attack_initiation_rule {[ "j" := true ]} 16 coolingFighter CONTROLS.p1 100)
    as (_ & _ & _ & Hrule).
  destruct (Hrule Light Hlt) as (_ & Hcd & Hidle).
  cbv zeta. split; [exact Hlt |]. split; [vm_compute; reflexivity |].
  split; [exact Hcd |]. apply Hidle. reflexivity.
Defined.

(** ** Attacking and blocking *)

Lemma controlPlayer_block k delta f control now :
  Fighter.block (controlPlayer k delta f control now) = pressed k (Controls.down control).
Proof.
  rewrite controlPlayer_phases, updateTimers_block.
  destruct (integrate_attack_fields (attacks k control now (beforeAttacks k control f)))
    as (_ & _ & _ & _ & Hb).
  rewrite Hb, attacks_refines_spec.
  destruct (beforeAttacks_fields k control f) as (_ & Hblk & _).
  destruct (attacks_spec_cases k control now (beforeAttacks k control f))
    as [Hsame | (_ & _ & _ & ty & _ & Hstart)].
  - rewrite Hsame. exact Hblk.
  - rewrite Hstart. exact Hblk.
Qed.

(** C2, as amended. A step of a fighter that was not attacking never
    leaves it both attacking and blocking: [block] is the down intent of
    the frame and no attack starts while it is set.  (A fighter already
    attacking is not covered: its attack runs on while [block] follows the
    down key.) *)
Theorem step_starts_no_attack_while_blocking k delta f control now :
  Fighter.attacking f = false ->
  let f' := controlPlayer k delta f control now in
  Fighter.block f' = pressed k (Controls.down control)
  /\ ~ (Fighter.attacking f' = true /\ Fighter.block f' = true).
Proof.
  intros Hidle f'. split; [apply controlPlayer_block |].
  intros [Ha Hb]. unfold f' in Ha, Hb.
  rewrite controlPlayer_block in Hb.
  rewrite controlPlayer_phases, attacks_refines_spec in Ha.
  destruct (updateTimers_attack delta
              (integrate (attacks_spec k control now (beforeAttacks k control f))))
    as (Hon & _ & _).
  destruct (Hon Ha) as (Ha' & _).
  destruct (integrate_attack_fields
              (attacks_spec k control now (beforeAttacks k control f)))
    as (_ & Iatt & _).
  rewrite Iatt in Ha'.
  destruct (beforeAttacks_fields k control f) as (Hatt & Hblk & _).
  destruct (attacks_spec_cases k control now (beforeAttacks k control f))
    as [Hsame | (_ & Hnb & _)].
  - rewrite Hsame, Hatt, Hidle in Ha'. discriminate.
  - rewrite Hblk, Hb in Hnb. discriminate.
Qed.

Lemma step_starts_no_attack_while_blocking_witness :
  let f' := controlPlayer {[ "s" := true; "j" := true ]} 16
              (createFighter 240 1 "blue") CONTROLS.p1 1000 in
  Fighter.block f' = true
  /\ ~ (Fighter.attacking f' = true /\ Fighter.block f' = true).
Proof.
  destruct (step_starts_no_attack_while_blocking {[ "s" := true; "j" := true ]} 16
              (createFighter 240 1 "blue") CONTROLS.p1 1000) as [Hb Hno].
  - reflexivity.
  - cbv zeta. split; [rewrite Hb; vm_compute; reflexivity | exact Hno].
Defined.

(** C2, counterexample. Two steps from a fresh fighter, light then down,
    leave it attacking and blocking at once; so do the same two frames from
    the initial state of the application. *)
Lemma step_attacking_and_block_counterexample :
  (let f1 := controlPlayer {[ "j" := true ]} 16 (createFighter 240 1 "blue")
               CONTROLS.p1 1000 in
   let f2 := controlPlayer {[ "s" := true ]} 16 f1 CONTROLS.p1 1016 in
   Fighter.attacking f2 = true /\ Fighter.block f2 = true)
  /\ (Fighter.attacking (App.p1 attackThenBlock) = true
      /\ Fighter.block (App.p1 attackThenBlock) = true).
Proof. repeat split; vm_compute; reflexivity. Qed.

(** ** Attack timer and attacking flag *)

Lemma attackInv_fields f g :
  Fighter.attacking g = Fighter.attacking f ->
  Fighter.attackTimer g = Fighter.attackTimer f ->
  attackInv f -> attackInv g.
Proof. unfold attackInv. intros Ha Ht H. rewrite Ha, Ht. exact H. Qed.

Lemma createFighter_attackInv x facing palette : attackInv (createFighter x facing palette).
Proof.
  unfold attackInv. cbn [createFighter Fighter.attackTimer Fighter.attacking].
  split; [intros H; exfalso; lra | intros H; discriminate].
Qed.

Lemma controlPlayer_attackInv k delta f control now :
  (Fighter.attacking f = false -> Fighter.attackTimer f <= 0) ->
  attackInv (controlPlayer k delta f control now).
Proof.
  intros Hidle. rewrite controlPlayer_phases, attacks_refines_spec.
  set (a := attacks_spec k control now (beforeAttacks k control f)).
  set (m := integrate a).
  assert (Iatt : Fighter.attacking m = Fighter.attacking a)
    by apply integrate_attack_fields.
  assert (Itm : Fighter.attackTimer m = Fighter.attackTimer a)
    by apply integrate_attack_fields.
  pose proof (updateTimers_attack delta m) as (Hon & Hoff & Hend).
  unfold attackInv. split.
  - intros Hpos.
    destruct (bool_dec (Fighter.attacking (updateTimers delta m)) true) as [E | E];
      [exact E |].
    apply not_true_is_false in E. exfalso.
    destruct (bool_dec (Fighter.attacking m) true) as [Em | Em].
    + pose proof (Hend Em E) as Hle. lra.
    + apply not_true_is_false in Em. destruct (Hoff Em) as [_ Ht].
      rewrite Ht, Itm in Hpos. rewrite Iatt in Em.
      destruct (beforeAttacks_fields k control f) as (Hatt & _ & _ & _ & Htm & _).
      destruct (attacks_spec_cases k control now (beforeAttacks k control f))
        as [Hsame | (_ & _ & _ & ty & _ & Hstart)].
      * unfold a in Em, Hpos. rewrite Hsame in Em, Hpos.
        rewrite Hatt in Em. rewrite Htm in Hpos.
        pose proof (Hidle Em) as Hle. lra.
      * unfold a in Em. rewrite Hstart in Em. discriminate.
  - intros Hatt. destruct (Hon Hatt) as (_ & _ & Ht & Hp). rewrite Ht. exact Hp.
Qed.

Lemma handleHit_attack_fields a d :
  Fighter.attacking (handleHit a d) = Fighter.attacking d
  /\ Fighter.attackTimer (handleHit a d) = Fighter.attackTimer d.
Proof. unfold handleHit. split; split_ifs. Qed.

Lemma separate_attack_fields a b :
  (Fighter.attacking (fst (separate a b)) = Fighter.attacking a
   /\ Fighter.attackTimer (fst (separate a b)) = Fighter.attackTimer a)
  /\ (Fighter.attacking (snd (separate a b)) = Fighter.attacking b
      /\ Fighter.attackTimer (snd (separate a b)) = Fighter.attackTimer b).
Proof. unfold separate. repeat split; split_ifs. Qed.

Lemma resolve_attackInv a b :
  attackInv a -> attackInv b ->
  attackInv (fst (resolve a b)) /\ attackInv (snd (resolve a b)).
Proof.
  intros Ha Hb. unfold resolve, resolveFacing.
  set (q1 := Fighter.set_facing _ a). set (q2 := Fighter.set_facing _ b).
  destruct (separate_attack_fields (handleHit (handleHit q1 q2) q1) (handleHit q1 q2))
    as ((S1 & S2) & (S3 & S4)).
  destruct (handleHit_attack_fields (handleHit q1 q2) q1) as (H1 & H2).
  destruct (handleHit_attack_fields q1 q2) as (H3 & H4).
  split.
  - apply (attackInv_fields a); [rewrite S1, H1 | rewrite S2, H2 | exact Ha]; reflexivity.
  - apply (attackInv_fields b); [rewrite S3, H3 | rewrite S4, H4 | exact Hb]; reflexivity.
Qed.

Lemma attackInv_idle f :
  attackInv f -> Fighter.attacking f = false -> Fighter.attackTimer f <= 0.
Proof.
  unfold attackInv. intros [H _] Hidle. apply Qnot_lt_le. intros Hpos.
  rewrite (H Hpos) in Hidle. discriminate.
Qed.

Lemma Reachable_attackInv s :
  Reachable s -> attackInv (App.p1 s) /\ attackInv (App.p2 s).
Proof.
  induction 1 as [| rnd u delta now s r Hs [I1 I2] | c s Hs [I1 I2] | c s Hs [I1 I2]
                  | s Hs [I1 I2] | m s Hs IH | d s Hs IH | s Hs IH].
  - split; apply createFighter_attackInv.
  - destruct (active_dec s) as [Ha | Hn].
    + rewrite (frame_active_p1 _ _ _ _ _ _ Ha), (frame_active_p2 _ _ _ _ _ _ Ha).
      unfold frameFighters.
      apply resolve_attackInv; apply controlPlayer_attackInv, attackInv_idle; assumption.
    + rewrite (frame_inactive _ _ _ _ _ _ Hn). split; assumption.
  - unfold nextRound_click. destruct (App.winnerRound c) as [[|] |]; split; assumption.
  - split; apply createFighter_attackInv.
  - split; apply createFighter_attackInv.
  - exact IH.
  - exact IH.
  - exact IH.
Qed.

(** C7. In every reachable state of the application both fighters have
    [attackTimer > 0] exactly when [attacking] is true, and so has the
    fighter any step makes of either of them: in particular no step leaves
    a fighter attacking with [attackTimer <= 0]. *)
Theorem step_attackTimer_positive_iff_attacking s k delta control now :
  Reachable s ->
  (attackInv (App.p1 s) /\ attackInv (App.p2 s))
  /\ forall f, f = App.p1 s \/ f = App.p2 s ->
       let f' := controlPlayer k delta f control now in
       (0 < Fighter.attackTimer f' <-> Fighter.attacking f' = true)
       /\ ~ (Fighter.attacking f' = true /\ Fighter.attackTimer f' <= 0).
Proof.
  intros Hs. pose proof (Reachable_attackInv s Hs) as [I1 I2].
  split; [split; assumption |].
  intros f Hf f'.
  assert (Hinv : attackInv f') by
    (apply controlPlayer_attackInv, attackInv_idle; destruct Hf; subst f; assumption).
  split; [exact Hinv |].
  intros [Ha Hle]. apply Hinv in Ha. lra.
Qed.

Lemma step_attackTimer_positive_iff_attacking_witness :
  let f' := controlPlayer {[ "j" := true ]} 16 (App.p1 initialApp) CONTROLS.p1 1000 in
  (0 < Fighter.attackTimer f' <-> Fighter.attacking f' = true)
  /\ Fighter.attacking f' = true.
Proof.
  destruct (step_attackTimer_positive_iff_attacking initialApp {[ "j" := true ]} 16
              CONTROLS.p1 1000 Reach_init) as [_ Hstep].
  destruct (Hstep (App.p1 initialApp) (or_introl eq_refl)) as [Hiff _].
  cbv zeta. split; [exact Hiff | vm_compute; reflexivity].
Defined.

(** ** Next round *)

(** What "Next Round" does reset: both fighters are fresh up to their
    round counts, the timer is back at [ROUND_TIME], and [roundOver] and the
    round winner are cleared. *)
Lemma nextRound_resets s :
  App.p1 (nextRound s)
  = Fighter.set_rounds (Fighter.rounds (App.p1 (nextRound s)))
      (createFighter (ARENA_WIDTH * 0.25) 1 "blue")
  /\ App.p2 (nextRound s)
     = Fighter.set_rounds (Fighter.rounds (App.p2 (nextRound s)))
         (createFighter (ARENA_WIDTH * 0.75) (-1) "amber")
  /\ App.timer (nextRound s) = ROUND_TIME
  /\ App.roundOver (nextRound s) = false
  /\ App.winnerRound (nextRound s) = None.
Proof. repeat split. Qed.

(** C1, as the code runs. Whoever won the round, "Next Round" leaves
    Player 1 with 0 rounds (the fresh fighter replaces the incremented one
    and nothing restores the count), and leaves Player 2 with its count
    plus 2 when Player 2 won the round (incremented by the click and again
    by the timeout), unchanged otherwise. *)
Theorem nextRound_round_counts s :
  Fighter.rounds (App.p1 (nextRound s)) = 0%Z
  /\ Fighter.rounds (App.p2 (nextRound s))
     = (Fighter.rounds (App.p2 s)
        + match App.winnerRound s with Some Player2 => 2 | _ => 0 end)%Z.
Proof.
  unfold nextRound, nextRound_timeout, nextRound_click.
  destruct (App.winnerRound s) as [[|] |];
    cbn [App.p1 App.p2 setP1 setP2 setTimer setRoundOver setWinnerRound setMatchWinner
         Fighter.rounds Fighter.set_rounds createFighter];
    split; reflexivity || lia.
Qed.

Lemma nextRound_drops_player1_win :
  App.winnerRound afterFirstKO = Some Player1
  /\ Fighter.rounds (App.p1 afterFirstKO) = 0%Z
  /\ Fighter.rounds (App.p1 (nextRound afterFirstKO)) = 0%Z
  /\ Fighter.rounds (App.p1 (nextRound_click afterFirstKO afterFirstKO)) = 1%Z.
Proof. repeat split; vm_compute; reflexivity. Qed.

(** ** The AI's synthetic keys *)

(** C6, as the code runs. After a frame in PvAI mode [keysRef.current] is
    the object the AI has built: with no key event at all it holds the
    seven Player 2 keys, ArrowLeft pressed.  The frame that built it moved
    Player 2 by the old snapshot (not at all); the next frame, here in PvP
    mode with the keyboard still untouched, reads ArrowLeft as pressed and
    drives Player 2 to the left. *)
Theorem controlAI_keys_outlive_the_frame :
  keysRef untouchedKeys = ∅
  /\ map_to_list (keysRef (snd afterAIFrame))
     = [("ArrowUp", false); ("ArrowRight", false); ("ArrowLeft", true);
        ("ArrowDown", false); ("Numpad3", false); ("Numpad1", false);
        ("Numpad2", false)]
  /\ pressed (keysRef (snd afterAIFrame)) "ArrowLeft" = true
  /\ Fighter.vx (App.p2 (fst afterAIFrame)) == 0
  /\ Fighter.vx (App.p2 (fst afterPvPFrame)) == -0.8
  /\ Fighter.x (App.p2 (fst afterPvPFrame)) < Fighter.x (App.p2 (fst afterAIFrame)).
Proof. repeat split; vm_compute; reflexivity. Qed.

(** A key the human holds for Player 2 is overwritten by the AI's frame:
    ArrowUp is down before the frame and reads as released after it,
    although no [keyup] event occurred. *)
Lemma controlAI_overwrites_human_key :
  let r := mkRefs (onKeyDown "ArrowUp" ∅) 0 in
  pressed (keysRef r) "ArrowUp" = true
  /\ pressed (keysRef (snd (frame (fun _ => 0) AtCall 16 1000 initialApp r))) "ArrowUp" = false.
Proof. split; vm_compute; reflexivity. Qed.

(** * Further properties of the code *)

(** ** Rectangles and clamping *)

Lemma clamp_cases v lo hi :
  (v <= hi /\ lo <= v /\ clamp v lo hi == v)
  \/ (v <= hi /\ v < lo /\ clamp v lo hi == lo)
  \/ (hi < v /\ lo <= hi /\ clamp v lo hi == hi)
  \/ (hi < v /\ hi < lo /\ clamp v lo hi == lo).
Proof.
  unfold clamp.
  pose proof (Q.min_spec hi v) as Hmin.
  pose proof (Q.max_spec lo (Qmin hi v)) as Hmax.
  revert Hmin Hmax. generalize (Qmax lo (Qmin hi v)). generalize (Qmin hi v).
  intros m M Hmin Hmax.
  destruct (Qlt_le_dec hi v), (Qlt_le_dec v lo), (Qlt_le_dec hi lo); lra.
Qed.

(** X1. [rectsOverlap] does not depend on the order of its arguments, and
    it holds exactly when the two horizontal extents [x, x + width] and the
    two vertical extents [y - height, y] meet, edges included. *)
Theorem rectsOverlap_symmetric_closed a b :
  rectsOverlap a b = rectsOverlap b a
  /\ (rectsOverlap a b = true <->
      Rect.x b <= Rect.x a + Rect.width a /\ Rect.x a <= Rect.x b + Rect.width b
      /\ Rect.y b - Rect.height b <= Rect.y a /\ Rect.y a - Rect.height a <= Rect.y b).
Proof.
  unfold rectsOverlap. split.
  - destruct (Qltb (Rect.x a + Rect.width a) (Rect.x b)),
             (Qltb (Rect.x b + Rect.width b) (Rect.x a)),
             (Qltb (Rect.y a) (Rect.y b - Rect.height b)),
             (Qltb (Rect.y b) (Rect.y a - Rect.height a)); reflexivity.
  - rewrite negb_true_iff, !orb_false_iff, !Qltb_ge. tauto.
Qed.

(** X2. [clamp] returns its argument when that lies in [min, max], is
    idempotent and monotone, never returns less than [min], and returns
    [min] itself when the bounds are crossed ([max < min]). *)
Theorem clamp_identity_idempotent_monotone v w lo hi :
  (lo <= v -> v <= hi -> clamp v lo hi == v)
  /\ clamp (clamp v lo hi) lo hi == clamp v lo hi
  /\ lo <= clamp v lo hi
  /\ (hi < lo -> clamp v lo hi == lo)
  /\ (v <= w -> clamp v lo hi <= clamp w lo hi).
Proof.
  pose proof (clamp_cases v lo hi) as Hv.
  pose proof (clamp_cases w lo hi) as Hw.
  pose proof (clamp_cases (clamp v lo hi) lo hi) as Hc.
  revert Hv Hw Hc.
  generalize (clamp (clamp v lo hi) lo hi). generalize (clamp w lo hi).
  generalize (clamp v lo hi). intros c cw cc Hv Hw Hc.
  repeat split; try intros; lra.
Qed.

Lemma clamp_identity_idempotent_monotone_witness :
  clamp 30 24 936 == 30 /\ clamp 5 24 936 <= clamp 30 24 936 /\ clamp 30 10 0 == 10.
Proof.
  destruct (clamp_identity_idempotent_monotone 30 30 24 936) as (Hid & _).
  destruct (clamp_identity_idempotent_monotone 5 30 24 936) as (_ & _ & _ & _ & Hmono).
  destruct (clamp_identity_idempotent_monotone 30 30 10 0) as (_ & _ & _ & Hcross & _).
  split; [apply Hid; vm_compute; discriminate |].
  split; [apply Hmono; vm_compute; discriminate | apply Hcross; vm_compute; reflexivity].
Defined.

(** ** Facing *)

(** X3. [resolveFacing] turns the fighter with the smaller x to the right
    (+1) and the other to the left (-1); on equal x Player 1 looks left and
    Player 2 right.  The two always look in opposite directions, nothing
    but [facing] changes, and resolving twice is resolving once. *)
Theorem resolveFacing_faces_each_other p1 p2 :
  let q1 := fst (resolveFacing p1 p2) in
  let q2 := snd (resolveFacing p1 p2) in
  (Fighter.x p1 < Fighter.x p2 ->
   Fighter.facing q1 = 1%Z /\ Fighter.facing q2 = (-1)%Z)
  /\ (Fighter.x p2 <= Fighter.x p1 ->
      Fighter.facing q1 = (-1)%Z /\ Fighter.facing q2 = 1%Z)
  /\ Fighter.facing q1 = (- Fighter.facing q2)%Z
  /\ q1 = Fighter.set_facing (Fighter.facing q1) p1
  /\ q2 = Fighter.set_facing (Fighter.facing q2) p2
  /\ resolveFacing q1 q2 = (q1, q2).
Proof.
  unfold resolveFacing. cbn [fst snd Fighter.x Fighter.set_facing Fighter.facing].
  destruct (Qltb (Fighter.x p1) (Fighter.x p2)) eqn:Hlt.
  - apply Qltb_lt in Hlt.
    split; [intros _; split; reflexivity |].
    split; [intros Hge; exfalso; lra |].
    repeat split.
  - apply Qltb_ge in Hlt.
    split; [intros Hl; exfalso; lra |].
    split; [intros _; split; reflexivity |].
    repeat split.
Qed.

Lemma resolveFacing_faces_each_other_witness :
  Fighter.facing (fst (resolveFacing (createFighter 700 1 "blue")
                         (createFighter 300 (-1) "amber"))) = (-1)%Z
  /\ Fighter.facing (snd (resolveFacing (createFighter 700 1 "blue")
                            (createFighter 300 (-1) "amber"))) = 1%Z.
Proof.
  destruct (resolveFacing_faces_each_other (createFighter 700 1 "blue")
              (createFighter 300 (-1) "amber")) as (_ & Hswap & _).
  apply Hswap. vm_compute. discriminate.
Defined.

(** ** Hits *)

Lemma standardSize_createFighter x facing palette :
  standardSize (createFighter x facing palette).
Proof. split; reflexivity. Qed.

(** X4. For fighters of the standard size a hit connects exactly when the
    defender's centre is 24 to [72 + reach] ahead of an attacker facing
    right, or at most [24 + reach] ahead of (and at most 24 behind) one
    facing left, and the defender stands 15 to 117 lower than the attacker.
    So a right-facing attack reaches 48 further than a left-facing one, and
    no attack connects between fighters at the same height. *)
Theorem hitConnects_range a d ty :
  standardSize a -> standardSize d ->
  (hitConnects a d ty = true <->
   (if (Fighter.facing a =? 1)%Z
    then 24 <= Fighter.x d - Fighter.x a /\ Fighter.x d - Fighter.x a <= 72 + reach ty
    else -24 <= Fighter.x a - Fighter.x d /\ Fighter.x a - Fighter.x d <= 24 + reach ty)
   /\ 15 <= Fighter.y d - Fighter.y a /\ Fighter.y d - Fighter.y a <= 117).
Proof.
  intros [Wa Ha] [Wd Hd].
  unfold hitConnects, rectsOverlap, getAttackHitbox, hurtRect.
  cbn [Rect.x Rect.y Rect.width Rect.height].
  rewrite Wa, Ha, Wd, Hd.
  rewrite negb_true_iff, !orb_false_iff, !Qltb_ge.
  assert (H39 : 78 / 2 == 39) by reflexivity.
  assert (H24 : 48 / 2 == 24) by reflexivity.
  rewrite H39, H24.
  destruct (Fighter.facing a =? 1)%Z; destruct ty; unfold reach; split; intros; lra.
Qed.

Lemma hitConnects_range_witness :
  hitConnects (airborneAttacker Light 104) freshDefender Light = true
  /\ hitConnects (Fighter.set_y FLOOR_Y (airborneAttacker Light 104)) freshDefender Light
     = false.
Proof.
  split.
  - apply (proj2 (hitConnects_range (airborneAttacker Light 104) freshDefender Light
                    (conj eq_refl eq_refl) (conj eq_refl eq_refl))).
    vm_compute. repeat split; discriminate.
  - apply not_true_is_false. intros Hc.
    apply (proj1 (hitConnects_range (Fighter.set_y FLOOR_Y (airborneAttacker Light 104))
                    freshDefender Light (conj eq_refl eq_refl) (conj eq_refl eq_refl)))
      in Hc.
    destruct Hc as (_ & Hlow & _). vm_compute in Hlow. apply Hlow. reflexivity.
Defined.

Lemma handleHit_no_attack a d :
  Fighter.attacking a = false \/ Fighter.attackType a = None -> handleHit a d = d.
Proof.
  intros [Hna | Hnt]; unfold handleHit.
  - rewrite Hna. destruct (Fighter.attackType a); reflexivity.
  - rewrite Hnt. reflexivity.
Qed.

Lemma handleHit_miss a d ty :
  Fighter.attackType a = Some ty -> hitConnects a d ty = false -> handleHit a d = d.
Proof.
  intros Hty Hc. unfold handleHit. rewrite Hty.
  destruct (negb (Fighter.attacking a)); [reflexivity |].
  destruct (negb (Qltb 40 (Fighter.attackTimer a))); [reflexivity |].
  unfold hitConnects, hurtRect, getAttackHitbox in Hc.
  cbv zeta. unfold getAttackHitbox. cbn [Rect.x Rect.y Rect.width Rect.height].
  rewrite Hc. reflexivity.
Qed.

(** The fields a hit resolution can change. *)
Lemma handleHit_shape a d :
  exists hp hitflash blockflash vx,
    handleHit a d
    = Fighter.set_vx vx
        (Fighter.set_blockflash blockflash
           (Fighter.set_hitflash hitflash (Fighter.set_hp hp d))).
Proof.
  exists (Fighter.hp (handleHit a d)), (Fighter.hitflash (handleHit a d)),
         (Fighter.blockflash (handleHit a d)), (Fighter.vx (handleHit a d)).
  destruct d as [x y vx vy w h fc pal og att aty atm blk ca hp rd cds hf bf].
  unfold handleHit.
  destruct (Fighter.attackType a) as [ty |]; [| reflexivity].
  destruct (negb (Fighter.attacking a)); [reflexivity |].
  destruct (negb (Qltb 40 (Fighter.attackTimer a))); [reflexivity |].
  cbv zeta. destruct (rectsOverlap _ _); [| reflexivity].
  cbn [Fighter.block]. destruct blk; reflexivity.
Qed.

(** X5. A hit resolution changes nothing of the defender but hp, one of the
    two flashes and vx: position, vertical speed, facing, size, ground and
    block flags, the defender's own attack (flag, type, timer), its rounds
    and its cooldowns are as before.  A hit neither interrupts the
    defender's attack nor moves the defender in the same frame. *)
Theorem handleHit_leaves_rest_of_defender a d :
  let nd := handleHit a d in
  Fighter.x nd = Fighter.x d /\ Fighter.y nd = Fighter.y d
  /\ Fighter.vy nd = Fighter.vy d /\ Fighter.facing nd = Fighter.facing d
  /\ Fighter.width nd = Fighter.width d /\ Fighter.height nd = Fighter.height d
  /\ Fighter.palette nd = Fighter.palette d
  /\ Fighter.onGround nd = Fighter.onGround d /\ Fighter.block nd = Fighter.block d
  /\ Fighter.canAct nd = Fighter.canAct d
  /\ Fighter.attacking nd = Fighter.attacking d
  /\ Fighter.attackType nd = Fighter.attackType d
  /\ Fighter.attackTimer nd = Fighter.attackTimer d
  /\ Fighter.rounds nd = Fighter.rounds d
  /\ Fighter.cooldowns nd = Fighter.cooldowns d.
Proof.
  destruct (handleHit_shape a d) as (hp & hf & bf & vx & E).
  cbv zeta. rewrite E. repeat split.
Qed.

(** X6. A hit never raises the hp of a defender whose hp is not negative;
    a connecting hit on a defender with positive hp lowers it strictly, to
    0 or by at least 3. *)
Theorem handleHit_lowers_hp a d :
  0 <= Fighter.hp d ->
  Fighter.hp (handleHit a d) <= Fighter.hp d
  /\ forall ty,
       Fighter.attacking a = true -> Fighter.attackType a = Some ty ->
       40 < Fighter.attackTimer a -> hitConnects a d ty = true ->
       0 < Fighter.hp d ->
       Fighter.hp (handleHit a d) < Fighter.hp d
       /\ (Fighter.hp (handleHit a d) == 0
           \/ Fighter.hp (handleHit a d) <= Fighter.hp d - 3).
Proof.
  intros Hnn.
  assert (Hdmg : forall ty (b : bool),
             3 <= (if b then inject_Z (Qceiling (baseDamage ty * (1 - BLOCK_REDUCTION)))
                   else baseDamage ty)).
  { intros ty b. rewrite blockedDamage_code.
    destruct ty, b; vm_compute; discriminate. }
  assert (Hhit : forall ty,
             Fighter.attacking a = true -> Fighter.attackType a = Some ty ->
             40 < Fighter.attackTimer a -> hitConnects a d ty = true ->
             exists dmg, 3 <= dmg
                         /\ Fighter.hp (handleHit a d) = clamp (Fighter.hp d - dmg) 0 100).
  { intros ty Ha Hty Ht Hc. rewrite (handleHit_active a d ty Ha Hty Ht Hc).
    eexists. split; [apply (Hdmg ty (Fighter.block d)) |].
    cbv zeta. destruct (Fighter.block d); reflexivity. }
  split.
  - destruct (Fighter.attackType a) as [ty |] eqn:Hty;
      [| rewrite (handleHit_no_attack a d); [lra | right; exact Hty]].
    destruct (Fighter.attacking a) eqn:Ha;
      [| rewrite (handleHit_no_attack a d); [lra | left; exact Ha]].
    destruct (Qlt_le_dec 40 (Fighter.attackTimer a)) as [Ht | Ht];
      [| rewrite (handleHit_inactive_timer a d Ht); lra].
    destruct (hitConnects a d ty) eqn:Hc.
    + destruct (Hhit ty eq_refl eq_refl Ht Hc) as (dmg & Hd3 & E). rewrite E.
      pose proof (clamp_cases (Fighter.hp d - dmg) 0 100). lra.
    + rewrite (handleHit_miss a d ty Hty Hc). lra.
  - intros ty Ha Hty Ht Hc Hpos.
    destruct (Hhit ty Ha Hty Ht Hc) as (dmg & Hd3 & E). rewrite E.
    pose proof (clamp_cases (Fighter.hp d - dmg) 0 100). lra.
Qed.

Lemma handleHit_attacker_ext a a' d :
  Fighter.attacking a = Fighter.attacking a' ->
  Fighter.attackType a = Fighter.attackType a' ->
  Fighter.attackTimer a = Fighter.attackTimer a' ->
  Fighter.facing a = Fighter.facing a' ->
  Fighter.x a = Fighter.x a' -> Fighter.y a = Fighter.y a' ->
  Fighter.width a = Fighter.width a' -> Fighter.height a = Fighter.height a' ->
  handleHit a d = handleHit a' d.
Proof.
  intros Hatt Hty Htm Hfc Hx Hy Hw Hh. unfold handleHit, getAttackHitbox.
  rewrite Hatt, Hty, Htm, Hfc, Hx, Hy, Hw, Hh. reflexivity.
Qed.

(** X7. The two hit resolutions of a frame do not interfere: hitting
    Player 1 with the already-hit Player 2 gives what hitting it with the
    unhit Player 2 gives, so a fighter struck in a frame still lands its
    own attack in that frame, and the frame's combat is the separation of
    the two independent hits. *)
Theorem mutual_hits_are_independent a b :
  handleHit (handleHit a b) a = handleHit b a
  /\ resolve a b
     = separate (handleHit (snd (resolveFacing a b)) (fst (resolveFacing a b)))
                (handleHit (fst (resolveFacing a b)) (snd (resolveFacing a b))).
Proof.
  assert (Hind : forall p q, handleHit (handleHit p q) p = handleHit q p).
  { intros p q. destruct (handleHit_shape p q) as (hp & hf & bf & vx & E).
    apply handleHit_attacker_ext; rewrite E; reflexivity. }
  split; [apply Hind |].
  unfold resolve. destruct (resolveFacing a b) as [q1 q2]. cbn [fst snd].
  rewrite Hind. reflexivity.
Qed.

Lemma handleHit_lowers_hp_witness :
  Fighter.hp (handleHit (airborneAttacker Light 104) freshDefender)
  < Fighter.hp freshDefender.
Proof.
  destruct (handleHit_lowers_hp (airborneAttacker Light 104) freshDefender) as [_ Hhit].
  - vm_compute. discriminate.
  - destruct (Hhit Light) as [Hlt _].
    + reflexivity.
    + reflexivity.
    + vm_compute. reflexivity.
    + vm_compute. reflexivity.
    + vm_compute. reflexivity.
    + exact Hlt.
Defined.

(** ** The step: ground, jump, speed *)

Lemma attacks_other_fields k control now nx :
  Fighter.x (attacks k control now nx) = Fighter.x nx
  /\ Fighter.y (attacks k control now nx) = Fighter.y nx
  /\ Fighter.vx (attacks k control now nx) = Fighter.vx nx
  /\ Fighter.vy (attacks k control now nx) = Fighter.vy nx
  /\ Fighter.onGround (attacks k control now nx) = Fighter.onGround nx
  /\ Fighter.rounds (attacks k control now nx) = Fighter.rounds nx
  /\ Fighter.facing (attacks k control now nx) = Fighter.facing nx.
Proof.
  rewrite attacks_refines_spec.
  destruct (attacks_spec_cases k control now nx)
    as [Hsame | (_ & _ & _ & ty & _ & Hstart)].
  - rewrite Hsame. repeat split.
  - rewrite Hstart. repeat split.
Qed.

Lemma updateTimers_other_fields delta nx :
  Fighter.y (updateTimers delta nx) = Fighter.y nx
  /\ Fighter.vx (updateTimers delta nx) = Fighter.vx nx
  /\ Fighter.vy (updateTimers delta nx) = Fighter.vy nx
  /\ Fighter.onGround (updateTimers delta nx) = Fighter.onGround nx
  /\ Fighter.rounds (updateTimers delta nx) = Fighter.rounds nx
  /\ Fighter.facing (updateTimers delta nx) = Fighter.facing nx.
Proof. unfold updateTimers. repeat split; split_ifs. Qed.

Lemma beforeAttacks_vertical k control f :
  Fighter.y (beforeAttacks k control f) = Fighter.y f
  /\ Fighter.rounds (beforeAttacks k control f) = Fighter.rounds f
  /\ Fighter.x (beforeAttacks k control f) = Fighter.x f
  /\ ((pressed k (Controls.up control) && Fighter.onGround f = true
       /\ Fighter.vy (beforeAttacks k control f) = JUMP_VELOCITY
       /\ Fighter.onGround (beforeAttacks k control f) = false)
      \/ (pressed k (Controls.up control) && Fighter.onGround f = false
          /\ Fighter.vy (beforeAttacks k control f) = Fighter.vy f
          /\ Fighter.onGround (beforeAttacks k control f) = Fighter.onGround f)).
Proof.
  unfold beforeAttacks, jump.
  assert (Hog : Fighter.onGround (horizontal k control (blocking k control f))
                = Fighter.onGround f).
  { unfold horizontal, blocking. split_ifs. }
  assert (Hvy : Fighter.vy (horizontal k control (blocking k control f)) = Fighter.vy f).
  { unfold horizontal, blocking. split_ifs. }
  assert (Hy : Fighter.y (horizontal k control (blocking k control f)) = Fighter.y f).
  { unfold horizontal, blocking. split_ifs. }
  assert (Hr : Fighter.rounds (horizontal k control (blocking k control f))
               = Fighter.rounds f).
  { unfold horizontal, blocking. split_ifs. }
  assert (Hx : Fighter.x (horizontal k control (blocking k control f)) = Fighter.x f).
  { unfold horizontal, blocking. split_ifs. }
  rewrite Hog.
  destruct (pressed k (Controls.up control) && Fighter.onGround f).
  - repeat split; try assumption. left. repeat split.
  - repeat split; try assumption. right. repeat split; assumption.
Qed.

(** The vertical outcome of a step, from the fighter entering physics. *)
Lemma integrate_vertical nx :
  (FLOOR_Y <= Fighter.y nx + (Fighter.vy nx + GRAVITY)
   /\ Fighter.y (integrate nx) = FLOOR_Y /\ Fighter.vy (integrate nx) = 0
   /\ Fighter.onGround (integrate nx) = true)
  \/ (Fighter.y nx + (Fighter.vy nx + GRAVITY) < FLOOR_Y
      /\ Fighter.y (integrate nx) = Fighter.y nx + (Fighter.vy nx + GRAVITY)
      /\ Fighter.vy (integrate nx) = Fighter.vy nx + GRAVITY
      /\ Fighter.onGround (integrate nx) = Fighter.onGround nx).
Proof.
  unfold integrate. cbv zeta.
  cbn [Fighter.y Fighter.vy Fighter.set_vy Fighter.set_x Fighter.set_y].
  destruct (Qleb FLOOR_Y (Fighter.y nx + (Fighter.vy nx + GRAVITY))) eqn:Hf.
  - left. apply Qleb_le in Hf. repeat split. exact Hf.
  - right. apply Qleb_gt in Hf. repeat split. exact Hf.
Qed.

Lemma controlPlayer_groundInv k delta f control now :
  groundInv f -> groundInv (controlPlayer k delta f control now).
Proof.
  intros (Hy & Hog & Hvy). rewrite controlPlayer_phases.
  destruct (updateTimers_other_fields delta
              (integrate (attacks k control now (beforeAttacks k control f))))
    as (Uy & _ & Uvy & Uog & _).
  destruct (attacks_other_fields k control now (beforeAttacks k control f))
    as (_ & Ay & _ & Avy & Aog & _).
  destruct (beforeAttacks_vertical k control f) as (By & _ & _ & Bj).
  unfold groundInv. rewrite Uy, Uvy, Uog.
  destruct (integrate_vertical (attacks k control now (beforeAttacks k control f)))
    as [(Hfl & Iy & Ivy & Iog) | (Hfl & Iy & Ivy & Iog)];
    rewrite Iy, Ivy, Iog.
  - split; [lra |]. split; [split; intros _; reflexivity | intros _; reflexivity].
  - rewrite Ay, Avy, By in Hfl |- *. rewrite Aog.
    split; [lra |].
    destruct Bj as [(_ & Bvy & Bog) | (Hup & Bvy & Bog)]; rewrite Bvy, Bog in *.
    + split; [split; [intros Hd; discriminate | intros He; exfalso; lra] |
              intros Hd; discriminate].
    + destruct (Fighter.onGround f) eqn:Hg.
      * exfalso. pose proof (proj1 Hog eq_refl) as Hfy. pose proof (Hvy eq_refl) as Hv0.
        unfold GRAVITY in Hfl. lra.
      * split; [split; [intros Hd; discriminate | intros He; exfalso; lra] |
                intros Hd; discriminate].
Qed.

(** X8. A step never leaves a fighter below the floor, and it keeps the
    ground flag truthful: from a fighter whose flag says exactly whether it
    stands on the floor (at rest vertically if so), the stepped fighter is
    again on or above the floor with [onGround] true exactly at
    [y = FLOOR_Y]. *)
Theorem step_keeps_fighter_on_or_above_floor k delta f control now :
  Fighter.y (controlPlayer k delta f control now) <= FLOOR_Y
  /\ (groundInv f -> groundInv (controlPlayer k delta f control now)).
Proof.
  split; [| apply controlPlayer_groundInv].
  rewrite controlPlayer_phases.
  destruct (updateTimers_other_fields delta
              (integrate (attacks k control now (beforeAttacks k control f))))
    as (Uy & _).
  rewrite Uy.
  destruct (integrate_vertical (attacks k control now (beforeAttacks k control f)))
    as [(_ & Iy & _) | (Hfl & Iy & _)]; rewrite Iy; lra.
Qed.

Lemma step_keeps_fighter_on_or_above_floor_witness :
  groundInv (controlPlayer {[ "w" := true ]} 16 (createFighter 240 1 "blue")
               CONTROLS.p1 1000).
Proof.
  apply (step_keeps_fighter_on_or_above_floor {[ "w" := true ]} 16
           (createFighter 240 1 "blue") CONTROLS.p1 1000).
  split; [vm_compute; discriminate |].
  split; [split; intros _; reflexivity | intros _; reflexivity].
Defined.

Lemma pressed_insert_ne (k : Keys) key key' b :
  key <> key' -> pressed (<[key := b]> k) key' = pressed k key'.
Proof. intros Hne. unfold pressed. rewrite lookup_insert_ne; [reflexivity | exact Hne]. Qed.

(** X9. There is no jump in the air: for a fighter that is not on the
    ground, the step does not depend on the jump key at all, whatever the
    other keys are (the jump key being none of the scheme's other keys, as
    in both [CONTROLS]). *)
Theorem step_ignores_jump_key_in_the_air k delta f control now b :
  upKeyApart control -> Fighter.onGround f = false ->
  controlPlayer (<[Controls.up control := b]> k) delta f control now
  = controlPlayer k delta f control now.
Proof.
  intros (Hl & Hr & Hd & Hli & Hh & Hs) Hair.
  unfold controlPlayer. cbv zeta.
  assert (Eb : blocking (<[Controls.up control := b]> k) control f = blocking k control f).
  { unfold blocking. rewrite pressed_insert_ne by exact Hd. reflexivity. }
  assert (Eh : forall nx, horizontal (<[Controls.up control := b]> k) control nx
                          = horizontal k control nx).
  { intros nx. unfold horizontal.
    rewrite !pressed_insert_ne by assumption. reflexivity. }
  assert (Ea : forall nx, attacks (<[Controls.up control := b]> k) control now nx
                          = attacks k control now nx).
  { intros nx. unfold attacks.
    rewrite !pressed_insert_ne by assumption. reflexivity. }
  assert (Ej : forall k', jump k' control (horizontal k control (blocking k control f))
                          = horizontal k control (blocking k control f)).
  { intros k'. unfold jump.
    assert (Hog : Fighter.onGround (horizontal k control (blocking k control f)) = false).
    { rewrite <- Hair. unfold horizontal, blocking. split_ifs. }
    rewrite Hog, andb_false_r. reflexivity. }
  rewrite Eb, Eh, !Ej, Ea. reflexivity.
Qed.

Lemma step_ignores_jump_key_in_the_air_witness :
  let jumper := controlPlayer {[ "w" := true ]} 16 (createFighter 240 1 "blue")
                  CONTROLS.p1 1000 in
  Fighter.onGround jumper = false
  /\ controlPlayer (<[ "w" := true ]> ∅) 16 jumper CONTROLS.p1 1016
     = controlPlayer ∅ 16 jumper CONTROLS.p1 1016.
Proof.
  cbv zeta. split; [vm_compute; reflexivity |].
  apply (step_ignores_jump_key_in_the_air ∅ 16
           (controlPlayer {[ "w" := true ]} 16 (createFighter 240 1 "blue")
              CONTROLS.p1 1000) CONTROLS.p1 1016 true).
  - repeat split; discriminate.
  - vm_compute. reflexivity.
Defined.

(** ** The step: cooldowns and the running attack *)

Lemma controlPlayer_cooldowns k delta f control now :
  Fighter.cooldowns (controlPlayer k delta f control now)
  = Fighter.cooldowns (attacks_spec k control now (beforeAttacks k control f)).
Proof.
  rewrite controlPlayer_phases, updateTimers_cooldowns, attacks_refines_spec.
  apply integrate_attack_fields.
Qed.

(** X10. Cooldown stamps only move forward: after any step, at any clock
    reading, each attack type's stamp is at least what it was. *)
Theorem step_never_lowers_a_cooldown k delta f control now ty :
  cooldownOf ty (Fighter.cooldowns f)
  <= cooldownOf ty (Fighter.cooldowns (controlPlayer k delta f control now)).
Proof.
  rewrite controlPlayer_cooldowns.
  destruct (beforeAttacks_fields k control f) as (_ & _ & _ & Hcd & _).
  destruct (attacks_spec_cases k control now (beforeAttacks k control f))
    as [Hsame | (_ & _ & _ & ty' & Hfirst & Hstart)].
  - rewrite Hsame, Hcd. lra.
  - rewrite Hstart. cbn [Fighter.cooldowns Fighter.set_cooldowns]. rewrite Hcd.
    apply firstReady_ready in Hfirst as [_ Hready]. rewrite Hcd in Hready.
    destruct ty, ty'; cbn [cooldownOf setCooldown cooldownDuration Cooldowns.light
      Cooldowns.heavy Cooldowns.special Cooldowns.set_light Cooldowns.set_heavy
      Cooldowns.set_special] in *; lra.
Qed.

Lemma startedType_spec k control now f :
  startedType k control now f
  = let nx := beforeAttacks k control f in
    if negb (Fighter.attacking nx) && negb (Fighter.block nx) && Fighter.canAct nx
    then firstReady k control now nx else None.
Proof.
  unfold startedType. cbv zeta. rewrite attacks_refines_spec. unfold attacks_spec.
  destruct (Fighter.attacking (beforeAttacks k control f)) eqn:Ha; [reflexivity |].
  destruct (Fighter.block (beforeAttacks k control f)); [cbn; rewrite Ha; reflexivity |].
  destruct (Fighter.canAct (beforeAttacks k control f)); [| cbn; rewrite Ha; reflexivity].
  cbn [negb andb].
  destruct (firstReady k control now (beforeAttacks k control f));
    [reflexivity | rewrite Ha; reflexivity].
Qed.

Lemma startedType_started k control now f ty :
  startedType k control now f = Some ty ->
  attacks_spec k control now (beforeAttacks k control f)
  = Fighter.set_cooldowns
      (setCooldown ty (now + cooldownDuration ty)
         (Fighter.cooldowns (beforeAttacks k control f)))
      (Fighter.set_attackTimer (attackDuration ty)
         (Fighter.set_attackType (Some ty)
            (Fighter.set_attacking true (beforeAttacks k control f)))).
Proof.
  rewrite startedType_spec. unfold attacks_spec. cbv zeta.
  destruct (negb (Fighter.attacking (beforeAttacks k control f))
            && negb (Fighter.block (beforeAttacks k control f))
            && Fighter.canAct (beforeAttacks k control f)); [| discriminate].
  intros Hf. rewrite Hf. reflexivity.
Qed.

Lemma startedType_ready k control now f ty :
  startedType k control now f = Some ty ->
  cooldownOf ty (Fighter.cooldowns f) <= now.
Proof.
  rewrite startedType_spec. cbv zeta.
  destruct (negb (Fighter.attacking (beforeAttacks k control f))
            && negb (Fighter.block (beforeAttacks k control f))
            && Fighter.canAct (beforeAttacks k control f)); [| discriminate].
  intros Hf. apply firstReady_ready in Hf as [_ Hr].
  destruct (beforeAttacks_fields k control f) as (_ & _ & _ & Hcd & _).
  rewrite Hcd in Hr. exact Hr.
Qed.

(** X11. Attacks are throttled by their cooldown whatever the frame rate:
    when a step at clock [now] starts an attack of type [ty], the stepped
    fighter carries the stamp [now + cooldownDuration ty] for it (350, 700,
    2200 ms), and no step at a clock reading before that stamp starts
    another attack of that type, neither from this fighter nor from any
    later one whose stamp is at least as large. *)
Theorem started_attack_is_throttled k delta f control now ty :
  startedType k control now f = Some ty ->
  let f' := controlPlayer k delta f control now in
  cooldownOf ty (Fighter.cooldowns f') = now + cooldownDuration ty
  /\ forall g k' control' now',
       cooldownOf ty (Fighter.cooldowns f') <= cooldownOf ty (Fighter.cooldowns g) ->
       now' < now + cooldownDuration ty ->
       startedType k' control' now' g <> Some ty.
Proof.
  intros Hs f'.
  assert (Hcd : cooldownOf ty (Fighter.cooldowns f') = now + cooldownDuration ty).
  { unfold f'. rewrite controlPlayer_cooldowns, (startedType_started _ _ _ _ _ Hs).
    cbn [Fighter.cooldowns Fighter.set_cooldowns]. apply setCooldown_same. }
  split; [exact Hcd |].
  intros g k' control' now' Hge Hlt Hs'.
  apply startedType_ready in Hs'. rewrite Hcd in Hge. lra.
Qed.

Lemma started_attack_is_throttled_witness :
  let f' := controlPlayer {[ "j" := true ]} 16 (createFighter 240 1 "blue")
              CONTROLS.p1 1000 in
  cooldownOf Light (Fighter.cooldowns f') = 1000 + 350
  /\ startedType {[ "j" := true ]} CONTROLS.p1 1349 f' <> Some Light.
Proof.
  destruct (started_attack_is_throttled {[ "j" := true ]} 16 (createFighter 240 1 "blue")
              CONTROLS.p1 1000 Light) as [Hcd Hno].
  - vm_compute. reflexivity.
  - cbv zeta. split; [exact Hcd |].
    apply Hno; [apply Qle_refl | vm_compute; reflexivity].
Defined.

(** X12. A running attack is locked in: a step of a fighter that is
    attacking starts nothing and touches no cooldown, whatever keys are
    held; it only takes [delta] off the attack timer, and either the attack
    goes on with its type unchanged (timer still positive) or it ends with
    [attacking] false and no attack type. *)
Theorem running_attack_is_locked_in k delta f control now :
  Fighter.attacking f = true ->
  let f' := controlPlayer k delta f control now in
  Fighter.cooldowns f' = Fighter.cooldowns f
  /\ startedType k control now f = None
  /\ ((0 < Fighter.attackTimer f - delta
       /\ Fighter.attacking f' = true
       /\ Fighter.attackType f' = Fighter.attackType f
       /\ Fighter.attackTimer f' = Fighter.attackTimer f - delta)
      \/ (Fighter.attackTimer f - delta <= 0
          /\ Fighter.attacking f' = false
          /\ Fighter.attackType f' = None
          /\ Fighter.attackTimer f' = Fighter.attackTimer f - delta)).
Proof.
  intros Hatt f'.
  destruct (beforeAttacks_fields k control f) as (Batt & _ & _ & Bcd & Btm & Bty).
  assert (Hspec : attacks_spec k control now (beforeAttacks k control f)
                  = beforeAttacks k control f).
  { unfold attacks_spec. rewrite Batt, Hatt. reflexivity. }
  split; [unfold f'; rewrite controlPlayer_cooldowns, Hspec; exact Bcd |].
  split; [rewrite startedType_spec; cbv zeta; rewrite Batt, Hatt; reflexivity |].
  unfold f'. rewrite controlPlayer_phases, attacks_refines_spec, Hspec.
  destruct (integrate_attack_fields (beforeAttacks k control f))
    as (_ & Iatt & Ity & Itm & _).
  set (m := integrate (beforeAttacks k control f)) in *.
  assert (Matt : Fighter.attacking m = true) by (rewrite Iatt, Batt; exact Hatt).
  assert (Mtm : Fighter.attackTimer m = Fighter.attackTimer f)
    by (rewrite Itm; exact Btm).
  assert (Mty : Fighter.attackType m = Fighter.attackType f)
    by (rewrite Ity; exact Bty).
  rewrite <- Mtm, <- Mty. clearbody m.
  unfold updateTimers.
  set (n1 := if Qltb 0 (Fighter.hitflash m)
             then Fighter.set_hitflash (Fighter.hitflash m - delta) m else m).
  set (n2 := if Qltb 0 (Fighter.blockflash n1)
             then Fighter.set_blockflash (Fighter.blockflash n1 - delta) n1 else n1).
  assert (Ha : Fighter.attacking n2 = Fighter.attacking m) by (subst n2 n1; split_ifs).
  assert (Ht : Fighter.attackTimer n2 = Fighter.attackTimer m) by (subst n2 n1; split_ifs).
  assert (Hy : Fighter.attackType n2 = Fighter.attackType m) by (subst n2 n1; split_ifs).
  rewrite <- Ht, <- Hy. rewrite Matt in Ha. clearbody n2. rewrite Ha.
  cbn [Fighter.attackTimer Fighter.set_attackTimer].
  destruct (Qleb (Fighter.attackTimer n2 - delta) 0) eqn:Hz.
  - right. apply Qleb_le in Hz. repeat split. exact Hz.
  - left. apply Qleb_gt in Hz. repeat split; [exact Hz | exact Ha].
Qed.

Lemma running_attack_is_locked_in_witness :
  let f := controlPlayer {[ "j" := true ]} 16 (createFighter 240 1 "blue")
             CONTROLS.p1 1000 in
  let f' := controlPlayer {[ "k" := true; "u" := true ]} 16 f CONTROLS.p1 1016 in
  Fighter.cooldowns f' = Fighter.cooldowns f
  /\ startedType {[ "k" := true; "u" := true ]} CONTROLS.p1 1016 f = None.
Proof.
  destruct (running_attack_is_locked_in {[ "k" := true; "u" := true ]} 16
              (controlPlayer {[ "j" := true ]} 16 (createFighter 240 1 "blue")
                 CONTROLS.p1 1000) CONTROLS.p1 1016) as (Hcd & Hno & _).
  - vm_compute. reflexivity.
  - cbv zeta. split; [exact Hcd | exact Hno].
Defined.

(** ** Invariants of the reachable states *)

Lemma separate_shape a b :
  fst (separate a b) = Fighter.set_x (Fighter.x (fst (separate a b))) a
  /\ snd (separate a b) = Fighter.set_x (Fighter.x (snd (separate a b))) b.
Proof.
  unfold separate. cbv zeta.
  destruct (Qltb 0 _); [destruct (Qltb (Fighter.x a) (Fighter.x b)) |];
    cbn [fst snd]; destruct a, b; split; reflexivity.
Qed.

(** What the combat of a frame leaves of a fighter: all but facing, hp,
    the flashes, vx and x. *)
Lemma resolve_keeps a b :
  let q1 := fst (resolve a b) in
  let q2 := snd (resolve a b) in
  (Fighter.y q1 = Fighter.y a /\ Fighter.vy q1 = Fighter.vy a
   /\ Fighter.onGround q1 = Fighter.onGround a
   /\ Fighter.width q1 = Fighter.width a /\ Fighter.height q1 = Fighter.height a
   /\ Fighter.attacking q1 = Fighter.attacking a
   /\ Fighter.attackType q1 = Fighter.attackType a
   /\ Fighter.canAct q1 = Fighter.canAct a
   /\ Fighter.rounds q1 = Fighter.rounds a
   /\ Fighter.cooldowns q1 = Fighter.cooldowns a
   /\ Fighter.facing q1 = Fighter.facing (fst (resolveFacing a b)))
  /\ (Fighter.y q2 = Fighter.y b /\ Fighter.vy q2 = Fighter.vy b
      /\ Fighter.onGround q2 = Fighter.onGround b
      /\ Fighter.width q2 = Fighter.width b /\ Fighter.height q2 = Fighter.height b
      /\ Fighter.attacking q2 = Fighter.attacking b
      /\ Fighter.attackType q2 = Fighter.attackType b
      /\ Fighter.canAct q2 = Fighter.canAct b
      /\ Fighter.rounds q2 = Fighter.rounds b
      /\ Fighter.cooldowns q2 = Fighter.cooldowns b
      /\ Fighter.facing q2 = Fighter.facing (snd (resolveFacing a b))).
Proof.
  unfold resolve, resolveFacing. cbv zeta. cbn [fst snd].
  set (q1 := Fighter.set_facing _ a). set (q2 := Fighter.set_facing _ b).
  destruct (separate_shape (handleHit (handleHit q1 q2) q1) (handleHit q1 q2))
    as [E1 E2].
  destruct (handleHit_shape (handleHit q1 q2) q1) as (h1 & f1 & g1 & v1 & H1).
  destruct (handleHit_shape q1 q2) as (h2 & f2 & g2 & v2 & H2).
  split.
  - rewrite E1, H1. repeat split.
  - rewrite E2, H2. repeat split.
Qed.

Lemma set_rounds_same f : Fighter.set_rounds (Fighter.rounds f) f = f.
Proof. destruct f; reflexivity. Qed.

(** Induction over the reachable states for a property of the two
    fighters. *)
Lemma Reachable_fighters (P : Fighter.t -> Fighter.t -> Prop) :
  P (App.p1 initialApp) (App.p2 initialApp) ->
  (forall a b r1 r2, P a b -> P (Fighter.set_rounds r1 a) (Fighter.set_rounds r2 b)) ->
  (forall k delta now a b, P a b ->
     P (fst (resolve (controlPlayer k delta a CONTROLS.p1 now)
                     (controlPlayer k delta b CONTROLS.p2 now)))
       (snd (resolve (controlPlayer k delta a CONTROLS.p1 now)
                     (controlPlayer k delta b CONTROLS.p2 now)))) ->
  forall s, Reachable s -> P (App.p1 s) (App.p2 s).
Proof.
  intros Hinit Hrounds Hframe s Hs.
  induction Hs as [| rnd u delta now s r Hs IH | c s Hs IH | c s Hs IH
                   | s Hs IH | m s Hs IH | d s Hs IH | s Hs IH].
  - exact Hinit.
  - destruct (active_dec s) as [Ha | Hn].
    + rewrite (frame_active_p1 _ _ _ _ _ _ Ha), (frame_active_p2 _ _ _ _ _ _ Ha).
      unfold frameFighters. apply Hframe, IH.
    + rewrite (frame_inactive _ _ _ _ _ _ Hn). exact IH.
  - unfold nextRound_click. destruct (App.winnerRound c) as [[|] |].
    + cbn [App.p1 App.p2 setP1].
      rewrite <- (set_rounds_same (App.p2 s)). apply Hrounds, IH.
    + cbn [App.p1 App.p2 setP2].
      rewrite <- (set_rounds_same (App.p1 s)). apply Hrounds, IH.
    + exact IH.
  - apply (Hrounds _ _ _ _ Hinit).
  - exact Hinit.
  - exact IH.
  - exact IH.
  - exact IH.
Qed.

Lemma beforeAttacks_keeps k control f :
  Fighter.width (beforeAttacks k control f) = Fighter.width f
  /\ Fighter.height (beforeAttacks k control f) = Fighter.height f
  /\ Fighter.facing (beforeAttacks k control f) = Fighter.facing f
  /\ Fighter.hp (beforeAttacks k control f) = Fighter.hp f.
Proof. unfold beforeAttacks, jump, horizontal, blocking. repeat split; split_ifs. Qed.

Lemma attacks_spec_keeps k control now nx :
  Fighter.width (attacks_spec k control now nx) = Fighter.width nx
  /\ Fighter.height (attacks_spec k control now nx) = Fighter.height nx
  /\ Fighter.canAct (attacks_spec k control now nx) = Fighter.canAct nx.
Proof.
  destruct (attacks_spec_cases k control now nx)
    as [Hsame | (_ & _ & _ & ty & _ & Hstart)].
  - rewrite Hsame. repeat split.
  - rewrite Hstart. repeat split.
Qed.

Lemma integrate_keeps nx :
  Fighter.width (integrate nx) = Fighter.width nx
  /\ Fighter.height (integrate nx) = Fighter.height nx
  /\ Fighter.canAct (integrate nx) = Fighter.canAct nx
  /\ Fighter.rounds (integrate nx) = Fighter.rounds nx
  /\ Fighter.facing (integrate nx) = Fighter.facing nx
  /\ Fighter.vx (integrate nx) = Fighter.vx nx.
Proof. unfold integrate. repeat split; split_ifs. Qed.

Lemma updateTimers_keeps delta nx :
  Fighter.width (updateTimers delta nx) = Fighter.width nx
  /\ Fighter.height (updateTimers delta nx) = Fighter.height nx
  /\ Fighter.canAct (updateTimers delta nx) = Fighter.canAct nx.
Proof. unfold updateTimers. repeat split; split_ifs. Qed.

Lemma controlPlayer_keeps k delta f control now :
  Fighter.width (controlPlayer k delta f control now) = Fighter.width f
  /\ Fighter.height (controlPlayer k delta f control now) = Fighter.height f
  /\ Fighter.canAct (controlPlayer k delta f control now) = Fighter.canAct f
  /\ Fighter.rounds (controlPlayer k delta f control now) = Fighter.rounds f.
Proof.
  rewrite controlPlayer_phases, attacks_refines_spec.
  set (nx := beforeAttacks k control f).
  destruct (updateTimers_keeps delta (integrate (attacks_spec k control now nx)))
    as (U1 & U2 & U3).
  destruct (updateTimers_other_fields delta (integrate (attacks_spec k control now nx)))
    as (_ & _ & _ & _ & U4 & _).
  destruct (integrate_keeps (attacks_spec k control now nx)) as (I1 & I2 & I3 & I4 & _).
  destruct (attacks_spec_keeps k control now nx) as (A1 & A2 & A3).
  pose proof (attacks_other_fields k control now nx) as (_ & _ & _ & _ & _ & A4 & _).
  rewrite attacks_refines_spec in A4.
  destruct (beforeAttacks_keeps k control f) as (B1 & B2 & _).
  destruct (beforeAttacks_fields k control f) as (_ & _ & B3 & _).
  destruct (beforeAttacks_vertical k control f) as (_ & B4 & _).
  fold nx in B1, B2, B3, B4.
  rewrite U1, U2, U3, U4, I1, I2, I3, I4, A1, A2, A3, A4.
  repeat split; assumption.
Qed.

Lemma groundInv_createFighter x facing palette : groundInv (createFighter x facing palette).
Proof.
  unfold groundInv. cbn [createFighter Fighter.y Fighter.onGround Fighter.vy].
  split; [apply Qle_refl |].
  split; [split; intros _; reflexivity | intros _; reflexivity].
Qed.

(** X13. In every reachable state both fighters have hp in [0,100] and x
    in [24, ARENA_WIDTH - 24], the size 48 by 78, and stand on or above the
    floor with [onGround] true exactly when [y = FLOOR_Y]. *)
Theorem reachable_fighters_are_in_the_arena s :
  Reachable s ->
  (inBounds (App.p1 s) /\ standardSize (App.p1 s) /\ groundInv (App.p1 s))
  /\ (inBounds (App.p2 s) /\ standardSize (App.p2 s) /\ groundInv (App.p2 s)).
Proof.
  apply (Reachable_fighters
           (fun a b => (inBounds a /\ standardSize a /\ groundInv a)
                       /\ (inBounds b /\ standardSize b /\ groundInv b))).
  - split; (split; [apply initialApp_inBounds |]);
      (split; [apply standardSize_createFighter | apply groundInv_createFighter]).
  - intros a b r1 r2 [Ha Hb]. destruct a, b. split; assumption.
  - intros k delta now a b [(Ba & Sa & Ga) (Bb & Sb & Gb)].
    destruct (resolve_keeps (controlPlayer k delta a CONTROLS.p1 now)
                (controlPlayer k delta b CONTROLS.p2 now))
      as [(Y1 & V1 & O1 & W1 & H1 & _) (Y2 & V2 & O2 & W2 & H2 & _)].
    cbv zeta in *.
    destruct (resolve_inBounds (controlPlayer k delta a CONTROLS.p1 now)
                (controlPlayer k delta b CONTROLS.p2 now)
                (controlPlayer_inBounds _ _ _ _ _ (proj1 Ba))
                (controlPlayer_inBounds _ _ _ _ _ (proj1 Bb))) as [R1 R2].
    destruct (controlPlayer_keeps k delta a CONTROLS.p1 now) as (Wa & Ha & _).
    destruct (controlPlayer_keeps k delta b CONTROLS.p2 now) as (Wb & Hb & _).
    pose proof (controlPlayer_groundInv k delta a CONTROLS.p1 now Ga) as Ga'.
    pose proof (controlPlayer_groundInv k delta b CONTROLS.p2 now Gb) as Gb'.
    unfold standardSize, groundInv in *.
    split; (split; [assumption |]); split.
    + rewrite W1, H1, Wa, Ha. exact Sa.
    + rewrite Y1, V1, O1. exact Ga'.
    + rewrite W2, H2, Wb, Hb. exact Sb.
    + rewrite Y2, V2, O2. exact Gb'.
Qed.

Lemma reachable_fighters_are_in_the_arena_witness :
  (inBounds (App.p1 (fst afterAIFrame)) /\ standardSize (App.p1 (fst afterAIFrame))
   /\ groundInv (App.p1 (fst afterAIFrame)))
  /\ (inBounds (App.p2 (fst afterAIFrame)) /\ standardSize (App.p2 (fst afterAIFrame))
      /\ groundInv (App.p2 (fst afterAIFrame))).
Proof.
  apply (reachable_fighters_are_in_the_arena (fst afterAIFrame)).
  apply Reach_frame, Reach_init.
Defined.

(** X14. In every reachable state the two fighters look in opposite
    directions, one to the right (+1) and one to the left (-1). *)
Theorem reachable_fighters_face_opposite_ways s :
  Reachable s ->
  (Fighter.facing (App.p1 s) = 1%Z /\ Fighter.facing (App.p2 s) = (-1)%Z)
  \/ (Fighter.facing (App.p1 s) = (-1)%Z /\ Fighter.facing (App.p2 s) = 1%Z).
Proof.
  apply (Reachable_fighters
           (fun a b => (Fighter.facing a = 1%Z /\ Fighter.facing b = (-1)%Z)
                       \/ (Fighter.facing a = (-1)%Z /\ Fighter.facing b = 1%Z))).
  - left. split; reflexivity.
  - intros a b r1 r2 H. destruct a, b. exact H.
  - intros k delta now a b _.
    destruct (resolve_keeps (controlPlayer k delta a CONTROLS.p1 now)
                (controlPlayer k delta b CONTROLS.p2 now))
      as [(_ & _ & _ & _ & _ & _ & _ & _ & _ & _ & F1)
          (_ & _ & _ & _ & _ & _ & _ & _ & _ & _ & F2)].
    cbv zeta in F1, F2. rewrite F1, F2. unfold resolveFacing.
    cbn [fst snd Fighter.facing Fighter.set_facing].
    destruct (Qltb _ _); [left | right]; split; reflexivity.
Qed.

Lemma reachable_fighters_face_opposite_ways_witness :
  (Fighter.facing (App.p1 (fst afterAIFrame)) = 1%Z
   /\ Fighter.facing (App.p2 (fst afterAIFrame)) = (-1)%Z)
  \/ (Fighter.facing (App.p1 (fst afterAIFrame)) = (-1)%Z
      /\ Fighter.facing (App.p2 (fst afterAIFrame)) = 1%Z).
Proof.
  apply (reachable_fighters_face_opposite_ways (fst afterAIFrame)).
  apply Reach_frame, Reach_init.
Defined.

Lemma updateTimers_attack_cases delta nx :
  (Fighter.attacking nx = false
   /\ Fighter.attacking (updateTimers delta nx) = false
   /\ Fighter.attackType (updateTimers delta nx) = Fighter.attackType nx)
  \/ (Fighter.attacking nx = true
      /\ Fighter.attacking (updateTimers delta nx) = true
      /\ Fighter.attackType (updateTimers delta nx) = Fighter.attackType nx)
  \/ (Fighter.attacking nx = true
      /\ Fighter.attacking (updateTimers delta nx) = false
      /\ Fighter.attackType (updateTimers delta nx) = None).
Proof.
  unfold updateTimers.
  set (n1 := if Qltb 0 (Fighter.hitflash nx)
             then Fighter.set_hitflash (Fighter.hitflash nx - delta) nx else nx).
  set (n2 := if Qltb 0 (Fighter.blockflash n1)
             then Fighter.set_blockflash (Fighter.blockflash n1 - delta) n1 else n1).
  assert (Ha : Fighter.attacking n2 = Fighter.attacking nx) by (subst n2 n1; split_ifs).
  assert (Hy : Fighter.attackType n2 = Fighter.attackType nx) by (subst n2 n1; split_ifs).
  rewrite <- Ha, <- Hy. clearbody n2. clear n1 Ha Hy.
  destruct (Fighter.attacking n2) eqn:Hatt.
  - cbn [Fighter.attackTimer Fighter.set_attackTimer].
    destruct (Qleb (Fighter.attackTimer n2 - delta) 0).
    + right; right. repeat split.
    + right; left. repeat split. exact Hatt.
  - left. repeat split. exact Hatt.
Qed.

Lemma controlPlayer_attackCoherent k delta f control now :
  attackCoherent f -> attackCoherent (controlPlayer k delta f control now).
Proof.
  intros [Hco Hcan]. split.
  2:{ destruct (controlPlayer_keeps k delta f control now) as (_ & _ & Hc & _).
      rewrite Hc. exact Hcan. }
  rewrite controlPlayer_phases, attacks_refines_spec.
  set (a := attacks_spec k control now (beforeAttacks k control f)).
  assert (Hca : Fighter.attacking a = true <-> Fighter.attackType a <> None).
  { destruct (beforeAttacks_fields k control f) as (Batt & _ & _ & _ & _ & Bty).
    destruct (attacks_spec_cases k control now (beforeAttacks k control f))
      as [Hsame | (_ & _ & _ & ty & _ & Hstart)]; unfold a.
    - rewrite Hsame, Batt, Bty. exact Hco.
    - rewrite Hstart. cbn. split; [intros _; discriminate | intros _; reflexivity]. }
  destruct (integrate_attack_fields a) as (_ & Iatt & Ity & _).
  rewrite <- Iatt, <- Ity in Hca.
  destruct (updateTimers_attack_cases delta (integrate a))
    as [(H0 & H1 & H2) | [(H0 & H1 & H2) | (H0 & H1 & H2)]]; rewrite H1, H2.
  - rewrite H0 in Hca. exact Hca.
  - rewrite H0 in Hca. exact Hca.
  - split; [intros Hd; discriminate | intros Hn; contradiction].
Qed.

(** X15. In every reachable state a fighter has an attack type exactly
    while it is attacking, and its [canAct] gate is open: no code path ever
    closes it, so it never keeps an attack from starting. *)
Theorem reachable_attack_fields_agree s :
  Reachable s -> attackCoherent (App.p1 s) /\ attackCoherent (App.p2 s).
Proof.
  apply (Reachable_fighters (fun a b => attackCoherent a /\ attackCoherent b)).
  - split; (split; [split; [intros H; discriminate | intros H; contradiction]
                   | reflexivity]).
  - intros a b r1 r2 H. destruct a, b. exact H.
  - intros k delta now a b [Ha Hb].
    destruct (resolve_keeps (controlPlayer k delta a CONTROLS.p1 now)
                (controlPlayer k delta b CONTROLS.p2 now))
      as [(_ & _ & _ & _ & _ & A1 & T1 & C1 & _) (_ & _ & _ & _ & _ & A2 & T2 & C2 & _)].
    cbv zeta in *. unfold attackCoherent. rewrite A1, T1, C1, A2, T2, C2.
    split; apply controlPlayer_attackCoherent; assumption.
Qed.

Lemma reachable_attack_fields_agree_witness :
  attackCoherent (App.p1 (fst afterAIFrame)) /\ attackCoherent (App.p2 (fst afterAIFrame)).
Proof.
  apply (reachable_attack_fields_agree (fst afterAIFrame)).
  apply Reach_frame, Reach_init.
Defined.

Lemma controlPlayer_vx k delta f control now :
  Fighter.vx (controlPlayer k delta f control now)
  = Fighter.vx (horizontal k control (blocking k control f)).
Proof.
  rewrite controlPlayer_phases.
  destruct (updateTimers_other_fields delta
              (integrate (attacks k control now (beforeAttacks k control f))))
    as (_ & Uvx & _).
  destruct (integrate_keeps (attacks k control now (beforeAttacks k control f)))
    as (_ & _ & _ & _ & _ & Ivx).
  destruct (attacks_other_fields k control now (beforeAttacks k control f))
    as (_ & _ & Avx & _).
  rewrite Uvx, Ivx, Avx. unfold beforeAttacks, jump. cbv zeta.
  destruct (_ && _); reflexivity.
Qed.

(** The horizontal rule of a step on the velocity alone. *)
Lemma horizontal_vx_cases k control f :
  let v' := Fighter.vx (horizontal k control (blocking k control f)) in
  (xorb (pressed k (Controls.left control)) (pressed k (Controls.right control)) = true
   /\ - MAX_SPEED <= v' /\ v' <= MAX_SPEED)
  \/ (xorb (pressed k (Controls.left control)) (pressed k (Controls.right control)) = false
      /\ (v' == 0 \/ v' == Fighter.vx f * FRICTION)).
Proof.
  unfold horizontal, blocking. cbv zeta.
  cbn [Fighter.vx Fighter.set_block Fighter.set_vx].
  assert (Hb : - MAX_SPEED <= MAX_SPEED) by (unfold MAX_SPEED; lra).
  destruct (pressed k (Controls.left control)), (pressed k (Controls.right control));
    cbn [andb negb xorb Fighter.vx Fighter.set_vx].
  - right. split; [reflexivity |].
    destruct (Qltb _ _); [left | right]; reflexivity.
  - left. split; [reflexivity |]. apply clamp_bounds, Hb.
  - left. split; [reflexivity |]. apply clamp_bounds, Hb.
  - right. split; [reflexivity |].
    destruct (Qltb _ _); [left | right]; reflexivity.
Qed.

Lemma handleHit_vx_change a d :
  -4 <= Fighter.vx (handleHit a d) - Fighter.vx d
  /\ Fighter.vx (handleHit a d) - Fighter.vx d <= 4.
Proof.
  unfold handleHit.
  destruct (Fighter.attackType a) as [ty |]; [| lra].
  destruct (negb (Fighter.attacking a)); [lra |].
  destruct (negb (Qltb 40 (Fighter.attackTimer a))); [lra |].
  cbv zeta. destruct (rectsOverlap _ _); [| lra].
  destruct (Fighter.block d), ty, (Fighter.facing a =? 1)%Z;
    cbn [Fighter.vx Fighter.set_vx Fighter.set_blockflash Fighter.set_hitflash
         Fighter.set_hp]; lra.
Qed.

Lemma resolve_vx a b :
  Fighter.vx (fst (resolve a b))
  = Fighter.vx (handleHit (snd (resolveFacing a b)) (fst (resolveFacing a b)))
  /\ Fighter.vx (snd (resolve a b))
     = Fighter.vx (handleHit (fst (resolveFacing a b)) (snd (resolveFacing a b))).
Proof.
  unfold resolve. destruct (resolveFacing a b) as [q1 q2]. cbn [fst snd].
  assert (Hind : handleHit (handleHit q1 q2) q1 = handleHit q2 q1).
  { destruct (handleHit_shape q1 q2) as (hp & hf & bf & vx & E).
    apply handleHit_attacker_ext; rewrite E; reflexivity. }
  rewrite Hind.
  destruct (separate_shape (handleHit q2 q1) (handleHit q1 q2)) as [E1 E2].
  rewrite E1, E2. split; reflexivity.
Qed.

Lemma controlPlayer_speed k delta f control now :
  speedBound f ->
  - (68 # 3) <= Fighter.vx (controlPlayer k delta f control now)
  /\ Fighter.vx (controlPlayer k delta f control now) <= 68 # 3.
Proof.
  intros [Lf Uf]. rewrite controlPlayer_vx.
  pose proof (horizontal_vx_cases k control f) as H. cbv zeta in H.
  revert H. generalize (Fighter.vx (horizontal k control (blocking k control f))).
  intros v H. unfold MAX_SPEED, FRICTION in H.
  destruct H as [(_ & H1 & H2) | (_ & [H | H])]; lra.
Qed.

Lemma vx_set_facing z f : Fighter.vx (Fighter.set_facing z f) = Fighter.vx f.
Proof. reflexivity. Qed.

Lemma speedBound_after_hit a q :
  - (68 # 3) <= Fighter.vx q /\ Fighter.vx q <= 68 # 3 -> speedBound (handleHit a q).
Proof.
  intros [L U]. pose proof (handleHit_vx_change a q) as [K1 K2].
  unfold speedBound. split; lra.
Qed.

(** X16. Horizontal speed stays bounded: in every reachable state each
    fighter's [vx] lies within 80/3 (about 26.7) either way.  A step leaves
    at most 5 with a direction key held and 85% of the old speed otherwise,
    and a frame adds at most one knockback of at most 4. *)
Theorem reachable_speed_is_bounded s :
  Reachable s -> speedBound (App.p1 s) /\ speedBound (App.p2 s).
Proof.
  apply (Reachable_fighters (fun a b => speedBound a /\ speedBound b)).
  - unfold speedBound. cbn [initialApp App.p1 App.p2 createFighter Fighter.vx].
    split; split; lra.
  - intros a b r1 r2 H. destruct a, b. exact H.
  - intros k delta now a b [Ha Hb].
    destruct (resolve_vx (controlPlayer k delta a CONTROLS.p1 now)
                (controlPlayer k delta b CONTROLS.p2 now)) as [E1 E2].
    pose proof (controlPlayer_speed k delta a CONTROLS.p1 now Ha) as S1.
    pose proof (controlPlayer_speed k delta b CONTROLS.p2 now Hb) as S2.
    unfold resolveFacing in E1, E2. cbn [fst snd] in E1, E2.
    split.
    + unfold speedBound. rewrite E1. apply speedBound_after_hit.
      rewrite vx_set_facing. exact S1.
    + unfold speedBound. rewrite E2. apply speedBound_after_hit.
      rewrite vx_set_facing. exact S2.
Qed.

Lemma reachable_speed_is_bounded_witness :
  speedBound (App.p1 (fst afterAIFrame)) /\ speedBound (App.p2 (fst afterAIFrame)).
Proof.
  apply (reachable_speed_is_bounded (fst afterAIFrame)).
  apply Reach_frame, Reach_init.
Defined.

(** ** The frame as a whole *)

Lemma countdown_settings delta p1 p2 s :
  App.mode (countdown delta p1 p2 s) = App.mode s
  /\ App.difficulty (countdown delta p1 p2 s) = App.difficulty s
  /\ App.paused (countdown delta p1 p2 s) = App.paused s
  /\ App.matchWinner (countdown delta p1 p2 s) = App.matchWinner s.
Proof.
  unfold countdown. destruct (Qltb 0 delta); [| repeat split].
  cbv zeta. destruct (Qleb _ 0); repeat split.
Qed.

Lemma checkKO_settings np1 np2 s :
  App.mode (checkKO np1 np2 s) = App.mode s
  /\ App.difficulty (checkKO np1 np2 s) = App.difficulty s
  /\ App.paused (checkKO np1 np2 s) = App.paused s
  /\ App.matchWinner (checkKO np1 np2 s) = App.matchWinner s.
Proof. unfold checkKO. destruct (_ || _); repeat split. Qed.

Lemma frameWrites_settings u delta np1 np2 s :
  App.mode (frameWrites u delta np1 np2 s) = App.mode s
  /\ App.difficulty (frameWrites u delta np1 np2 s) = App.difficulty s
  /\ App.paused (frameWrites u delta np1 np2 s) = App.paused s
  /\ App.matchWinner (frameWrites u delta np1 np2 s) = App.matchWinner s.
Proof.
  destruct u; cbn [frameWrites].
  - destruct (checkKO_settings np1 np2
                (setP2 (fun _ => np2)
                   (setP1 (fun _ => np1) (countdown delta (App.p1 s) (App.p2 s) s))))
      as (K1 & K2 & K3 & K4).
    destruct (countdown_settings delta (App.p1 s) (App.p2 s) s) as (C1 & C2 & C3 & C4).
    rewrite K1, K2, K3, K4. cbn [App.mode App.difficulty App.paused App.matchWinner
                                 setP1 setP2].
    repeat split; assumption.
  - destruct (countdown_settings delta (App.p1 s) (App.p2 s)
                (checkKO np1 np2 (setP2 (fun _ => np2) (setP1 (fun _ => np1) s))))
      as (C1 & C2 & C3 & C4).
    destruct (checkKO_settings np1 np2 (setP2 (fun _ => np2) (setP1 (fun _ => np1) s)))
      as (K1 & K2 & K3 & K4).
    rewrite C1, C2, C3, C4, K1, K2, K3, K4. repeat split.
Qed.

(** The state a running frame leaves, field by field. *)
Lemma frame_active_fields rnd u delta now s r :
  active s ->
  let s' := fst (frame rnd u delta now s r) in
  let c := countdown delta (App.p1 s) (App.p2 s) s in
  App.mode s' = App.mode s /\ App.difficulty s' = App.difficulty s
  /\ App.paused s' = App.paused s /\ App.matchWinner s' = App.matchWinner s
  /\ App.timer s' = App.timer c
  /\ ((Fighter.hp (App.p1 s') <= 0 \/ Fighter.hp (App.p2 s') <= 0)
      /\ App.roundOver s' = true
      \/ (0 < Fighter.hp (App.p1 s') /\ 0 < Fighter.hp (App.p2 s'))
         /\ App.roundOver s' = App.roundOver c
         /\ App.winnerRound s' = App.winnerRound c).
Proof.
  intros Ha s' c.
  pose proof (frame_active_state rnd u delta now s r Ha) as Hs. fold s' in Hs.
  remember (App.p1 s') as np1 eqn:E1. remember (App.p2 s') as np2 eqn:E2.
  destruct (frameWrites_settings u delta np1 np2 s) as (S1 & S2 & S3 & S4).
  pose proof (frameWrites_timer u delta np1 np2 s) as Ht.
  rewrite <- Hs in S1, S2, S3, S4, Ht.
  repeat (split; [assumption |]).
  destruct (Qlt_le_dec 0 (Fighter.hp np1)) as [H1 | H1];
    [destruct (Qlt_le_dec 0 (Fighter.hp np2)) as [H2 | H2] |].
  - right. split; [split; assumption |].
    rewrite Hs. apply frameWrites_no_KO; assumption.
  - left. split; [right; exact H2 |]. rewrite Hs. apply frameWrites_KO. right. exact H2.
  - left. split; [left; exact H1 |]. rewrite Hs. apply frameWrites_KO. left. exact H1.
Qed.

Lemma countdown_timer_range delta p1 p2 s :
  0 <= App.timer s ->
  0 <= App.timer (countdown delta p1 p2 s)
  /\ App.timer (countdown delta p1 p2 s) <= App.timer s.
Proof.
  intros Hnn. unfold countdown.
  destruct (Qltb 0 delta) eqn:Hd; [| split; lra].
  apply Qltb_lt in Hd. cbv zeta.
  assert (Hpos : 0 < delta / 1000).
  { apply Qlt_shift_div_l; lra. }
  destruct (Qleb (App.timer s - delta / 1000) 0) eqn:Hz;
    cbn [App.timer setTimer setRoundOver setWinnerRound].
  - split; lra.
  - apply Qleb_gt in Hz. split; lra.
Qed.

Lemma countdown_round_end delta p1 p2 s :
  App.roundOver (countdown delta p1 p2 s) = true
  \/ (App.roundOver (countdown delta p1 p2 s) = App.roundOver s
      /\ App.winnerRound (countdown delta p1 p2 s) = App.winnerRound s).
Proof.
  unfold countdown. destruct (Qltb 0 delta); [| right; split; reflexivity].
  cbv zeta. destruct (Qleb _ 0); [left | right; split]; reflexivity.
Qed.

(** X17. In every reachable state: while the round is running both
    fighters have positive hp; a round winner is only ever recorded
    together with [roundOver]; and the round timer lies between 0 and
    [ROUND_TIME]. *)
Theorem reachable_round_state_is_consistent s :
  Reachable s ->
  (App.roundOver s = false ->
   0 < Fighter.hp (App.p1 s) /\ 0 < Fighter.hp (App.p2 s))
  /\ (App.winnerRound s <> None -> App.roundOver s = true)
  /\ (0 <= App.timer s /\ App.timer s <= ROUND_TIME).
Proof.
  intros Hs.
  induction Hs as [| rnd u delta now s r Hs IH | c s Hs IH | c s Hs IH
                   | s Hs IH | m s Hs IH | d s Hs IH | s Hs IH].
  - split; [intros _; split; reflexivity |].
    split; [intros H; contradiction | split; vm_compute; discriminate].
  - destruct IH as (Ihp & Iw & It0 & It1).
    destruct (active_dec s) as [Ha | Hn];
      [| rewrite (frame_inactive _ _ _ _ _ _ Hn); repeat split; tauto].
    destruct (frame_active_fields rnd u delta now s r Ha)
      as (_ & _ & _ & _ & Ht & Hko).
    cbv zeta in Ht, Hko.
    destruct (countdown_timer_range delta (App.p1 s) (App.p2 s) s It0) as [T0 T1].
    split; [| split].
    + intros Hro.
      destruct Hko as [(_ & Hr) | (Hpos & _)]; [congruence | exact Hpos].
    + intros Hw.
      destruct Hko as [(_ & Hr) | (_ & Hr & Hwc)]; [exact Hr |].
      rewrite Hr. rewrite Hwc in Hw.
      destruct (countdown_round_end delta (App.p1 s) (App.p2 s) s)
        as [Hend | [Hsame Hwsame]]; [exact Hend |].
      rewrite Hsame. apply Iw. rewrite <- Hwsame. exact Hw.
    + rewrite Ht. split; lra.
  - destruct IH as (Ihp & Iw & It).
    unfold nextRound_click. destruct (App.winnerRound c) as [[|] |];
      repeat split; tauto.
  - split; [intros _; split; reflexivity |].
    split; [intros H; contradiction | split; vm_compute; discriminate].
  - split; [intros _; split; reflexivity |].
    split; [intros H; contradiction | split; vm_compute; discriminate].
  - exact IH.
  - exact IH.
  - exact IH.
Qed.

Lemma reachable_round_state_is_consistent_witness :
  (App.roundOver (fst afterAIFrame) = false ->
   0 < Fighter.hp (App.p1 (fst afterAIFrame))
   /\ 0 < Fighter.hp (App.p2 (fst afterAIFrame)))
  /\ (App.winnerRound (fst afterAIFrame) <> None -> App.roundOver (fst afterAIFrame) = true)
  /\ (0 <= App.timer (fst afterAIFrame) /\ App.timer (fst afterAIFrame) <= ROUND_TIME).
Proof.
  apply (reachable_round_state_is_consistent (fst afterAIFrame)).
  apply Reach_frame, Reach_init.
Defined.

Lemma Reachable_size s :
  Reachable s -> standardSize (App.p1 s) /\ standardSize (App.p2 s).
Proof.
  apply (Reachable_fighters (fun a b => standardSize a /\ standardSize b)).
  - split; apply standardSize_createFighter.
  - intros a b r1 r2 [Ha Hb]. destruct a, b. split; assumption.
  - intros k delta now a b [Sa Sb].
    destruct (resolve_keeps (controlPlayer k delta a CONTROLS.p1 now)
                (controlPlayer k delta b CONTROLS.p2 now))
      as [(_ & _ & _ & W1 & H1 & _) (_ & _ & _ & W2 & H2 & _)].
    cbv zeta in *.
    destruct (controlPlayer_keeps k delta a CONTROLS.p1 now) as (Wa & Ha & _).
    destruct (controlPlayer_keeps k delta b CONTROLS.p2 now) as (Wb & Hb & _).
    unfold standardSize in *. rewrite W1, H1, W2, H2, Wa, Ha, Wb, Hb.
    split; assumption.
Qed.

Lemma Reachable_alive s :
  Reachable s -> App.roundOver s = false ->
  0 < Fighter.hp (App.p1 s) /\ 0 < Fighter.hp (App.p2 s).
Proof.
  intros Hs.
  induction Hs as [| rnd u delta now s r Hs IH | c s Hs IH | c s Hs IH
                   | s Hs IH | m s Hs IH | d s Hs IH | s Hs IH]; intros Hr.
  - split; reflexivity.
  - destruct (active_dec s) as [Ha | Hn].
    + destruct (frame_active_fields rnd u delta now s r Ha)
        as (_ & _ & _ & _ & _ & Hko).
      cbv zeta in Hko.
      destruct Hko as [(_ & Hover) | (Hpos & _)]; [congruence | exact Hpos].
    + rewrite (frame_inactive _ _ _ _ _ _ Hn) in *. apply IH, Hr.
  - unfold nextRound_click in *.
    destruct (App.winnerRound c) as [[|] |]; apply IH, Hr.
  - split; reflexivity.
  - split; reflexivity.
  - apply IH, Hr.
  - apply IH, Hr.
  - apply IH, Hr.
Qed.

(** While its round runs, a reachable state has both fighters standing. *)
Lemma Reachable_standing s : Reachable s -> App.roundOver s = false -> standing s.
Proof.
  intros Hs Hr.
  destruct (Reachable_size s Hs) as [S1 S2].
  destruct (Reachable_alive s Hs Hr) as [A1 A2].
  split; split; assumption.
Qed.

Lemma frame_PvP_refs rnd u delta now s r :
  App.mode s = PvP -> snd (frame rnd u delta now s r) = r.
Proof.
  intros Hm. unfold frame.
  destruct (App.paused s || App.roundOver s || truthy (App.matchWinner s));
    [reflexivity |].
  cbv zeta. rewrite Hm. unfold bind, getKeys, ret.
  destruct (resolve _ _) as [np1 np2]. reflexivity.
Qed.

Lemma frame_rounds rnd u delta now s r :
  Fighter.rounds (App.p1 (fst (frame rnd u delta now s r))) = Fighter.rounds (App.p1 s)
  /\ Fighter.rounds (App.p2 (fst (frame rnd u delta now s r))) = Fighter.rounds (App.p2 s).
Proof.
  destruct (active_dec s) as [Ha | Hn];
    [| rewrite (frame_inactive _ _ _ _ _ _ Hn); split; reflexivity].
  rewrite (frame_active_p1 _ _ _ _ _ _ Ha), (frame_active_p2 _ _ _ _ _ _ Ha).
  unfold frameFighters.
  destruct (resolve_keeps (controlPlayer (keysRef r) delta (App.p1 s) CONTROLS.p1 now)
              (controlPlayer (keysRef r) delta (App.p2 s) CONTROLS.p2 now))
    as [(_ & _ & _ & _ & _ & _ & _ & _ & R1 & _) (_ & _ & _ & _ & _ & _ & _ & _ & R2 & _)].
  cbv zeta in R1, R2. rewrite R1, R2.
  destruct (controlPlayer_keeps (keysRef r) delta (App.p1 s) CONTROLS.p1 now)
    as (_ & _ & _ & K1).
  destruct (controlPlayer_keeps (keysRef r) delta (App.p2 s) CONTROLS.p2 now)
    as (_ & _ & _ & K2).
  split; assumption.
Qed.

(** X18. A frame never touches the match settings or the score: mode,
    difficulty, the pause flag, the match winner and both fighters' round
    counts are as before, and a timer that is not negative neither rises
    nor drops below 0.  While paused, after the round is over or once the
    match is won, the frame changes nothing at all, and in PvP mode it
    leaves the key state and the random source as they were. *)
Theorem frame_leaves_settings_and_score rnd u delta now s r :
  let s' := fst (frame rnd u delta now s r) in
  (App.mode s' = App.mode s /\ App.difficulty s' = App.difficulty s
   /\ App.paused s' = App.paused s /\ App.matchWinner s' = App.matchWinner s)
  /\ (Fighter.rounds (App.p1 s') = Fighter.rounds (App.p1 s)
      /\ Fighter.rounds (App.p2 s') = Fighter.rounds (App.p2 s))
  /\ (0 <= App.timer s -> 0 <= App.timer s' /\ App.timer s' <= App.timer s)
  /\ (App.paused s = true \/ App.roundOver s = true \/ App.matchWinner s <> None ->
      frame rnd u delta now s r = (s, r))
  /\ (App.mode s = PvP -> snd (frame rnd u delta now s r) = r).
Proof.
  intros s'. split; [| split; [| split; [| split]]].
  - destruct (active_dec s) as [Ha | Hn].
    + destruct (frame_active_fields rnd u delta now s r Ha) as (H1 & H2 & H3 & H4 & _).
      repeat split; assumption.
    + unfold s'. rewrite (frame_inactive _ _ _ _ _ _ Hn). repeat split.
  - apply frame_rounds.
  - intros Hnn. destruct (active_dec s) as [Ha | Hn].
    + destruct (frame_active_fields rnd u delta now s r Ha) as (_ & _ & _ & _ & Ht & _).
      cbv zeta in Ht. fold s' in Ht. rewrite Ht.
      apply countdown_timer_range, Hnn.
    + unfold s'. rewrite (frame_inactive _ _ _ _ _ _ Hn). cbn [fst]. split; lra.
  - intros Hoff. apply frame_inactive. intros (Hp & Hr & Hm).
    destruct Hoff as [H | [H | H]]; congruence.
  - apply frame_PvP_refs.
Qed.

Lemma frame_leaves_settings_and_score_witness :
  frame (fun _ => 0) InRender 16 1000 (setPaused negb initialApp) untouchedKeys
  = (setPaused negb initialApp, untouchedKeys)
  /\ snd (frame (fun _ => 0) InRender 16 1000 (setMode PvP initialApp) untouchedKeys)
     = untouchedKeys.
Proof.
  destruct (frame_leaves_settings_and_score (fun _ => 0) InRender 16 1000
              (setPaused negb initialApp) untouchedKeys) as (_ & _ & _ & Hoff & _).
  destruct (frame_leaves_settings_and_score (fun _ => 0) InRender 16 1000
              (setMode PvP initialApp) untouchedKeys) as (_ & _ & _ & _ & Hpvp).
  split; [apply Hoff; left; reflexivity | apply Hpvp; reflexivity].
Defined.

(** ** The AI's key map *)

Lemma wp_bind {A B : Type} (m : M A) (f : A -> M B) (Q : B -> Refs -> Prop) r :
  wp m (fun a r' => wp (f a) Q r') r -> wp (bind m f) Q r.
Proof. unfold wp, bind. destruct (m r) as [a r']. cbn [fst snd]. intros H. exact H. Qed.

Lemma wp_ret {A : Type} (a : A) (Q : A -> Refs -> Prop) r : Q a r -> wp (ret a) Q r.
Proof. intros H. exact H. Qed.

Lemma wp_getKeys (Q : Keys -> Refs -> Prop) r : Q (keysRef r) r -> wp getKeys Q r.
Proof. intros H. exact H. Qed.

Lemma wp_setKeys k (Q : unit -> Refs -> Prop) r :
  Q tt (mkRefs k (draws r)) -> wp (setKeys k) Q r.
Proof. intros H. exact H. Qed.

Lemma wp_random rnd (Q : Q -> Refs -> Prop) r :
  (forall q n, Q q (mkRefs (keysRef r) n)) -> wp (random rnd) Q r.
Proof. intros H. apply H. Qed.

Lemma wp_andRandomBelow rnd c p (Q : bool -> Refs -> Prop) r :
  (c = false -> Q false r) ->
  (c = true -> forall b n, Q b (mkRefs (keysRef r) n)) ->
  wp (andRandomBelow rnd c p) Q r.
Proof.
  intros Hf Ht. unfold andRandomBelow. destruct c.
  - apply wp_bind, wp_random. intros q n. apply wp_ret, Ht. reflexivity.
  - apply wp_ret, Hf. reflexivity.
Qed.

Lemma lookup_if (c : bool) (m1 m2 : Keys) key :
  (if c then m1 else m2) !! key = if c then m1 !! key else m2 !! key.
Proof. destruct c; reflexivity. Qed.

Lemma lookup_insert_eqb key b (m : Keys) key' :
  <[key := b]> m !! key' = if String.eqb key key' then Some b else m !! key'.
Proof.
  destruct (String.eqb_spec key key') as [-> | Hne].
  - apply lookup_insert_eq.
  - apply lookup_insert_ne, Hne.
Qed.

Lemma pressed_union (m1 m2 : Keys) key :
  pressed (m1 ∪ m2) key = default (pressed m2 key) (m1 !! key).
Proof.
  unfold pressed. rewrite lookup_union.
  destruct (m1 !! key), (m2 !! key); reflexivity.
Qed.

Lemma if_same {A : Type} (c : bool) (x : A) : (if c then x else x) = x.
Proof. destruct c; reflexivity. Qed.

Ltac eval_keys_in F :=
  rewrite ?lookup_if, ?lookup_insert_eqb in F;
  cbn [Controls.left Controls.right Controls.up Controls.down Controls.light
       Controls.heavy Controls.special CONTROLS.p2] in F;
  repeat match goal with
         | E : String.eqb _ _ = false |- _ => rewrite E in F
         end;
  cbn [String.eqb Ascii.eqb Bool.eqb] in F.

(** The lookup of [key] in the key map [v] just named by [Hv], from the
    lookups already known of the maps it is built from. *)
Ltac key_fact v Hv key :=
  let F := fresh "F" in
  pose proof (f_equal (fun m : Keys => m !! key) Hv) as F;
  cbv beta in F; eval_keys_in F;
  repeat match type of F with
         | context [?u !! key] =>
           match goal with
           | Hp : entry u key = _ |- _ =>
             change (u !! key) with (entry u key) in F; rewrite Hp in F
           end
         end;
  repeat rewrite if_same in F;
  match type of F with
  | ?l = _ => change l with (entry v key) in F
  end.

Ltac key_facts v Hv :=
  key_fact v Hv "ArrowLeft"%string; key_fact v Hv "ArrowRight"%string;
  key_fact v Hv "ArrowUp"%string; key_fact v Hv "ArrowDown"%string;
  key_fact v Hv "Numpad1"%string; key_fact v Hv "Numpad2"%string;
  key_fact v Hv "Numpad3"%string.

(** One step through [controlAI]: a bound value is named, not copied, and
    [facts] records what is known of a key map just named. *)
Ltac wp_step_with facts :=
  lazymatch goal with
  | |- wp (let x := ?e in @?b x) ?Q ?r =>
    let v := fresh "v" in
    let Hv := fresh "Hv" in
    pose (v := e); assert (Hv : v = e) by reflexivity;
    change (wp (b v) Q r); cbv beta; clearbody v;
    lazymatch type of v with
    | gmap string bool => facts v Hv
    | _ => idtac
    end
  | |- wp (let (_, _) := ?e in _) _ _ => destruct e
  | |- wp (bind _ _) _ _ => apply wp_bind
  | |- wp (random _) _ _ => apply wp_random; intros ? ?; cbv beta
  | |- wp (andRandomBelow _ _ _) _ _ =>
    apply wp_andRandomBelow; [intros ? | intros ? ? ?]; cbv beta
  | |- wp getKeys _ _ => apply wp_getKeys; cbv beta
  | |- wp (setKeys _) _ _ => apply wp_setKeys; cbv beta
  | |- wp (ret _) _ _ => apply wp_ret; cbv beta
  | |- wp (if ?c then _ else _) _ _ => destruct c eqn:?
  end;
  repeat match goal with
         | |- context [keysRef (mkRefs ?k ?n)] => change (keysRef (mkRefs k n)) with k
         | |- context [draws (mkRefs ?k ?n)] => change (draws (mkRefs k n)) with n
         end.

Ltac wp_step := wp_step_with key_facts.

(** Evaluate the intents of the goal from the known entries. *)
Ltac ai_lookups :=
  cbv beta zeta; rewrite ?pressed_union, ?lookup_insert_eqb;
  cbn [String.eqb Ascii.eqb Bool.eqb Controls.left Controls.right Controls.up
       Controls.down Controls.light Controls.heavy Controls.special CONTROLS.p2];
  repeat match goal with
         | Hp : entry ?u ?key = _ |- context [?u !! ?key] =>
           change (u !! key) with (entry u key); rewrite Hp
         end;
  repeat match goal with
         | H : entry _ _ = _ |- _ => clear H
         | H : ?v = _ |- _ =>
           lazymatch type of v with gmap string bool => clear H end
         end.

Ltac ai_leaf :=
  repeat split; intros;
  repeat match goal with
         | H : context [if ?c then _ else _] |- _ => destruct c eqn:?
         | |- context [if ?c then _ else _] => destruct c eqn:?
         end;
  cbn [default andb orb] in *; subst;
  repeat match goal with
         | H : _ && _ = true |- _ => apply andb_true_iff in H as [? ?]
         end;
  first [ reflexivity | discriminate | congruence | assumption ].

(** What the AI's key map says, as a postcondition of [controlAI]. *)
Lemma controlAI_intents_wp rnd k delta difficulty f enemy now r :
  wp (controlAI rnd k delta difficulty f enemy now)
     (fun _ r' =>
        let P := pressed (keysRef r') in
        P (Controls.left CONTROLS.p2) && P (Controls.right CONTROLS.p2) = false
        /\ P (Controls.light CONTROLS.p2) && P (Controls.heavy CONTROLS.p2) = false
        /\ P (Controls.light CONTROLS.p2) && P (Controls.special CONTROLS.p2) = false
        /\ P (Controls.heavy CONTROLS.p2) && P (Controls.special CONTROLS.p2) = false
        /\ (Qleb (Cooldowns.light (Fighter.cooldowns f)) now
            && Qleb (Cooldowns.heavy (Fighter.cooldowns f)) now
            && Qleb (Cooldowns.special (Fighter.cooldowns f)) now
            && negb (Fighter.attacking f) = false ->
            P (Controls.light CONTROLS.p2) = false
            /\ P (Controls.heavy CONTROLS.p2) = false
            /\ P (Controls.special CONTROLS.p2) = false)
        /\ (P (Controls.up CONTROLS.p2) = true -> negb (Fighter.onGround f) = true)
        /\ (P (Controls.down CONTROLS.p2) = true ->
            Fighter.attacking enemy = true
            /\ Qltb (Qabs (Fighter.x enemy - Fighter.x f)) 100 = true)) r.
Proof.
  cbv beta delta [controlAI].
  repeat wp_step.
  all: ai_lookups.
  all: ai_leaf.
Qed.

(** X19. Whatever the AI decides, its key map presses neither both
    directions nor two attacks at once; it presses no attack while its
    fighter is attacking or any of the three cooldowns is pending, jump
    only for an airborne fighter, and block only against an opponent that
    is attacking less than 100 away. *)
Theorem controlAI_intents_are_consistent rnd k delta difficulty f enemy now r :
  let k' := keysRef (snd (controlAI rnd k delta difficulty f enemy now r)) in
  let P := fun key : Controls.t -> string => pressed k' (key CONTROLS.p2) in
  ~ (P Controls.left = true /\ P Controls.right = true)
  /\ ~ (P Controls.light = true /\ P Controls.heavy = true)
  /\ ~ (P Controls.light = true /\ P Controls.special = true)
  /\ ~ (P Controls.heavy = true /\ P Controls.special = true)
  /\ (Fighter.attacking f = true
      \/ now < Cooldowns.light (Fighter.cooldowns f)
      \/ now < Cooldowns.heavy (Fighter.cooldowns f)
      \/ now < Cooldowns.special (Fighter.cooldowns f) ->
      P Controls.light = false /\ P Controls.heavy = false
      /\ P Controls.special = false)
  /\ (P Controls.up = true -> Fighter.onGround f = false)
  /\ (P Controls.down = true ->
      Fighter.attacking enemy = true
      /\ Qabs (Fighter.x enemy - Fighter.x f) < 100).
Proof.
  pose proof (controlAI_intents_wp rnd k delta difficulty f enemy now r) as H.
  unfold wp in H. cbv beta zeta in H.
  destruct H as (H1 & H2 & H3 & H4 & H5 & H6 & H7).
  cbv zeta. cbv beta.
  set (k' := keysRef (snd (controlAI rnd k delta difficulty f enemy now r))) in *.
  clearbody k'.
  split; [intros [A B]; rewrite A, B in H1; discriminate |].
  split; [intros [A B]; rewrite A, B in H2; discriminate |].
  split; [intros [A B]; rewrite A, B in H3; discriminate |].
  split; [intros [A B]; rewrite A, B in H4; discriminate |].
  split.
  { intros Hbusy. apply H5.
    destruct Hbusy as [Ha | [Hc | [Hc | Hc]]].
    - rewrite Ha. apply andb_false_r.
    - apply Qleb_gt in Hc. rewrite Hc. reflexivity.
    - apply Qleb_gt in Hc. rewrite Hc, andb_false_r. reflexivity.
    - apply Qleb_gt in Hc. rewrite Hc, andb_false_r. reflexivity. }
  split; [intros Hup; apply negb_true_iff, H6, Hup |].
  intros Hdown. destruct (H7 Hdown) as [Ha Hd]. split; [exact Ha | apply Qltb_lt, Hd].
Qed.

Lemma controlAI_intents_are_consistent_witness :
  let k' := keysRef (snd (controlAI (fun _ => 0) ∅ 16 Normal
                            (Fighter.set_attacking true (App.p2 initialApp))
                            (App.p1 initialApp) 1000 untouchedKeys)) in
  pressed k' (Controls.light CONTROLS.p2) = false
  /\ pressed k' (Controls.heavy CONTROLS.p2) = false
  /\ pressed k' (Controls.special CONTROLS.p2) = false.
Proof.
  destruct (controlAI_intents_are_consistent (fun _ => 0) ∅ 16 Normal
              (Fighter.set_attacking true (App.p2 initialApp))
              (App.p1 initialApp) 1000 untouchedKeys) as (_ & _ & _ & _ & Hbusy & _).
  apply Hbusy. left. reflexivity.
Defined.

Ltac other_key_leaf :=
  rewrite lookup_union, ?lookup_insert_eqb;
  cbn [Controls.left Controls.right Controls.up Controls.down Controls.light
       Controls.heavy Controls.special CONTROLS.p2];
  repeat match goal with
         | E : String.eqb _ _ = false |- _ => rewrite E
         end;
  repeat match goal with
         | Hp : entry ?u ?k = _ |- context [?u !! ?k] =>
           change (u !! k) with (entry u k); rewrite Hp
         end;
  match goal with
  | |- ?o ∪ ?o = ?o => destruct o; reflexivity
  end.

Lemma controlAI_other_keys_wp rnd k delta difficulty f enemy now r key :
  ~ isP2Key key ->
  wp (controlAI rnd k delta difficulty f enemy now)
     (fun _ r' => keysRef r' !! key = keysRef r !! key) r.
Proof.
  intros Hk.
  assert (E1 : String.eqb "ArrowLeft" key = false)
    by (apply String.eqb_neq; intros <-; apply Hk; unfold isP2Key; tauto).
  assert (E2 : String.eqb "ArrowRight" key = false)
    by (apply String.eqb_neq; intros <-; apply Hk; unfold isP2Key; tauto).
  assert (E3 : String.eqb "ArrowUp" key = false)
    by (apply String.eqb_neq; intros <-; apply Hk; unfold isP2Key; tauto).
  assert (E4 : String.eqb "ArrowDown" key = false)
    by (apply String.eqb_neq; intros <-; apply Hk; unfold isP2Key; tauto).
  assert (E5 : String.eqb "Numpad1" key = false)
    by (apply String.eqb_neq; intros <-; apply Hk; unfold isP2Key; tauto).
  assert (E6 : String.eqb "Numpad2" key = false)
    by (apply String.eqb_neq; intros <-; apply Hk; unfold isP2Key; tauto).
  assert (E7 : String.eqb "Numpad3" key = false)
    by (apply String.eqb_neq; intros <-; apply Hk; unfold isP2Key; tauto).
  clear Hk.
  cbv beta delta [controlAI].
  repeat wp_step_with ltac:(fun v Hv => key_fact v Hv key).
  all: other_key_leaf.
Qed.

Lemma wp_mono {A : Type} (m : M A) (Q Q' : A -> Refs -> Prop) r :
  wp m Q r -> (forall a r', Q a r' -> Q' a r') -> wp m Q' r.
Proof. unfold wp. intros H HQ. apply HQ, H. Qed.

(** X20. A frame writes no key but Player 2's: in either mode and on any
    render, the entry of every key outside Player 2's control scheme is
    after the frame what it was before, so the AI can never press or
    release a key of Player 1. *)
Theorem frame_touches_only_player2_keys rnd u delta now s r key :
  ~ isP2Key key ->
  keysRef (snd (frame rnd u delta now s r)) !! key = keysRef r !! key.
Proof.
  intros Hk.
  change (wp (frame rnd u delta now s) (fun _ r' => keysRef r' !! key = keysRef r !! key) r).
  unfold frame.
  destruct (App.paused s || App.roundOver s || truthy (App.matchWinner s));
    [apply wp_ret; reflexivity |].
  cbv zeta. apply wp_bind, wp_getKeys, wp_bind.
  destruct (App.mode s).
  - apply wp_ret. destruct (resolve _ _) as [np1 np2]. apply wp_ret. reflexivity.
  - apply (wp_mono _ _ _ _ (controlAI_other_keys_wp rnd (keysRef r) delta
                              (App.difficulty s) (App.p2 s) (App.p1 s) now r key Hk)).
    intros a r' Hr'. destruct (resolve _ _) as [np1 np2]. apply wp_ret. exact Hr'.
Qed.

Lemma frame_touches_only_player2_keys_witness :
  keysRef (snd (frame (fun _ => 0) AtCall 16 1000 initialApp
                  (mkRefs (onKeyDown "d" ∅) 0))) !! "d"%string
  = Some true.
Proof.
  rewrite (frame_touches_only_player2_keys (fun _ => 0) AtCall 16 1000 initialApp
             (mkRefs (onKeyDown "d" ∅) 0) "d").
  - reflexivity.
  - unfold isP2Key. cbn. intros H.
    repeat (destruct H as [H | H]; [discriminate H |]). discriminate H.
Defined.

(** ** Key events *)

(** X21. A key event sets the entry of its own key and of no other: after
    a keydown the key reads as pressed and after a keyup as released,
    whatever came before; only the last event of a key counts; and a key
    that never had an event reads as released. *)
Theorem key_events_set_their_own_key key key' k :
  pressed (onKeyDown key k) key = true
  /\ pressed (onKeyUp key k) key = false
  /\ (key' <> key ->
      pressed (onKeyDown key k) key' = pressed k key'
      /\ pressed (onKeyUp key k) key' = pressed k key')
  /\ onKeyUp key (onKeyDown key k) = onKeyUp key k
  /\ onKeyDown key (onKeyUp key k) = onKeyDown key k
  /\ pressed ∅ key = false.
Proof.
  unfold pressed, onKeyDown, onKeyUp.
  split; [rewrite lookup_insert_eq; reflexivity |].
  split; [rewrite lookup_insert_eq; reflexivity |].
  split.
  { intros Hne. split; rewrite lookup_insert_ne by congruence; reflexivity. }
  split; [apply insert_insert_eq |].
  split; [apply insert_insert_eq |].
  rewrite lookup_empty. reflexivity.
Qed.

Lemma key_events_set_their_own_key_witness :
  pressed (onKeyDown "a" (onKeyDown "d" ∅)) "d" = pressed (onKeyDown "d" ∅) "d"
  /\ pressed (onKeyUp "a" (onKeyDown "d" ∅)) "d" = pressed (onKeyDown "d" ∅) "d".
Proof.
  destruct (key_events_set_their_own_key "a" "d" (onKeyDown "d" ∅))
    as (_ & _ & H & _).
  apply H. discriminate.
Defined.

(** ** Round transitions *)

(** X22. [checkChampion] names a champion exactly when a round count has
    reached [WIN_ROUNDS], and Player 1 whenever Player 1's has, whatever
    Player 2's. *)
Theorem checkChampion_first_to_win_rounds r1 r2 :
  (checkChampion r1 r2 = Some Player1 <-> (WIN_ROUNDS <= r1)%Z)
  /\ (checkChampion r1 r2 = Some Player2 <-> (r1 < WIN_ROUNDS /\ WIN_ROUNDS <= r2)%Z)
  /\ (checkChampion r1 r2 = None <-> (r1 < WIN_ROUNDS /\ r2 < WIN_ROUNDS)%Z).
Proof.
  unfold checkChampion.
  destruct (Z.leb_spec WIN_ROUNDS r1) as [H1 | H1];
    [| destruct (Z.leb_spec WIN_ROUNDS r2) as [H2 | H2]];
    repeat split; intros; try discriminate; try lia; try reflexivity.
Qed.

(** X23. "Reset Match" forgets the match: its result is the state of the
    first render with the mode, the difficulty and the pause flag of the
    state it is applied to.  So it undoes any frame and any "Next Round",
    doing it twice is doing it once, and a paused game is still paused
    after it. *)
Theorem resetMatch_is_the_first_render s :
  resetMatch s
  = setPaused (fun _ => App.paused s)
      (setDifficulty (App.difficulty s) (setMode (App.mode s) initialApp))
  /\ resetMatch (resetMatch s) = resetMatch s
  /\ resetMatch (nextRound s) = resetMatch s
  /\ (forall rnd u delta now r, resetMatch (fst (frame rnd u delta now s r)) = resetMatch s)
  /\ resetMatch initialApp = initialApp.
Proof.
  assert (Hdep : forall a b, App.mode a = App.mode b ->
            App.difficulty a = App.difficulty b -> App.paused a = App.paused b ->
            resetMatch a = resetMatch b).
  { intros a b Hm Hd Hp. unfold resetMatch, setP1, setP2, setTimer, setRoundOver,
      setWinnerRound, setMatchWinner. cbn [App.mode App.difficulty App.paused
      App.p1 App.p2 App.timer App.roundOver App.winnerRound App.matchWinner].
    rewrite Hm, Hd, Hp. reflexivity. }
  split; [destruct s; reflexivity |].
  split; [apply Hdep; reflexivity |].
  split.
  { apply Hdep; unfold nextRound, nextRound_timeout, nextRound_click;
      destruct (App.winnerRound s) as [[|] |]; reflexivity. }
  split; [| reflexivity].
  intros rnd u delta now r.
  destruct (active_dec s) as [Ha | Hn];
    [| rewrite (frame_inactive _ _ _ _ _ _ Hn); reflexivity].
  destruct (frame_active_fields rnd u delta now s r Ha) as (Hm & Hd & Hp & _).
  apply Hdep; assumption.
Qed.

(** ** The score over whole actions *)

(** X24. When every "Next Round" click is followed by its timeout before
    anything else happens, the score never favours Player 1: on every
    state between two actions Player 1's round count is 0 and Player 2's
    is even, the match winner is never Player 1 and is Player 2 only with
    a round count of at least 2, and [matchPoint] is false. *)
Theorem played_score_never_favours_player1 s :
  Played s ->
  Fighter.rounds (App.p1 s) = 0%Z
  /\ (Z.even (Fighter.rounds (App.p2 s)) = true /\ (0 <= Fighter.rounds (App.p2 s))%Z)
  /\ App.matchWinner s <> Some Player1
  /\ (App.matchWinner s = Some Player2 -> (2 <= Fighter.rounds (App.p2 s))%Z)
  /\ matchPoint s = false.
Proof.
  intros Hs.
  assert (Hmp : forall t, Fighter.rounds (App.p1 t) = 0%Z ->
            Z.even (Fighter.rounds (App.p2 t)) = true -> matchPoint t = false).
  { intros t H1 H2. unfold matchPoint. rewrite H1.
    destruct (Z.eqb_spec (Fighter.rounds (App.p2 t)) (WIN_ROUNDS - 1)) as [E | E].
    - rewrite E in H2. discriminate H2.
    - reflexivity. }
  assert (Hcore : Fighter.rounds (App.p1 s) = 0%Z
            /\ (Z.even (Fighter.rounds (App.p2 s)) = true
                /\ (0 <= Fighter.rounds (App.p2 s))%Z)
            /\ App.matchWinner s <> Some Player1
            /\ (App.matchWinner s = Some Player2 -> (2 <= Fighter.rounds (App.p2 s))%Z)).
  { induction Hs as [| rnd u delta now s r Hs IH | s Hs IH | s Hs IH
                     | m s Hs IH | d s Hs IH | s Hs IH].
    - repeat split; try reflexivity; try discriminate.
    - destruct IH as (I1 & I2 & I3 & I4).
      destruct (frame_rounds rnd u delta now s r) as [R1 R2].
      destruct (active_dec s) as [Ha | Hn];
        [| rewrite (frame_inactive _ _ _ _ _ _ Hn); repeat split; tauto].
      destruct (frame_active_fields rnd u delta now s r Ha) as (_ & _ & _ & Hw & _).
      rewrite R1, R2, Hw. repeat split; tauto.
    - destruct IH as (I1 & (I2 & I2') & I3 & I4).
      unfold nextRound, nextRound_timeout, nextRound_click.
      destruct (App.winnerRound s) as [[|] |];
        cbn [App.p1 App.p2 App.matchWinner setP1 setP2 setTimer setRoundOver
             setWinnerRound setMatchWinner Fighter.rounds Fighter.set_rounds
             createFighter];
        rewrite ?I1; unfold checkChampion; change WIN_ROUNDS with 2%Z;
        change (2 <=? 0 + 1)%Z with false; change (2 <=? 0)%Z with false; cbv iota;
        (split; [reflexivity |]);
        (split; [split; [| lia] |]);
        try assumption;
        try (replace (Fighter.rounds (App.p2 s) + 1 + 1)%Z
               with (Z.succ (Z.succ (Fighter.rounds (App.p2 s)))) by lia;
             rewrite Z.even_succ_succ; assumption);
        match goal with
        | |- context [(2 <=? ?z)%Z] => destruct (Z.leb_spec 2 z)
        end;
        cbv iota;
        (split; [intros E; discriminate E | intros E; first [lia | discriminate E]]).
    - repeat split; try reflexivity; try discriminate.
    - exact IH.
    - exact IH.
    - exact IH. }
  destruct Hcore as (H1 & (H2 & H2') & H3 & H4).
  repeat split; try assumption. apply Hmp; assumption.
Qed.

Lemma played_score_never_favours_player1_witness :
  Fighter.rounds (App.p1 (nextRound (fst afterAIFrame))) = 0%Z
  /\ (Z.even (Fighter.rounds (App.p2 (nextRound (fst afterAIFrame)))) = true
      /\ (0 <= Fighter.rounds (App.p2 (nextRound (fst afterAIFrame))))%Z)
  /\ App.matchWinner (nextRound (fst afterAIFrame)) <> Some Player1
  /\ (App.matchWinner (nextRound (fst afterAIFrame)) = Some Player2 ->
      (2 <= Fighter.rounds (App.p2 (nextRound (fst afterAIFrame))))%Z)
  /\ matchPoint (nextRound (fst afterAIFrame)) = false.
Proof.
  apply (played_score_never_favours_player1 (nextRound (fst afterAIFrame))).
  apply Play_nextRound, Play_frame, Play_init.
Defined.

(** ** Body separation *)

Lemma separate_x a b :
  let half := (Fighter.width a + Fighter.width b) / 2 in
  let dist := Qabs (Fighter.x a - Fighter.x b) in
  let push := (half - dist) / 2 + 0.1 in
  (half <= dist /\ separate a b = (a, b))
  \/ (dist < half /\ Fighter.x a < Fighter.x b
      /\ Fighter.x (fst (separate a b)) = clamp (Fighter.x a - push) 24 (ARENA_WIDTH - 24)
      /\ Fighter.x (snd (separate a b)) = clamp (Fighter.x b + push) 24 (ARENA_WIDTH - 24))
  \/ (dist < half /\ Fighter.x b <= Fighter.x a
      /\ Fighter.x (fst (separate a b)) = clamp (Fighter.x a + push) 24 (ARENA_WIDTH - 24)
      /\ Fighter.x (snd (separate a b)) = clamp (Fighter.x b - push) 24 (ARENA_WIDTH - 24)).
Proof.
  intros half dist push. unfold separate. cbv zeta. fold half. fold dist.
  destruct (Qltb dist half) eqn:Hd.
  - apply Qltb_lt in Hd.
    assert (Hpos : Qltb 0 (half - dist) = true) by (apply Qltb_lt; lra).
    rewrite Hpos. right.
    destruct (Qltb (Fighter.x a) (Fighter.x b)) eqn:Hx.
    + apply Qltb_lt in Hx. left. cbn [fst snd Fighter.x Fighter.set_x].
      repeat split; assumption.
    + apply Qltb_ge in Hx. right. cbn [fst snd Fighter.x Fighter.set_x].
      repeat split; assumption.
  - apply Qltb_ge in Hd. left. split; [exact Hd | reflexivity].
Qed.

Lemma Qabs_cases x : (0 <= x /\ Qabs x == x) \/ (x <= 0 /\ Qabs x == - x).
Proof.
  apply (Qabs_case x (fun y => (0 <= x /\ y == x) \/ (x <= 0 /\ y == - x))).
  - intros H. left. split; [exact H | reflexivity].
  - intros H. right. split; [exact H | reflexivity].
Qed.

(** X25. The separation of two fighters inside the arena moves each away
    from the other or not at all, so they are never closer after it than
    before and never change sides; bodies that did not overlap are left as
    they were; and after it the bodies no longer overlap unless a fighter
    is stopped by an arena wall. *)
Theorem separate_pushes_apart a b :
  xInArena a -> xInArena b ->
  let a' := fst (separate a b) in
  let b' := snd (separate a b) in
  let half := (Fighter.width a + Fighter.width b) / 2 in
  (Fighter.x a < Fighter.x b ->
   Fighter.x a' <= Fighter.x a /\ Fighter.x b <= Fighter.x b')
  /\ (Fighter.x b <= Fighter.x a ->
      Fighter.x a <= Fighter.x a' /\ Fighter.x b' <= Fighter.x b)
  /\ Qabs (Fighter.x a - Fighter.x b) <= Qabs (Fighter.x a' - Fighter.x b')
  /\ (half <= Qabs (Fighter.x a - Fighter.x b) -> separate a b = (a, b))
  /\ (half <= Qabs (Fighter.x a' - Fighter.x b')
      \/ Fighter.x a' == 24 \/ Fighter.x b' == 24
      \/ Fighter.x a' == ARENA_WIDTH - 24 \/ Fighter.x b' == ARENA_WIDTH - 24).
Proof.
  intros [La Ha] [Lb Hb] a' b' half.
  unfold ARENA_WIDTH in *.
  destruct (separate_x a b) as [[Hd E] | [(Hd & Hx & Ea & Eb) | (Hd & Hx & Ea & Eb)]];
    cbv zeta in *; fold half in Hd; try fold half in Ea; try fold half in Eb.
  - unfold a', b'. rewrite E. cbn [fst snd].
    split; [intros _; split; apply Qle_refl |].
    split; [intros _; split; apply Qle_refl |].
    split; [apply Qle_refl |].
    split; [intros _; reflexivity |].
    left. exact Hd.
  - fold a' in Ea. fold b' in Eb. unfold ARENA_WIDTH in *.
    set (push := (half - Qabs (Fighter.x a - Fighter.x b)) / 2 + 0.1) in *.
    assert (Hp : 2 * push == half - Qabs (Fighter.x a - Fighter.x b) + 0.2)
      by (unfold push; field).
    clearbody push.
    destruct (Qabs_cases (Fighter.x a - Fighter.x b)) as [[S1 A1] | [S1 A1]];
      [exfalso; lra |].
    rewrite A1 in Hd, Hp |- *.
    assert (Ga : Fighter.x a' <= Fighter.x a
                 /\ (Fighter.x a' == Fighter.x a - push \/ Fighter.x a' == 24)).
    { rewrite Ea.
      destruct (clamp_cases (Fighter.x a - push) 24 (960 - 24))
        as [(C1 & C2 & C3) | [(C1 & C2 & C3) | [(C1 & C2 & C3) | (C1 & C2 & C3)]]];
        rewrite C3; split; try lra; try (left; reflexivity); right; reflexivity. }
    assert (Gb : Fighter.x b <= Fighter.x b'
                 /\ (Fighter.x b' == Fighter.x b + push \/ Fighter.x b' == 960 - 24)).
    { rewrite Eb.
      destruct (clamp_cases (Fighter.x b + push) 24 (960 - 24))
        as [(C1 & C2 & C3) | [(C1 & C2 & C3) | [(C1 & C2 & C3) | (C1 & C2 & C3)]]];
        rewrite C3; split; try lra; try (left; reflexivity); right; reflexivity. }
    destruct Ga as [Ga Ga'], Gb as [Gb Gb'].
    destruct (Qabs_cases (Fighter.x a' - Fighter.x b')) as [[S2 A2] | [S2 A2]];
      rewrite A2.
    + exfalso; lra.
    + split; [intros _; split; assumption |].
      split; [intros Hc; exfalso; lra |].
      split; [lra |].
      split; [intros Hc; exfalso; lra |].
      destruct Ga' as [Ga' | Ga']; [| right; left; exact Ga'].
      destruct Gb' as [Gb' | Gb']; [| right; right; right; right; exact Gb'].
      left. lra.
  - fold a' in Ea. fold b' in Eb. unfold ARENA_WIDTH in *.
    set (push := (half - Qabs (Fighter.x a - Fighter.x b)) / 2 + 0.1) in *.
    assert (Hp : 2 * push == half - Qabs (Fighter.x a - Fighter.x b) + 0.2)
      by (unfold push; field).
    clearbody push.
    assert (A1 : Qabs (Fighter.x a - Fighter.x b) == Fighter.x a - Fighter.x b)
      by (apply Qabs_pos; lra).
    rewrite A1 in Hd, Hp |- *.
    assert (Ga : Fighter.x a <= Fighter.x a'
                 /\ (Fighter.x a' == Fighter.x a + push \/ Fighter.x a' == 960 - 24)).
    { rewrite Ea.
      destruct (clamp_cases (Fighter.x a + push) 24 (960 - 24))
        as [(C1 & C2 & C3) | [(C1 & C2 & C3) | [(C1 & C2 & C3) | (C1 & C2 & C3)]]];
        rewrite C3; split; try lra; try (left; reflexivity); right; reflexivity. }
    assert (Gb : Fighter.x b' <= Fighter.x b
                 /\ (Fighter.x b' == Fighter.x b - push \/ Fighter.x b' == 24)).
    { rewrite Eb.
      destruct (clamp_cases (Fighter.x b - push) 24 (960 - 24))
        as [(C1 & C2 & C3) | [(C1 & C2 & C3) | [(C1 & C2 & C3) | (C1 & C2 & C3)]]];
        rewrite C3; split; try lra; try (left; reflexivity); right; reflexivity. }
    destruct Ga as [Ga Ga'], Gb as [Gb Gb'].
    assert (A2 : Qabs (Fighter.x a' - Fighter.x b') == Fighter.x a' - Fighter.x b')
      by (apply Qabs_pos; lra).
    rewrite A2.
    split; [intros Hc; exfalso; lra |].
    split; [intros _; split; assumption |].
    split; [lra |].
    split; [intros Hc; exfalso; lra |].
    destruct Ga' as [Ga' | Ga']; [| right; right; right; left; exact Ga'].
    destruct Gb' as [Gb' | Gb']; [| right; right; left; exact Gb'].
    left. lra.
Qed.

Lemma separate_pushes_apart_witness :
  let a := createFighter 300 1 "blue" in
  let b := createFighter 320 (-1) "amber" in
  Qabs (Fighter.x a - Fighter.x b)
  <= Qabs (Fighter.x (fst (separate a b)) - Fighter.x (snd (separate a b)))
  /\ Fighter.x (fst (separate a b)) <= 300
  /\ 320 <= Fighter.x (snd (separate a b)).
Proof.
  intros a b.
  assert (Ha : xInArena a) by (split; vm_compute; discriminate).
  assert (Hb : xInArena b) by (split; vm_compute; discriminate).
  destruct (separate_pushes_apart a b Ha Hb) as (Hl & _ & Hd & _).
  split; [exact Hd |].
  apply Hl. vm_compute. reflexivity.
Defined.

(** ** The round clock *)

Lemma activeb_active s : activeb s = true <-> active s.
Proof.
  unfold activeb, active.
  destruct (App.paused s), (App.roundOver s), (App.matchWinner s); cbn;
    split; intros H; try discriminate H; try reflexivity;
    try (destruct H as (? & ? & ?); discriminate); repeat split.
Qed.

Lemma handle_roundOver rnd e l :
  App.matchWinner (Loop.app (handle rnd e l)) = App.matchWinner (Loop.app l)
  /\ (App.roundOver (Loop.app l) = true ->
      App.roundOver (Loop.app (handle rnd e l)) = true).
Proof.
  destruct e as [u time now |]; cbn [handle]; [| split; [reflexivity | intros H; exact H]].
  destruct (activeb (Loop.app l)) eqn:Ha; [| split; [reflexivity | intros H; exact H]].
  apply activeb_active in Ha. unfold loop. cbv zeta.
  destruct (frame_active_fields rnd u (time - Loop.lastRef l) now (Loop.app l)
              (Loop.refs l) Ha) as (_ & _ & _ & Hw & _).
  destruct (frame rnd u _ now (Loop.app l) (Loop.refs l)) as [s r].
  cbn [fst Loop.app] in *.
  split; [exact Hw |].
  intros Hr. destruct Ha as (_ & Hr' & _). congruence.
Qed.

Lemma run_roundOver rnd es l :
  App.matchWinner (Loop.app (run rnd es l)) = App.matchWinner (Loop.app l)
  /\ (App.roundOver (Loop.app l) = true ->
      App.roundOver (Loop.app (run rnd es l)) = true).
Proof.
  revert l. induction es as [| e es IH]; intros l; [split; [reflexivity | tauto] |].
  cbn [run fold_left]. fold (run rnd es (handle rnd e l)).
  destruct (IH (handle rnd e l)) as [I1 I2].
  destruct (handle_roundOver rnd e l) as [H1 H2].
  split; [congruence | intros Hr; apply I2, H2, Hr].
Qed.

(** What one event does to the timer, when it does not end the round. *)
Lemma handle_clock rnd e l t0 :
  Loop.lastRef l <= t0 -> inOrder t0 [e] ->
  App.roundOver (Loop.app (handle rnd e l)) = false ->
  Loop.lastRef l <= Loop.lastRef (handle rnd e l)
  /\ App.timer (Loop.app (handle rnd e l))
     == App.timer (Loop.app l) - (Loop.lastRef (handle rnd e l) - Loop.lastRef l) / 1000.
Proof.
  intros Hl Ho Hr.
  destruct e as [u time now |]; cbn [handle] in *.
  - destruct Ho as [Ho _].
    destruct (activeb (Loop.app l)) eqn:Ha.
    + apply activeb_active in Ha. unfold loop in *. cbv zeta in *.
      destruct (frame_active_fields rnd u (time - Loop.lastRef l) now (Loop.app l)
                  (Loop.refs l) Ha) as (_ & _ & _ & _ & Ht & Hko).
      destruct (frame rnd u _ now (Loop.app l) (Loop.refs l)) as [s r].
      cbn [fst Loop.app Loop.lastRef] in *.
      split; [lra |].
      rewrite Ht.
      destruct Hko as [(_ & Hc) | (_ & Hc & _)]; [congruence |].
      rewrite Hr in Hc. symmetry in Hc.
      unfold countdown in *.
      destruct (Qltb 0 (time - Loop.lastRef l)) eqn:Hd.
      * cbv zeta in *.
        destruct (Qleb (App.timer (Loop.app l) - (time - Loop.lastRef l) / 1000) 0);
          [discriminate Hc | reflexivity].
      * apply Qltb_ge in Hd.
        assert (E : time - Loop.lastRef l == 0) by lra.
        rewrite E. unfold Qdiv. ring.
    + split; [apply Qle_refl |].
      unfold Qdiv. ring.
  - cbn [Loop.app Loop.lastRef App.timer setPaused].
    split; [apply Qle_refl |].
    unfold Qdiv. ring.
Qed.

Lemma handle_lastRef rnd e l t0 :
  Loop.lastRef l <= t0 ->
  match e with
  | AnimationFrame _ time _ => t0 <= time -> Loop.lastRef (handle rnd e l) <= time
  | PauseClick => Loop.lastRef (handle rnd e l) <= t0
  end.
Proof.
  intros Hl. destruct e as [u time now |]; cbn [handle]; [| exact Hl].
  intros Ht. destruct (activeb (Loop.app l)).
  - unfold loop. cbv zeta. destruct (frame _ _ _ _ _ _) as [s r].
    cbn [Loop.lastRef]. apply Qle_refl.
  - lra.
Qed.

Lemma run_clock rnd es : forall l t0,
  Loop.lastRef l <= t0 -> inOrder t0 es ->
  App.roundOver (Loop.app (run rnd es l)) = false ->
  App.timer (Loop.app (run rnd es l))
  == App.timer (Loop.app l) - (Loop.lastRef (run rnd es l) - Loop.lastRef l) / 1000.
Proof.
  induction es as [| e es IH]; intros l t0 Hl Ho Hr.
  - cbn [run fold_left]. unfold Qdiv. ring.
  - cbn [run fold_left] in *. fold (run rnd es (handle rnd e l)) in *.
    assert (Hr1 : App.roundOver (Loop.app (handle rnd e l)) = false).
    { destruct (App.roundOver (Loop.app (handle rnd e l))) eqn:E; [| reflexivity].
      destruct (run_roundOver rnd es (handle rnd e l)) as [_ H].
      rewrite (H E) in Hr. discriminate Hr. }
    assert (Ho1 : inOrder t0 [e]).
    { destruct e; cbn [inOrder] in *; [split; [apply Ho | exact I] | exact I]. }
    destruct (handle_clock rnd e l t0 Hl Ho1 Hr1) as [_ Hc].
    pose proof (handle_lastRef rnd e l t0 Hl) as Hn.
    assert (Hi : App.timer (Loop.app (run rnd es (handle rnd e l)))
                 == App.timer (Loop.app (handle rnd e l))
                    - (Loop.lastRef (run rnd es (handle rnd e l))
                       - Loop.lastRef (handle rnd e l)) / 1000).
    { destruct e as [u time now |]; cbn [inOrder] in Ho.
      - destruct Ho as [Ht Ho]. apply (IH _ time (Hn Ht) Ho Hr).
      - apply (IH _ t0 Hn Ho Hr). }
    rewrite Hi, Hc. unfold Qdiv. ring.
Qed.

(** X26. The round clock follows the times of the animation frames, not
    their number: as long as the round has not ended, the timer has
    dropped by a thousandth of the time between the first [lastRef] and
    the last frame that ran.  Pausing stops the frames but not this
    clock: the first frame after a pause takes the whole pause off the
    timer. *)
Theorem round_clock_counts_paused_time rnd es l :
  inOrder (Loop.lastRef l) es ->
  App.roundOver (Loop.app (run rnd es l)) = false ->
  App.timer (Loop.app (run rnd es l))
  == App.timer (Loop.app l) - (Loop.lastRef (run rnd es l) - Loop.lastRef l) / 1000.
Proof. intros Ho Hr. apply (run_clock rnd es l (Loop.lastRef l) (Qle_refl _) Ho Hr). Qed.

Lemma round_clock_counts_paused_time_witness :
  let l := Loop.mk 0 (setMode PvP initialApp) (mkRefs ∅ 0) in
  Loop.lastRef (run (fun _ => 0) pausedFiveSeconds l) = 5032
  /\ App.timer (Loop.app (run (fun _ => 0) pausedFiveSeconds l))
     == 60 - (Loop.lastRef (run (fun _ => 0) pausedFiveSeconds l) - 0) / 1000.
Proof.
  intros l. split; [vm_compute; reflexivity |].
  apply (round_clock_counts_paused_time (fun _ => 0) pausedFiveSeconds l).
  - cbn [inOrder pausedFiveSeconds Loop.lastRef l].
    repeat split; vm_compute; discriminate.
  - vm_compute. reflexivity.
Defined.

(** ** The HUD *)

Lemma Reachable_hp s : Reachable s -> hpInRange (App.p1 s) /\ hpInRange (App.p2 s).
Proof.
  apply (Reachable_fighters (fun a b => hpInRange a /\ hpInRange b)).
  - split; apply initialApp_inBounds.
  - intros a b r1 r2 [Ha Hb]. destruct a, b. split; assumption.
  - intros k delta now a b [Ha Hb].
    destruct (resolve_inBounds (controlPlayer k delta a CONTROLS.p1 now)
                (controlPlayer k delta b CONTROLS.p2 now)
                (controlPlayer_inBounds _ _ _ _ _ Ha)
                (controlPlayer_inBounds _ _ _ _ _ Hb)) as [[R1 _] [R2 _]].
    split; assumption.
Qed.

(** X27. On every reachable state the clamp of [HealthBar] does nothing:
    each bar shows exactly the hp of its fighter, and a sprite is drawn
    knocked out exactly when that hp is 0. *)
Theorem healthBar_shows_hp_exactly s :
  Reachable s ->
  (healthPct (Fighter.hp (App.p1 s)) == Fighter.hp (App.p1 s)
   /\ (isKO (App.p1 s) = true <-> Fighter.hp (App.p1 s) == 0))
  /\ (healthPct (Fighter.hp (App.p2 s)) == Fighter.hp (App.p2 s)
      /\ (isKO (App.p2 s) = true <-> Fighter.hp (App.p2 s) == 0)).
Proof.
  intros Hs. destruct (Reachable_hp s Hs) as [[L1 U1] [L2 U2]].
  unfold healthPct, isKO.
  split; split.
  - destruct (clamp_cases (Fighter.hp (App.p1 s)) 0 100)
      as [(_ & _ & C) | [(_ & C1 & C) | [(C1 & _ & C) | (C1 & _ & C)]]];
      rewrite C; lra.
  - rewrite Qleb_le. split; intros H; lra.
  - destruct (clamp_cases (Fighter.hp (App.p2 s)) 0 100)
      as [(_ & _ & C) | [(_ & C1 & C) | [(C1 & _ & C) | (C1 & _ & C)]]];
      rewrite C; lra.
  - rewrite Qleb_le. split; intros H; lra.
Qed.

Lemma healthBar_shows_hp_exactly_witness :
  (healthPct (Fighter.hp (App.p1 (fst afterAIFrame))) == Fighter.hp (App.p1 (fst afterAIFrame))
   /\ (isKO (App.p1 (fst afterAIFrame)) = true
       <-> Fighter.hp (App.p1 (fst afterAIFrame)) == 0))
  /\ (healthPct (Fighter.hp (App.p2 (fst afterAIFrame))) == Fighter.hp (App.p2 (fst afterAIFrame))
      /\ (isKO (App.p2 (fst afterAIFrame)) = true
          <-> Fighter.hp (App.p2 (fst afterAIFrame)) == 0)).
Proof.
  apply (healthBar_shows_hp_exactly (fst afterAIFrame)).
  apply Reach_frame, Reach_init.
Defined.
